(** * Solvned (package mned): a shallow embedding of the stepping engine

    Go's [float64] is Rocq's primitive binary64 [float]; every arithmetic
    operation below is the IEEE-754 operation the Go source performs, in the
    source's order of evaluation (no fused multiply-add).  Slices are lists;
    an index out of range is the run-time panic of Go, kept as an outcome of
    its own.  Loops that the source does not bound take a budget. *)

From Stdlib Require Import Floats ZArith List Bool Lia Sorted.
Import ListNotations.

Set Warnings "-inexact-float".
Local Open Scope float_scope.

(** ** Outcomes of a Go call *)

Inductive outcome (A : Type) : Type :=
| Ret (a : A)   (* the call returned *)
| Panic         (* run-time panic: index out of range, nil function *)
| Spin.         (* the loop budget ran out before the call returned *)

Arguments Ret {A} a.
Arguments Panic {A}.
Arguments Spin {A}.

Definition obind {A B : Type} (c : outcome A) (k : A -> outcome B) : outcome B :=
  match c with
  | Ret a => k a
  | Panic => Panic
  | Spin => Spin
  end.

Declare Scope go_scope.
Delimit Scope go_scope with go.

Notation "x <~ c ;; k" := (obind c (fun x => k))
  (at level 61, c at next level, right associativity) : go_scope.
Notation "' pat <~ c ;; k" := (obind c (fun x => match x with pat => k end))
  (at level 61, pat pattern, c at next level, right associativity) : go_scope.

Local Open Scope go_scope.

(** ** Slices *)

Section Slices.
Context {A : Type}.

(** [v[i]] read. *)
Definition load (v : list A) (i : nat) : outcome A :=
  match nth_error v i with
  | Some x => Ret x
  | None => Panic
  end.

(** [v[i] = x]. *)
Fixpoint store (v : list A) (i : nat) (x : A) : outcome (list A) :=
  match v, i with
  | [], _ => Panic
  | _ :: r, O => Ret (x :: r)
  | y :: r, S j => r' <~ store r j x ;; Ret (y :: r')
  end.

(** The builtin [copy(dst, src)]: the common prefix is overwritten. *)
Fixpoint copy (dst src : list A) : list A :=
  match dst, src with
  | _ :: d, s :: r => s :: copy d r
  | _, _ => dst
  end.

(** [for i := from; i < from+n; i++ { body }] over a state [S]. *)
Fixpoint forRangeFrom {S : Type} (from n : nat)
    (body : nat -> S -> outcome S) (s : S) : outcome S :=
  match n with
  | O => Ret s
  | Datatypes.S n' => s' <~ body from s ;; forRangeFrom (Datatypes.S from) n' body s'
  end.

Definition forRange {S : Type} (n : nat) (body : nat -> S -> outcome S) (s : S)
  : outcome S :=
  forRangeFrom 0 n body s.
End Slices.

(** [v[i] = f(v[i])] where [f] may read other slices. *)
Definition modify (v : list float) (i : nat) (f : float -> outcome float)
  : outcome (list float) :=
  x <~ load v i ;; y <~ f x ;; store v i y.

(** [make([]float64, n)]. *)
Definition make (n : nat) : list float := repeat 0 n.

(** ** Core data types (common.go) *)

Record Point : Type := mkPoint {
  Time : float;        (* The independent variable. *)
  Value : list float   (* The dependent variable. *)
}.

(** Deep copy: a fresh backing array with the same contents. *)
Definition Point_Clone (p : Point) : Point :=
  mkPoint (Time p) (copy (make (length (Value p))) (Value p)).

Record IVP : Type := mkIVP {
  Derivative : Point -> list float * bool;
  Start : Point
}.

Definition IVP_Clone (ivp : IVP) : IVP :=
  mkIVP (Derivative ivp) (Point_Clone (Start ivp)).

Definition setTime (p : Point) (t : float) : Point := mkPoint t (Value p).
Definition setValue (p : Point) (v : list float) : Point := mkPoint (Time p) v.
Definition setStart (ivp : IVP) (p : Point) : IVP := mkIVP (Derivative ivp) p.

(** ** Observable calls

    The properties below speak of which calls are made and in which order: derivative
    evaluations and their domain flag, [Stepper.Next] calls, event actions and
    the per-point callback.  A computation yields the calls it made together
    with its outcome. *)

Inductive call : Type :=
| CDerivative (p : Point) (ok : bool)
| CNext
| CAction (index : nat) (p : Point) (continue : bool)
| CCallback (p : Point).

Abbreviation M A := (list call * outcome A)%type.

Definition ret {A : Type} (a : A) : M A := ([], Ret a).

Definition bind {A B : Type} (c : M A) (k : A -> M B) : M B :=
  match snd c with
  | Ret a => let r := k a in (fst c ++ fst r, snd r)
  | Panic => (fst c, Panic)
  | Spin => (fst c, Spin)
  end.

Definition lift {A : Type} (o : outcome A) : M A := ([], o).
Definition emit (c : call) : M unit := ([c], Ret tt).

Notation "x <- c ;; k" := (bind c (fun x => k))
  (at level 61, c at next level, right associativity) : go_scope.
Notation "' pat <- c ;; k" := (bind c (fun x => match x with pat => k end))
  (at level 61, pat pattern, c at next level, right associativity) : go_scope.
Notation "c ;;; k" := (bind c (fun _ => k))
  (at level 61, right associativity) : go_scope.

Definition calls {A : Type} (c : M A) : list call := fst c.
Definition result {A : Type} (c : M A) : outcome A := snd c.

(** [ivp.Derivative(p)], recorded. *)
Definition callDerivative (ivp : IVP) (p : Point) : M (list float * bool) :=
  let r := Derivative ivp p in
  emit (CDerivative p (snd r)) ;;; ret r.

(** The domain flags of the derivative evaluations a computation made. *)
Fixpoint derivativeFlags (l : list call) : list bool :=
  match l with
  | [] => []
  | CDerivative _ ok :: r => ok :: derivativeFlags r
  | _ :: r => derivativeFlags r
  end.

(** ** Fixed-step update functions (package method) *)

(** [for i, _ := range k { k[i] *= h }]: the contents of [k] after the loop.
    The source runs the loop in place on the slice [Derivative] returned; no
    other slice changes with it when that slice shares its array with none
    (every derivative of the repository returns a slice of its own), which
    is how [RK4Step] and the Runge-Kutta-Fehlberg trial below take it.
    Theorems X1, X5, X6 and X22, on failed steps and on exhaustion, are
    stated so as to hold of any derivative. *)
Definition scale (h : float) (k : list float) : list float :=
  map (fun x => x * h) k.

Definition eulerStep (ivp : IVP) (h : float) : M (IVP * bool) :=
  '(deriv, ok) <- callDerivative ivp (Start ivp) ;;
  if negb ok then ret (ivp, false)
  else
    v <- lift (forRange (length deriv)
                 (fun i v => modify v i (fun x => d <~ load deriv i ;; Ret (x + h * d)))
                 (Value (Start ivp))) ;;
    ret (setStart ivp (setValue (Start ivp) v), true).

Definition modEulerStep (ivp : IVP) (h : float) : M (IVP * bool) :=
  '(deriv, ok) <- callDerivative ivp (Start ivp) ;;
  if negb ok then ret (ivp, false)
  else
    let point := Point_Clone (Start ivp) in
    let point := setTime point (Time point + h) in
    pv <- lift (forRange (length deriv)
                  (fun i v => modify v i (fun x => d <~ load deriv i ;; Ret (x + h * d)))
                  (Value point)) ;;
    let point := setValue point pv in
    '(deriv2, _) <- callDerivative ivp point ;;
    v <- lift (forRange (length deriv)
                 (fun i v => modify v i (fun x =>
                    d <~ load deriv i ;; d2 <~ load deriv2 i ;;
                    Ret (x + h * (d + d2) / 2)))
                 (Value (Start ivp))) ;;
    ret (setStart ivp (setValue (Start ivp) v), true).

(** One stage point of RK4: [p := ivp.Start.Clone(); p.Time += dt;
    for i, v := range k { p.Value[i] += v / den }]. *)
Definition stagePoint (p0 : Point) (dt : float) (k : list float)
    (f : float -> float) : outcome Point :=
  let p := Point_Clone p0 in
  v <~ forRange (length k)
         (fun i v => modify v i (fun x => d <~ load k i ;; Ret (x + f d)))
         (Value p) ;;
  Ret (mkPoint (Time p + dt) v).

Definition RK4Step (ivp : IVP) (h : float) : M (IVP * list float * bool) :=
  '(k1, ok) <- callDerivative ivp (Start ivp) ;;
  if negb ok then ret (ivp, [], false)
  else
    let k1 := scale h k1 in
    p1 <- lift (stagePoint (Start ivp) (h / 2) k1 (fun v => v / 2)) ;;
    '(k2, ok) <- callDerivative ivp p1 ;;
    if negb ok then ret (ivp, [], false)
    else
      let k2 := scale h k2 in
      p2 <- lift (stagePoint (Start ivp) (h / 2) k2 (fun v => v / 2)) ;;
      '(k3, ok) <- callDerivative ivp p2 ;;
      if negb ok then ret (ivp, [], false)
      else
        let k3 := scale h k3 in
        p3 <- lift (stagePoint (Start ivp) h k3 (fun v => v)) ;;
        '(k4, ok) <- callDerivative ivp p3 ;;
        if negb ok then ret (ivp, [], false)
        else
          let k4 := scale h k4 in
          v <- lift (forRange (length (Value (Start ivp)))
                       (fun i v => modify v i (fun x =>
                          a <~ load k1 i ;; b <~ load k2 i ;;
                          c <~ load k3 i ;; d <~ load k4 i ;;
                          Ret (x + (a + 2 * b + 2 * c + d) / 6)))
                       (Value (Start ivp))) ;;
          ret (setStart ivp (setValue (Start ivp) v), k1, true).

Definition rk4Step (ivp : IVP) (h : float) : M (IVP * bool) :=
  '(ivp', _, ok) <- RK4Step ivp h ;; ret (ivp', ok).

(** A decaying problem [x' = -x], [x(0) = 1], whose domain ends at [t = 1]. *)
Definition decayUntil1 : IVP :=
  mkIVP (fun p => (map (fun x => - x) (Value p), Time p <? 1))
        (mkPoint 0 [1]).

(** The same problem with a derivative that yields no vector outside its domain. *)
Definition decayUntil1Nil : IVP :=
  mkIVP (fun p => if Time p <? 1 then (map (fun x => - x) (Value p), true)
                  else ([], false))
        (mkPoint 0 [1]).

(** ** Steppers and methods (interfaces of package mned) *)

(** A [Stepper] owns a private state; [Next] advances it.  [(nil, false)] is
    [None].  A [ConfigurableStepper] also has [NextStep]. *)
Record Stepper : Type := mkStepper {
  St : Type;
  stepperState : St;
  stepperNext : St -> M (option Point * St);
  stepperNextStep : option (float -> St -> M (option Point * St))
}.

Definition withState (s : Stepper) (st : St s) : Stepper :=
  mkStepper (St s) st (stepperNext s) (stepperNextStep s).

(** [s.Next()], recorded. *)
Definition Next (s : Stepper) : M (option Point * Stepper) :=
  emit CNext ;;;
  '(p, st) <- stepperNext s (stepperState s) ;;
  ret (p, withState s st).

(** [s.(ConfigurableStepper).NextStep(h)], for a stepper that has it. *)
Definition NextStep (s : Stepper) (h : float) : option (M (option Point * Stepper)) :=
  match stepperNextStep s with
  | None => None
  | Some f => Some ('(p, st) <- f h (stepperState s) ;; ret (p, withState s st))
  end.

Record Method : Type := mkMethod {
  Forward : IVP -> Stepper;
  Backward : IVP -> Stepper
}.

(** [math.Pow] of Go's standard library, taken as it is. *)
Definition PowFn : Type := float -> float -> float.

(** [float64(n)] for an integer that fits (here a [uint8]). *)
Definition float64 (n : Z) : float := PrimFloat.of_uint63 (Uint63.of_Z n).

(** ** Fixed-step methods *)

Module fixedStepper.
Record t : Type := mk {
  state : IVP;
  step : float;
  method : IVP -> float -> M (IVP * bool)
}.

Definition NextStep (h : float) (s : t) : M (option Point * t) :=
  '(st, ok) <- method s (state s) h ;;
  if negb ok then ret (None, mk st (step s) (method s))
  else
    let st := setStart st (setTime (Start st) (Time (Start st) + h)) in
    ret (Some (Start st), mk st (step s) (method s)).

Definition Next (s : t) : M (option Point * t) := NextStep (step s) s.

Definition toStepper (s : t) : Stepper :=
  mkStepper t s Next (Some NextStep).
End fixedStepper.

Module FixedStepMethod.
Record t : Type := mk {
  Step : float;
  Method : IVP -> float -> M (IVP * bool)
}.

Definition Forward (m : t) (ivp : IVP) : Stepper :=
  fixedStepper.toStepper (fixedStepper.mk (IVP_Clone ivp) (Step m) (Method m)).

Definition Backward (m : t) (ivp : IVP) : Stepper :=
  fixedStepper.toStepper (fixedStepper.mk (IVP_Clone ivp) (- Step m) (Method m)).
End FixedStepMethod.

Definition FixedStepMethod_toMethod (m : FixedStepMethod.t) : Method :=
  mkMethod (FixedStepMethod.Forward m) (FixedStepMethod.Backward m).

Definition Euler (step : float) : Method :=
  FixedStepMethod_toMethod (FixedStepMethod.mk step eulerStep).
Definition ModifiedEuler (step : float) : Method :=
  FixedStepMethod_toMethod (FixedStepMethod.mk step modEulerStep).
Definition RK4 (step : float) : Method :=
  FixedStepMethod_toMethod (FixedStepMethod.mk step rk4Step).

(** ** The step-size update rule *)

Definition AdaptiveUpdateStep (Pow : PowFn)
    (step tol err max : float) (order : Z) : float :=
  let adjust := tol * abs step / (2 * err) in
  let q := if (order =? 1)%Z then adjust (* Fast path *)
           else Pow adjust (1 / float64 order) in
  let q := if q <? 0.1 then 0.1
           else if 4 <? q then 4
           else q in
  let newStep := q * step in
  if max <? abs newStep then
    if 0 <? newStep then max else - max
  else newStep.

(** ** The generic adaptive wrapper (Richardson extrapolation) *)

Module adaptiveStepper.
Record t : Type := mk {
  state : IVP;
  step : float;
  hmin : float;
  hmax : float;
  tolerance : float;
  method : IVP -> float -> M (IVP * bool);
  order : Z  (* uint8 *)
}.

Definition withStep (s : t) (h : float) : t :=
  mk (state s) h (hmin s) (hmax s) (tolerance s) (method s) (order s).
Definition withState (s : t) (st : IVP) : t :=
  mk st (step s) (hmin s) (hmax s) (tolerance s) (method s) (order s).

(** While [Next] runs, [s.state.Start.Value] is one of three backing arrays:
    the stepper's own, or the locals [full] and [half].  [getSteps] leaves it
    on a local when the inner method fails, so the arrays and the alias are
    kept apart from the stepper. *)
Inductive array : Type := Own | Full | Half.

Record frame : Type := mkFrame {
  value : array;   (* the array [s.state.Start.Value] is *)
  own : list float;
  full : list float;
  half : list float
}.

Definition get (fr : frame) (a : array) : list float :=
  match a with Own => own fr | Full => full fr | Half => half fr end.

Definition put (fr : frame) (a : array) (v : list float) : frame :=
  match a with
  | Own => mkFrame (value fr) v (full fr) (half fr)
  | Full => mkFrame (value fr) (own fr) v (half fr)
  | Half => mkFrame (value fr) (own fr) (full fr) v
  end.

Definition alias (fr : frame) (a : array) : frame :=
  mkFrame a (own fr) (full fr) (half fr).

(** The stepper as the next call finds it. *)
Definition settle (s : t) (fr : frame) : t :=
  withState s (setStart (state s)
                 (setValue (Start (state s)) (get fr (value fr)))).

(** [s.method(&s.state, h)]: the method works in place on the aliased array. *)
Definition runMethod (s : t) (fr : frame) (h : float) : M (t * frame * bool) :=
  '(st, ok) <- method s (state (settle s fr)) h ;;
  ret (withState s st, put fr (value fr) (Value (Start st)), ok).

Definition adaptStep (Pow : PowFn) (s : t) (err : float) : t :=
  withStep s (AdaptiveUpdateStep Pow (step s) (tolerance s) err (hmax s) (order s)).

Definition getSteps (s : t) (fr : frame) : M (t * frame * bool) :=
  let orig := value fr in
  let fr := put fr Full (copy (full fr) (get fr orig)) in
  let fr := alias fr Full in
  '(s, fr, ok) <- runMethod s fr (step s) ;;
  if negb ok then ret (s, fr, false)
  else
    let fr := put fr Half (copy (half fr) (get fr orig)) in
    let fr := alias fr Half in
    '(s, fr, ok) <- runMethod s fr (step s / 2) ;;
    if negb ok then ret (s, fr, false)
    else
      '(s, fr, ok) <- runMethod s fr (step s / 2) ;;
      if negb ok then ret (s, fr, false)
      else ret (s, alias fr orig, true).

(** [for i, v := range full { diff := v - half[i]; sqerr += diff * diff }] *)
Definition sqerr (fr : frame) : outcome float :=
  forRange (length (full fr))
    (fun i acc =>
       v <~ load (full fr) i ;; h <~ load (half fr) i ;;
       let diff := v - h in Ret (acc + diff * diff))
    0.

(** [for i, v := range full
      { s.state.Start.Value[i] = multiplier*half[i] - orderm1*v }] *)
Definition extrapolate (multiplier orderm1 : float) (fr : frame) : outcome frame :=
  forRange (length (full fr))
    (fun i fr =>
       v <~ load (full fr) i ;; h <~ load (half fr) i ;;
       x <~ store (get fr (value fr)) i (multiplier * h - orderm1 * v) ;;
       Ret (put fr (value fr) x))
    fr.

(** The two nested loops of [Next]; [retrying] is true inside the inner
    [for !s.getSteps(full, half)] loop, where the outer guard is not
    evaluated again. *)
Fixpoint loop (Pow : PowFn) (fuel : nat) (retrying : bool) (s : t) (fr : frame)
  : M (option Point * t) :=
  match fuel with
  | O => lift Spin
  | S fuel =>
    if negb retrying && negb (hmin s <=? step s) then
      ret (None, settle s fr) (* s.step < s.hmin *)
    else
      '(s, fr, ok) <- getSteps s fr ;;
      if negb ok then
        let s := withStep s (step s * 0.5) in
        if step s <? hmin s then ret (None, settle s fr)
        else loop Pow fuel true s fr
      else
        let orderm1 := 1 / (FloatOps.Z.ldexp 1 (order s) - 1) in
        let multiplier := 1 + orderm1 in
        sq <- lift (sqerr fr) ;;
        let err := sqrt sq * multiplier in
        let tol := tolerance s * abs (step s) in
        if tol <? err then loop Pow fuel false (adaptStep Pow s err) fr
        else
          fr <- lift (extrapolate multiplier orderm1 fr) ;;
          let s := settle s fr in
          let st := state s in
          let s := withState s
                     (setStart st (setTime (Start st) (Time (Start st) + step s))) in
          let s := adaptStep Pow s err in
          ret (Some (Start (state s)), s)
  end.

Definition Next (Pow : PowFn) (fuel : nat) (s : t) : M (option Point * t) :=
  let size := length (Value (Start (state s))) in
  loop Pow fuel false s (mkFrame Own (Value (Start (state s))) (make size) (make size)).

Definition toStepper (Pow : PowFn) (fuel : nat) (s : t) : Stepper :=
  mkStepper t s (Next Pow fuel) None.
End adaptiveStepper.

Module AdaptiveStepMethod.
Record t : Type := mk {
  Step : float;
  Hmin : float;
  Hmax : float;
  Tolerance : float;
  Method : IVP -> float -> M (IVP * bool);
  Order : Z  (* uint8 *)
}.

Definition toStepper (m : t) (ivp : IVP) (step : float) : adaptiveStepper.t :=
  adaptiveStepper.mk (IVP_Clone ivp) step (Hmin m) (Hmax m) (Tolerance m)
                     (Method m) (Order m).

Definition Forward (m : t) (ivp : IVP) : adaptiveStepper.t :=
  toStepper m ivp (Step m).
Definition Backward (m : t) (ivp : IVP) : adaptiveStepper.t :=
  toStepper m ivp (- Step m).
End AdaptiveStepMethod.

Definition AdaptiveStepMethod_toMethod (Pow : PowFn) (fuel : nat)
    (m : AdaptiveStepMethod.t) : Method :=
  mkMethod
    (fun ivp => adaptiveStepper.toStepper Pow fuel (AdaptiveStepMethod.Forward m ivp))
    (fun ivp => adaptiveStepper.toStepper Pow fuel (AdaptiveStepMethod.Backward m ivp)).

Definition AdaptiveEuler (tolerance step hmin hmax : float) : AdaptiveStepMethod.t :=
  AdaptiveStepMethod.mk step hmin hmax tolerance eulerStep 1.

Definition AdaptiveRK4 (tolerance step hmin hmax : float) : AdaptiveStepMethod.t :=
  AdaptiveStepMethod.mk step hmin hmax tolerance rk4Step 4.

(** ** The Runge-Kutta-Fehlberg method *)

Module rkFehlbergStepper.
Record t : Type := mk {
  current : Point;
  deriv : Point -> list float * bool;
  step : float;
  tol : float;
  hmin : float;
  hmax : float
}.

Definition withStep (s : t) (h : float) : t :=
  mk (current s) (deriv s) h (tol s) (hmin s) (hmax s).
Definition withCurrent (s : t) (p : Point) : t :=
  mk p (deriv s) (step s) (tol s) (hmin s) (hmax s).

(** [s.deriv(p)], recorded. *)
Definition callDeriv (s : t) (p : Point) : M (list float * bool) :=
  callDerivative (mkIVP (deriv s) (current s)) p.

(** [p := s.current.Clone(); p.Time += dt;
    for i := range p.Value { p.Value[i] += inc(i) }] *)
Definition stage (s : t) (dt : float) (inc : nat -> outcome float) : outcome Point :=
  let p := Point_Clone (current s) in
  v <~ forRange (length (Value p))
         (fun i v => modify v i (fun x => d <~ inc i ;; Ret (x + d)))
         (Value p) ;;
  Ret (mkPoint (Time p + dt) v).

Record stages : Type := mkStages {
  k1 : list float; k2 : list float; k3 : list float;
  k4 : list float; k5 : list float; k6 : list float
}.

(** The six stage derivatives of one trial step, each scaled by [s.step];
    [None] when an evaluation left the domain. *)
Definition trial (s : t) : M (option stages) :=
  let h := step s in
  '(k1, ok) <- callDeriv s (current s) ;;
  if negb ok then ret None else
  let k1 := scale h k1 in
  p2 <- lift (stage s (h / 4) (fun i => a <~ load k1 i ;; Ret (a / 4))) ;;
  '(k2, ok) <- callDeriv s p2 ;;
  if negb ok then ret None else
  let k2 := scale h k2 in
  p3 <- lift (stage s (h * 3 / 8) (fun i =>
          a <~ load k1 i ;; b <~ load k2 i ;; Ret ((3 * a + 9 * b) / 32))) ;;
  '(k3, ok) <- callDeriv s p3 ;;
  if negb ok then ret None else
  let k3 := scale h k3 in
  p4 <- lift (stage s (h * 12 / 13) (fun i =>
          a <~ load k1 i ;; b <~ load k2 i ;; c <~ load k3 i ;;
          Ret ((1932 * a - 7200 * b + 7296 * c) / 2197))) ;;
  '(k4, ok) <- callDeriv s p4 ;;
  if negb ok then ret None else
  let k4 := scale h k4 in
  p5 <- lift (stage s h (fun i =>
          a <~ load k1 i ;; b <~ load k2 i ;; c <~ load k3 i ;; d <~ load k4 i ;;
          Ret (439 * a / 216 - 8 * b + 3680 * c / 513 - 845 * d / 4104))) ;;
  '(k5, ok) <- callDeriv s p5 ;;
  if negb ok then ret None else
  let k5 := scale h k5 in
  p6 <- lift (stage s (h / 2) (fun i =>
          a <~ load k1 i ;; b <~ load k2 i ;; c <~ load k3 i ;; d <~ load k4 i ;;
          e <~ load k5 i ;;
          Ret (-8 * a / 27 + 2 * b - 3544 * c / 2656 + 1859 * d / 4104 - 11 * e / 40))) ;;
  '(k6, ok) <- callDeriv s p6 ;;
  if negb ok then ret None else
  let k6 := scale h k6 in
  ret (Some (mkStages k1 k2 k3 k4 k5 k6)).

(** The error estimate [err] of a trial. *)
Definition estimate (s : t) (k : stages) : outcome float :=
  sq <~ forRange (length (Value (current s)))
          (fun i acc =>
             a <~ load (k1 k) i ;; c <~ load (k3 k) i ;; d <~ load (k4 k) i ;;
             e <~ load (k5 k) i ;; f <~ load (k6 k) i ;;
             let v := a / 360 - 128 * c / 4275 - 2197 * d / 75240 + e / 50 + 2 * f / 55 in
             Ret (acc + v * v))
          0 ;;
  Ret (sqrt sq).

(** The accepted update of [s.current.Value]. *)
Definition advance (s : t) (k : stages) : outcome (list float) :=
  forRange (length (Value (current s)))
    (fun i v => modify v i (fun x =>
       a <~ load (k1 k) i ;; c <~ load (k3 k) i ;; d <~ load (k4 k) i ;;
       e <~ load (k5 k) i ;;
       Ret (x + (25 * a / 216 + 1408 * c / 2565 + 2197 * d / 4104 - e / 5))))
    (Value (current s)).

Fixpoint Next (Pow : PowFn) (fuel : nat) (s : t) : M (option Point * t) :=
  match fuel with
  | O => lift Spin
  | S fuel =>
    if negb (hmin s <=? step s) then ret (None, s)
    else
      r <- trial s ;;
      match r with
      | None => Next Pow fuel (withStep s (step s * 0.5))
      | Some k =>
        err <- lift (estimate s k) ;;
        if tol s <? err then
          Next Pow fuel
            (withStep s (AdaptiveUpdateStep Pow (step s) (tol s) err (hmax s) 4))
        else
          v <- lift (advance s k) ;;
          let s := withCurrent s (mkPoint (Time (current s) + step s) v) in
          let s := withStep s (AdaptiveUpdateStep Pow (step s) (tol s) err (hmax s) 4) in
          ret (Some (current s), s)
      end
  end.

Definition toStepper (Pow : PowFn) (fuel : nat) (s : t) : Stepper :=
  mkStepper t s (Next Pow fuel) None.
End rkFehlbergStepper.

Module rkFehlbergMethod.
Record t : Type := mk {
  step : float;
  tol : float;
  hmin : float;
  hmax : float
}.

Definition withStep (m : t) (step : float) (ivp : IVP) : rkFehlbergStepper.t :=
  rkFehlbergStepper.mk (Point_Clone (Start ivp)) (Derivative ivp)
                       step (tol m) (hmin m) (hmax m).

Definition Forward (m : t) (ivp : IVP) : rkFehlbergStepper.t :=
  withStep m (step m) ivp.
Definition Backward (m : t) (ivp : IVP) : rkFehlbergStepper.t :=
  withStep m (- step m) ivp.
End rkFehlbergMethod.

Definition rkFehlbergMethod_toMethod (Pow : PowFn) (fuel : nat)
    (m : rkFehlbergMethod.t) : Method :=
  mkMethod
    (fun ivp => rkFehlbergStepper.toStepper Pow fuel (rkFehlbergMethod.Forward m ivp))
    (fun ivp => rkFehlbergStepper.toStepper Pow fuel (rkFehlbergMethod.Backward m ivp)).

Definition RKFehlberg (tolerance step hmin hmax : float) : rkFehlbergMethod.t :=
  rkFehlbergMethod.mk step tolerance hmin hmax.

(** A stand-in for [math.Pow] to run examples with: exact up to the rounding
    of [sqrt] on the exponents the steppers of order 1, 2 and 4 ask for. *)
Definition powRoots : PowFn :=
  fun x y =>
    if y =? 1 then x
    else if y =? 0.5 then sqrt x
    else if y =? 0.25 then sqrt (sqrt x)
    else nan.

(** The problem [x' = 1] started at [(0, 0)]. *)
Definition unitSlope : IVP := mkIVP (fun p => ([1], true)) (mkPoint 0 [0]).

(** The problem [x' = -x], [x(0) = 1] of examples/exp.go. *)
Definition decay : IVP :=
  mkIVP (fun p => (map (fun x => - x) (Value p), true)) (mkPoint 0 [1]).

(** ** Interpolators *)

(** [FindValue(p1, p2, t)]; it only reads, so it is an outcome. *)
Definition Interpolator : Type := Point -> Point -> float -> outcome (list float).

Definition LinearInterpolator : Interpolator :=
  fun p1 p2 t =>
    let size := length (Value p1) in
    let ratio := (t - Time p1) / (Time p2 - Time p1) in
    forRange size
      (fun i res =>
         a <~ load (Value p1) i ;; b <~ load (Value p2) i ;;
         store res i (a * (1 - ratio) + b * ratio))
      (make size).

(** The nil interface value: calling its method panics. *)
Definition nilInterpolator : Interpolator := fun _ _ _ => Panic.

(** ** Events (event.go) *)

Record Event : Type := mkEvent {
  Cross : Point -> float;
  Tolerance : float;
  Action : Point -> bool
}.

(** The bisection loop of [FindPoint]. *)
Fixpoint bisect (fuel : nat) (e : Event) (i : Interpolator) (p1 p2 : Point)
    (downwards : bool) (min max : Point) : outcome Point :=
  match fuel with
  | O => Spin
  | S fuel =>
    let t := (Time min + Time max) / 2 in
    v <~ i p1 p2 t ;;
    let mid := mkPoint t v in
    let value := Cross e mid in
    if abs value <? Tolerance e then Ret mid
    else if downwards then
      if 0 <? value then bisect fuel e i p1 p2 downwards mid max
      else bisect fuel e i p1 p2 downwards min mid
    else
      if 0 <? value then bisect fuel e i p1 p2 downwards min mid
      else bisect fuel e i p1 p2 downwards mid max
  end.

Definition FindPoint (fuel : nat) (e : Event) (i : Interpolator) (p1 p2 : Point)
  : outcome Point :=
  let '(min, max) := if Time p1 <? Time p2 then (p1, p2) else (p2, p1) in
  let downwards := 0 <? Cross e p1 in
  bisect fuel e i p1 p2 downwards min max.

Record requiredAction : Type := mkRequiredAction {
  index : nat;
  point : Point
}.

Definition requiredActions : Type := list requiredAction.

Definition Less (a b : requiredAction) : bool := Time (point a) <? Time (point b).

(** [sort.Sort] of Go's standard library on a [requiredActions]: the insertion
    sort it runs on slices of at most 12 elements, which moves each element
    left past the elements it is [Less] than.  [sink x rev] takes the sorted
    prefix in reverse.  On a longer slice the library runs a quicksort that
    is not stable and that this definition does not follow: what is stated
    of the order [Sort] gives is stated for at most 12 actions. *)
Fixpoint sink (x : requiredAction) (rev : list requiredAction) : list requiredAction :=
  match rev with
  | [] => [x]
  | y :: r => if Less x y then y :: sink x r else x :: y :: r
  end.

Definition Sort (l : requiredActions) : requiredActions :=
  rev (fold_left (fun acc x => sink x acc) l []).

Definition differentSign (f1 f2 : float) : bool :=
  ((f1 <=? 0) && (0 <=? f2)) || ((0 <=? f1) && (f2 <=? 0)).

(** The detection loop shared by [StepUntil] and [CacheSolver.getActions]:
    [for i := 0; i < n; i++ { newVal := evs[i].Cross(next); ... vs[i] = newVal }]. *)
Definition detect (fuel : nat) (interp : Interpolator) (evs : list Event)
    (n : nat) (prev next : Point) (vs : list float)
  : outcome (requiredActions * list float) :=
  forRange n
    (fun i '(actions, vs) =>
       e <~ load evs i ;;
       let newVal := Cross e next in
       old <~ load vs i ;;
       actions <~ (if differentSign old newVal then
                     p <~ FindPoint fuel e interp prev next ;;
                     Ret (actions ++ [mkRequiredAction i p])
                   else Ret actions) ;;
       vs <~ store vs i newVal ;;
       Ret (actions, vs))
    ([], vs).

(** The reversal loop of [StepUntil] and of [DenseSolve]:
    [for i := 0; i < size/2; i++ { a[i], a[size-i] = a[size-i], a[i] }]. *)
Definition reverseLoop {A : Type} (a : list A) : outcome (list A) :=
  let size := length a in
  forRange (size / 2)%nat
    (fun i a =>
       hi <~ load a (size - i)%nat ;; lo <~ load a i ;;
       a <~ store a i hi ;; store a (size - i)%nat lo)
    a.

(** [evs[a.index].Action(&a.point)], recorded. *)
Definition callAction (evs : list Event) (a : requiredAction) : M bool :=
  e <- lift (load evs (index a)) ;;
  let continue := Action e (point a) in
  emit (CAction (index a) (point a) continue) ;;; ret continue.

(** [for _, a := range actions { if !evs[a.index].Action(&a.point)
      { return a.index, true } }]: the index of the vetoing event, if any. *)
Fixpoint dispatch (evs : list Event) (actions : requiredActions) : M (option nat) :=
  match actions with
  | [] => ret None
  | a :: r =>
    continue <- callAction evs a ;;
    if negb continue then ret (Some (index a)) else dispatch evs r
  end.

(** ** The stepping driver (StepUntil) *)

Section StepUntil.
(** What the callback closes over, and the callback ([None] is nil). *)
Context {U : Type}.
Variable interp : Interpolator.
Variable callback : option (Point -> U -> U).
Variable evs : list Event.

Definition callCallback (p : Point) (u : U) : M U :=
  match callback with
  | None => lift Panic
  | Some f => emit (CCallback p) ;;; ret (f p u)
  end.

Fixpoint stepUntilLoop (fuel : nat) (s : Stepper) (prev : Point) (vs : list float)
    (u : U) : M (nat * bool * Stepper * U) :=
  match fuel with
  | O => lift Spin
  | S fuel =>
    '(next, s) <- Next s ;;
    match next with
    | None => ret (O, false, s, u)
    | Some point =>
      '(actions, vs) <- lift (detect fuel interp evs (length evs) prev point vs) ;;
      let actions := Sort actions in
      actions <- lift (if Time point <? Time prev then reverseLoop actions
                       else Ret actions) ;;
      veto <- dispatch evs actions ;;
      match veto with
      | Some i => ret (i, true, s, u)
      | None =>
        u <- callCallback point u ;;
        stepUntilLoop fuel s (Point_Clone point) vs u
      end
    end
  end.

Definition StepUntil (fuel : nat) (s : Stepper) (init : Point) (u : U)
  : M (nat * bool * Stepper * U) :=
  let prev := init in
  let vs := map (fun e => Cross e prev) evs in
  stepUntilLoop fuel s prev vs u.
End StepUntil.

(** ** The dense eager solution (dense.go) *)

Record DenseSolution : Type := mkDenseSolution {
  points : list Point;   (* This can't be empty. Points are ordered increasingly. *)
  interp : Interpolator
}.

(** [d.points[k]] for a Go [int] index. *)
Definition at_ (l : list Point) (k : Z) : outcome Point :=
  if (k <? 0)%Z then Panic else load l (Z.to_nat k).

(** [len(l)] as a Go [int]. *)
Definition len {A : Type} (l : list A) : Z := Z.of_nat (length l).

Definition DenseSolution_Start (d : DenseSolution) : outcome float :=
  p <~ at_ (points d) 0 ;; Ret (Time p).

Definition DenseSolution_End (d : DenseSolution) : outcome float :=
  p <~ at_ (points d) (len (points d) - 1) ;; Ret (Time p).

(** The recursion of [search]; Go divides [int]s towards zero. *)
Fixpoint search (fuel : nat) (d : DenseSolution) (time : float) (min max : Z)
  : outcome (list float) :=
  match fuel with
  | O => Spin
  | S fuel =>
    if (min =? max)%Z then
      p <~ at_ (points d) min ;; Ret (Value p)
    else if (max - min =? 1)%Z then
      lo <~ at_ (points d) min ;;
      if time =? Time lo then Ret (Value (Point_Clone lo))
      else
        hi <~ at_ (points d) max ;;
        if time =? Time hi then Ret (Value (Point_Clone hi))
        else
          interp d lo hi time
    else
      let mid := Z.quot (max - min) 2 in
      m <~ at_ (points d) mid ;;
      let midtime := Time m in
      if time =? midtime then Ret (Value m)
      else if midtime <? time then search fuel d time mid max
      else search fuel d time min mid
  end.

Definition DenseSolution_Get (fuel : nat) (d : DenseSolution) (time : float)
  : outcome (list float * bool) :=
  start <~ DenseSolution_Start d ;;
  if time <? start then
    p <~ at_ (points d) 0 ;; Ret (Value p, false)
  else
    e <~ DenseSolution_End d ;;
    if e <? time then
      p <~ at_ (points d) (len (points d) - 1) ;; Ret (Value p, false)
    else
      x <~ search fuel d time 0 (len (points d) - 1) ;; Ret (x, true).

Section DenseSolve.
Variable method : Method.
Variable ivp : IVP.
Variables start end_ : float.
Variable interp0 : Interpolator.

(** [for end < current.Time { prev = current.Clone();
      if current, ok = backward.Next(); !ok { return DenseSolution{}, false } }]
    and its mirror image on the right; [before a b] is the loop guard. *)
Fixpoint overshoot (fuel : nat) (before : float -> bool) (s : Stepper)
    (prev current : Point) : M (option (Point * Point) * Stepper) :=
  match fuel with
  | O => lift Spin
  | S fuel =>
    if before (Time current) then
      let prev := Point_Clone current in
      '(next, s) <- Next s ;;
      match next with
      | None => ret (None, s)
      | Some p => overshoot fuel before s prev p
      end
    else ret (Some (prev, current), s)
  end.

(** [for start < current.Time { if current, ok = backward.Next(); !ok { break }
      points = append(points, current.Clone()) }] and its mirror image. *)
Fixpoint collect (fuel : nat) (before : float -> bool) (s : Stepper)
    (current : Point) (pts : list Point) : M (list Point * Stepper) :=
  match fuel with
  | O => lift Spin
  | S fuel =>
    if before (Time current) then
      '(next, s) <- Next s ;;
      match next with
      | None => ret (pts, s)
      | Some p => collect fuel before s p (pts ++ [Point_Clone p])
      end
    else ret (pts, s)
  end.

(** The part of [DenseSolve] that runs the backward stepper: the points it
    leaves in [points], and whether the initial point is still to be added;
    [None] for the early [return DenseSolution{}, false]. *)
Definition leftPart (fuel : nat) : M (option (list Point * bool)) :=
  let backward := Backward method ivp in
  let current := Start ivp in
  if end_ <? Time current then (* Special case: end is on the left *)
    '(r, backward) <- overshoot fuel (fun t => end_ <? t) backward current current ;;
    match r with
    | None => ret None
    | Some (prev, current) =>
      let pts := if Time current <? end_ then [prev] else [] in
      let pts := pts ++ [Point_Clone current] in
      '(pts, _) <- collect fuel (fun t => start <? t) backward current pts ;;
      ret (Some (pts, false))
    end
  else
    '(pts, _) <- collect fuel (fun t => start <? t) backward current [] ;;
    ret (Some (pts, true)).

Definition DenseSolve (fuel : nat) : M (DenseSolution * bool) :=
  let forward := Forward method ivp in
  left <- leftPart fuel ;;
  match left with
  | None => ret (mkDenseSolution [] nilInterpolator, false)
  | Some (pts, pendingAddInitial) =>
    pts <- lift (reverseLoop pts) ;; (* Reverse backwards points *)
    let current := Start ivp in
    if Time current <? start then (* Special case: start is on the right *)
      '(r, forward) <- overshoot fuel (fun t => t <? start) forward current current ;;
      match r with
      | None => ret (mkDenseSolution [] nilInterpolator, false)
      | Some (prev, current) =>
        let pts := if start <? Time current then pts ++ [prev] else pts in
        let pts := pts ++ [Point_Clone current] in
        '(pts, _) <- collect fuel (fun t => t <? end_) forward current pts ;;
        ret (mkDenseSolution pts interp0, true)
      end
    else
      let pts := if pendingAddInitial then pts ++ [Start ivp] else pts in
      '(pts, _) <- collect fuel (fun t => t <? end_) forward current pts ;;
      ret (mkDenseSolution pts interp0, true)
  end.
End DenseSolve.

(** ** The cached dynamic solution *)

Module CacheSolver.
Record t : Type := mk {
  backward : list Point;      (* Invariant: Decreasing times, times before forward's. *)
  forward : list Point;       (* Invariant: Non-empty, increasing times. *)
  backStep : option Stepper;  (* [None] is nil *)
  forStep : option Stepper;
  evs : list Event;
  interp : Interpolator
}.

Definition withBackward (c : t) (l : list Point) (s : option Stepper) : t :=
  mk l (forward c) s (forStep c) (evs c) (interp c).
Definition withForward (c : t) (l : list Point) (s : option Stepper) : t :=
  mk (backward c) l (backStep c) s (evs c) (interp c).

(** Get the time of the stored solution point with the lowest time. *)
Definition Start (c : t) : outcome float :=
  if (0 <? len (backward c))%Z then
    p <~ at_ (backward c) (len (backward c) - 1) ;; Ret (Time p)
  else
    p <~ at_ (forward c) 0 ;; Ret (Time p).

(** Get the time of the stored solution point with the greatest time. *)
Definition End (c : t) : outcome float :=
  p <~ at_ (forward c) (len (forward c) - 1) ;; Ret (Time p).

Definition getActions (fuel : nat) (c : t) (current next : Point) (vals : list float)
  : outcome (requiredActions * list float) :=
  '(actions, vals) <~ detect fuel (interp c) (evs c) (length vals) current next vals ;;
  Ret (Sort actions, vals).

(** [for i := len(actions) - 1; i >= 0; i-- { if !...Action(...) { return false } }],
    true when no action vetoed. *)
Definition actBackward (c : t) (actions : requiredActions) : M bool :=
  veto <- dispatch (evs c) (rev actions) ;;
  ret (match veto with None => true | Some _ => false end).

(** [for i := 0; i < len(actions); i++ { ... }] *)
Definition actForward (c : t) (actions : requiredActions) : M bool :=
  veto <- dispatch (evs c) actions ;;
  ret (match veto with None => true | Some _ => false end).

(** The loop of [expandBackward]; [s] is [c.backStep]. *)
Fixpoint expandBackwardLoop (fuel : nat) (t0 : float) (c : t) (s : Stepper)
    (current : Point) (vals : list float) : M (bool * t) :=
  match fuel with
  | O => lift Spin
  | S fuel =>
    if t0 <? Time current then
      '(next, s) <- Next s ;;
      match next with
      | None => ret (false, withBackward c (backward c) None)
      | Some next =>
        '(actions, vals) <- lift (getActions fuel c current next vals) ;;
        continue <- actBackward c actions ;;
        if negb continue then ret (false, withBackward c (backward c) (Some s))
        else
          let current := Point_Clone next in
          expandBackwardLoop fuel t0 (withBackward c (backward c ++ [current]) (Some s))
                             s current vals
      end
    else ret (true, withBackward c (backward c) (Some s))
  end.

Definition expandBackward (fuel : nat) (c : t) (t0 : float) : M (bool * t) :=
  match backStep c with
  | None => ret (false, c)
  | Some s =>
    current <- lift (if (len (backward c) =? 0)%Z then at_ (forward c) 0
                     else at_ (backward c) (len (backward c) - 1)) ;;
    let vals := map (fun e => Cross e current) (evs c) in
    expandBackwardLoop fuel t0 c s current vals
  end.

(** The loop of [expandForward], with the guard the source has. *)
Fixpoint expandForwardLoop (fuel : nat) (t0 : float) (c : t) (s : Stepper)
    (current : Point) (vals : list float) : M (bool * t) :=
  match fuel with
  | O => lift Spin
  | S fuel =>
    if t0 <? Time current then
      '(next, s) <- Next s ;;
      match next with
      | None => ret (false, withForward c (forward c) None)
      | Some next =>
        '(actions, vals) <- lift (getActions fuel c current next vals) ;;
        continue <- actForward c actions ;;
        if negb continue then ret (false, withForward c (forward c) (Some s))
        else
          let current := Point_Clone next in
          expandForwardLoop fuel t0 (withForward c (forward c ++ [current]) (Some s))
                            s current vals
      end
    else ret (true, withForward c (forward c) (Some s))
  end.

Definition expandForward (fuel : nat) (c : t) (t0 : float) : M (bool * t) :=
  match forStep c with
  | None => ret (false, c)
  | Some s =>
    current <- lift (at_ (forward c) (len (forward c) - 1)) ;;
    let vals := map (fun e => Cross e current) (evs c) in
    expandForwardLoop fuel t0 c s current vals
  end.

(** [for t > l[i].Time { i++ }] from index [i], where [rest] is [l[i:]]. *)
Fixpoint scan (t0 : float) (rest : list Point) (i : nat) : outcome nat :=
  match rest with
  | [] => Panic
  | p :: rest => if Time p <? t0 then scan t0 rest (S i) else Ret i
  end.

(** The lookup that ends [Get], once the range covers [t]. *)
Definition lookup (c : t) (t0 : float) : outcome (list float) :=
  first <~ load (forward c) 0 ;;
  if Time first <=? t0 then
    i <~ scan t0 (skipn 1 (forward c)) 1 ;;
    lo <~ load (forward c) (i - 1) ;; hi <~ load (forward c) i ;;
    interp c lo hi t0
  else
    i <~ scan t0 (backward c) 0 ;;
    if (i =? 0)%nat then
      b <~ load (backward c) 0 ;; f <~ load (forward c) 0 ;;
      interp c b f t0
    else
      lo <~ load (backward c) i ;; hi <~ load (backward c) (i - 1) ;;
      interp c lo hi t0.

(** Get the value of the solution for a given time; [(nil, false)] is
    [(None, false)]. *)
Definition Get (fuel : nat) (c : t) (t0 : float) : M (option (list float) * bool * t) :=
  start <- lift (Start c) ;;
  '(ok, c) <- (if t0 <? start then expandBackward fuel c t0 else ret (true, c)) ;;
  if negb ok then ret (None, false, c)
  else
    e <- lift (End c) ;;
    '(ok, c) <- (if e <? t0 then expandForward fuel c t0 else ret (true, c)) ;;
    if negb ok then ret (None, false, c)
    else
      x <- lift (lookup c t0) ;;
      ret (Some x, true, c).

(** Force the generation of values to the right until the domain ends or an
    event tells the stepping to stop. *)
Definition StepToEnd (fuel : nat) (c : t) : M t :=
  init <- lift (at_ (forward c) (len (forward c) - 1)) ;;
  match forStep c with
  | None => lift Panic
  | Some s =>
    '(_, _, s, fwd) <-
      StepUntil (interp c) (Some (fun p l => l ++ [Point_Clone p])) (evs c)
                fuel s init (forward c) ;;
    ret (withForward c fwd (Some s))
  end.

(** Force the generation of values to the left until the domain ends or an
    event tells the stepping to stop. *)
Definition StepToBeginning (fuel : nat) (c : t) : M t :=
  init <- lift (if (0 <? len (backward c))%Z
                then at_ (backward c) (len (backward c) - 1)
                else at_ (forward c) 0) ;;
  match backStep c with
  | None => lift Panic
  | Some s =>
    '(_, _, s, bwd) <-
      StepUntil (interp c) (Some (fun p l => l ++ [Point_Clone p])) (evs c)
                fuel s init (backward c) ;;
    ret (withBackward c bwd (Some s))
  end.
End CacheSolver.

Definition CacheSolve (m : Method) (ivp : IVP) (interp : Interpolator)
    (evs : list Event) : CacheSolver.t :=
  CacheSolver.mk [] [Point_Clone (Start ivp)]
                 (Some (Backward m ivp)) (Some (Forward m ivp)) evs interp.

(** ** Multistep methods (package mstep) *)

Module Step.
Record t : Type := mk {
  Value : list float;
  Deriv : list float
}.
(** The zero value: both slices nil. *)
Definition zero : t := mk [] [].
End Step.

(** [for i, v := range coef { for j := range result
      { result[j] += scaled(v) * field(steps[i])[j] } }] *)
Definition accumulate (steps : list Step.t) (coef : list float)
    (scaled : float -> float) (field : Step.t -> list float) (result : list float)
  : outcome (list float) :=
  forRange (length coef)
    (fun i result =>
       v <~ load coef i ;;
       forRange (length result)
         (fun j result =>
            modify result j (fun r =>
              st <~ load steps i ;; x <~ load (field st) j ;;
              Ret (r + scaled v * x)))
         result)
    result.

Definition Implicit (steps : list Step.t) (a b : list float) (step : float)
  : outcome (list float) :=
  if (length steps =? 0)%nat then Panic
  else if (length steps <? length a)%nat || (length steps <? length b)%nat then Panic
  else
    first <~ load steps 0 ;;
    let result := make (length (Step.Value first)) in
    result <~ accumulate steps a (fun v => v) Step.Value result ;;
    accumulate steps b (fun v => step * v) Step.Deriv result.

(** [for i := len(steps) - 1; i > 0; i-- { steps[i] = steps[i-1] }] *)
Fixpoint shiftFrom (i : nat) (steps : list Step.t) : outcome (list Step.t) :=
  match i with
  | O => Ret steps
  | S j => x <~ load steps j ;; steps <~ store steps (S j) x ;; shiftFrom j steps
  end.

Definition Shift (steps : list Step.t) : outcome (list Step.t) :=
  shiftFrom (length steps - 1) steps.

Definition adamsBashfordStep (steps : list Step.t) (h : float) : outcome (list float) :=
  Implicit steps [1] [55 / 24; -59 / 24; 37 / 24; -9 / 24] h.

Definition adamsMoultonStep (steps : list Step.t) (h : float) : outcome (list float) :=
  Implicit steps [0; 1] [9 / 24; 19 / 24; -5 / 24; 1 / 24] h.

Module adamsBashfordStepper.
Record t : Type := mk {
  steps : list Step.t;  (* [4]Step *)
  h : float;
  problem : IVP;
  init : nat  (* uint8 *)
}.

(** [s.steps[i].Deriv = d] and [s.steps[i].Value = v]. *)
Definition setDeriv (steps : list Step.t) (i : nat) (d : list float)
  : outcome (list Step.t) :=
  st <~ load steps i ;; store steps i (Step.mk (Step.Value st) d).
Definition setValue (steps : list Step.t) (i : nat) (v : list float)
  : outcome (list Step.t) :=
  st <~ load steps i ;; store steps i (Step.mk v (Step.Deriv st)).

Definition NextStep (h0 : float) (s : t) : M (option Point * t) :=
  if h s =? 0 then ret (None, s) (* Error indicator *)
  else if negb (init s =? 0)%nat then
    '(ivp, deriv, ok) <- RK4Step (problem s) h0 ;;
    if negb ok then ret (None, mk (steps s) (h s) ivp (init s))
    else
      let ivp := setStart ivp (setTime (Start ivp) (Time (Start ivp) + h0)) in
      steps <- lift (setDeriv (steps s) (init s) deriv) ;;
      let init := (init s - 1)%nat in
      steps <- lift (setValue steps init
                       (copy (make (length deriv)) (Value (Start ivp)))) ;;
      ret (Some (Start ivp), mk steps (h s) ivp init)
  else
    '(d, ok) <- callDerivative (problem s) (Start (problem s)) ;;
    steps <- lift (setDeriv (steps s) 0 d) ;;
    if negb ok then ret (None, mk steps 0 (problem s) (init s))
    else
      v <- lift (adamsBashfordStep steps h0) ;;
      let p := mkPoint (Time (Start (problem s)) + h0) v in
      steps <- lift (Shift steps) ;;
      steps <- lift (setValue steps 0 v) ;;
      ret (Some p, mk steps (h s) (setStart (problem s) p) (init s)).

Definition Next (s : t) : M (option Point * t) := NextStep (h s) s.

Definition toStepper (s : t) : Stepper := mkStepper t s Next (Some NextStep).
End adamsBashfordStepper.

Module adamsBashfordMethod.
(** [type adamsBashfordMethod float64] *)
Definition t : Type := float.

Definition withStep (m : t) (h : float) (ivp : IVP) : adamsBashfordStepper.t :=
  let steps := [Step.zero; Step.zero; Step.zero; Step.zero] in
  let steps :=
    match adamsBashfordStepper.setValue steps 3
            (copy (make (length (Value (Start ivp)))) (Value (Start ivp))) with
    | Ret steps => steps
    | _ => steps
    end in
  adamsBashfordStepper.mk steps h (IVP_Clone ivp) 3.

Definition Forward (m : t) (ivp : IVP) : adamsBashfordStepper.t := withStep m m ivp.
Definition Backward (m : t) (ivp : IVP) : adamsBashfordStepper.t := withStep m (- m) ivp.
End adamsBashfordMethod.

Definition AdamsBashford (step : float) : Method :=
  mkMethod
    (fun ivp => adamsBashfordStepper.toStepper (adamsBashfordMethod.Forward step ivp))
    (fun ivp => adamsBashfordStepper.toStepper (adamsBashfordMethod.Backward step ivp)).

(** The claimed acceptance rule of a trial step with error estimate [e]:
    the threshold of the Richardson wrapper, [e <= tol * |h|]. *)
Definition withinScaledTolerance (tol h e : float) : bool := e <=? tol * abs h.

(** A problem whose derivative is [1] at time [0.5] only; the fifth stage of
    a Runge-Kutta-Fehlberg trial of step [0.5] from time [0] lands there. *)
Definition pulse : IVP :=
  mkIVP (fun p => ([if Time p =? 0.5 then 1 else 0], true)) (mkPoint 0 [0]).

(** The pulse problem under [RKFehlberg(0.015, 0.5, 0.001, 1)], forward, and
    the stages of its first trial step. *)
Definition pulseStepper : rkFehlbergStepper.t :=
  rkFehlbergMethod.Forward (RKFehlberg 0.015 0.5 0.001 1) pulse.

Definition pulseStages : rkFehlbergStepper.stages :=
  rkFehlbergStepper.mkStages [0] [0] [0] [0] [0.5] [0].

(** The points of the first [n] calls of [Next] on an Adams-Bashford stepper
    ([None] for a call that did not return a point). *)
Fixpoint adamsBashfordPoints (n : nat) (s : adamsBashfordStepper.t) : list (option Point) :=
  match n with
  | O => []
  | S n =>
    match result (adamsBashfordStepper.Next s) with
    | Ret (p, s) => p :: adamsBashfordPoints n s
    | _ => [None]
    end
  end.

(** The stepper after [n] calls of [Next] that returned. *)
Fixpoint adamsBashfordAfter (n : nat) (s : adamsBashfordStepper.t) : adamsBashfordStepper.t :=
  match n with
  | O => s
  | S n =>
    match result (adamsBashfordStepper.Next s) with
    | Ret (_, s) => adamsBashfordAfter n s
    | _ => s
    end
  end.

(** The fourth-order Adams-Bashforth formula as the specification states it. *)
Definition adamsBashforthFormula (x3 h f3 f2 f1 f0 : float) : float :=
  x3 + h * (55 * f3 - 59 * f2 + 37 * f1 - 9 * f0) / 24.

(** One RK4 step of size [h] from [p] on the derivative of [ivp]: the point
    reached. *)
Definition rk4Point (ivp : IVP) (h : float) (p : Point) : option Point :=
  match result (RK4Step (setStart ivp p) h) with
  | Ret (ivp', _, true) => Some (mkPoint (Time p + h) (Value (Start ivp')))
  | _ => None
  end.

(** ** The step-update rule in the words of the specification *)

(** [q] clamped to [[lo, hi]]. *)
Definition clamp (lo hi q : float) : float :=
  if q <? lo then lo else if hi <? q then hi else q.

(** [x] with its magnitude clamped to [max], sign preserved. *)
Definition saturate (max x : float) : float :=
  if max <? abs x then (if 0 <? x then max else - max) else x.

(** [q = tol*|h| / (2e)] if [k = 1], else [q = (tol*|h| / (2e))^(1/k)],
    clamped to [[0.1, 4]]. *)
Definition updateFactor (Pow : PowFn) (h tol e : float) (k : Z) : float :=
  let ratio := tol * abs h / (2 * e) in
  clamp 0.1 4 (if (k =? 1)%Z then ratio else Pow ratio (1 / float64 k)).

(** Points stored with strictly increasing times. *)
Definition increasing (l : list Point) : Prop :=
  Sorted (fun p q => (Time p <? Time q) = true) l.

(** A dense solution of [x' = 1] with four stored points, at times 0 to 3. *)
Definition denseFour : DenseSolution :=
  mkDenseSolution [mkPoint 0 [0]; mkPoint 1 [1]; mkPoint 2 [2]; mkPoint 3 [3]]
                  LinearInterpolator.

(** A cache over [decayUntil1] with Euler's method of step [0.25], as
    constructed, and after [StepToEnd] has run the forward stepper out of the
    domain: the forward list then holds the points at times 0 to 1. *)
Definition cacheFresh : CacheSolver.t :=
  CacheSolve (Euler 0.25) decayUntil1 LinearInterpolator [].

Definition cacheToEnd : CacheSolver.t :=
  match result (CacheSolver.StepToEnd 10 cacheFresh) with
  | Ret c => c
  | _ => cacheFresh
  end.

(** [t] lies in the stored range: [Start() <= t <= End()]. *)
Definition covered (c : CacheSolver.t) (t : float) : Prop :=
  exists s e, CacheSolver.Start c = Ret s /\ CacheSolver.End c = Ret e
              /\ (s <=? t) = true /\ (t <=? e) = true.

(** ** Two events inside one step

    The problem [x' = 1] through [(t, t)], stepped by Euler's method with
    step 3: forward from time 0 on the domain [t < 3], backward from time 3 on
    the domain [0 < t].  The events cross zero at times 2 and 1, declared in
    that order. *)
Definition riseFrom0 : IVP :=
  mkIVP (fun p => ([1], Time p <? 3)) (mkPoint 0 [0]).
Definition riseFrom3 : IVP :=
  mkIVP (fun p => ([1], 0 <? Time p)) (mkPoint 3 [3]).

Definition crossAt (t0 tolerance : float) : Event :=
  mkEvent (fun p => Time p - t0) tolerance (fun _ => true).

Definition twoEvents (tolerance : float) : list Event :=
  [crossAt 2 tolerance; crossAt 1 tolerance].

(** [StepUntil] with Go's [nil] for what the callback closes over. *)
Definition stepUntilTwoEvents (tolerance : float) (s : Stepper) (init : Point)
    (fuel : nat) : M (nat * bool * Stepper * unit) :=
  StepUntil LinearInterpolator (Some (fun _ u => u)) (twoEvents tolerance) fuel s init tt.

(** The action calls among the calls made: event index and time of the point. *)
Fixpoint actionCalls (l : list call) : list (nat * float) :=
  match l with
  | [] => []
  | CAction i p _ :: r => (i, Time p) :: actionCalls r
  | _ :: r => actionCalls r
  end.

(** One iteration of the bisection loop of [FindPoint]: the point found, or
    the interval the next iteration works on. *)
Definition bisectNext (e : Event) (i : Interpolator) (p1 p2 : Point)
    (downwards : bool) (min max : Point) : outcome (Point + Point * Point) :=
  let t := (Time min + Time max) / 2 in
  v <~ i p1 p2 t ;;
  let mid := mkPoint t v in
  let value := Cross e mid in
  if abs value <? Tolerance e then Ret (inl mid)
  else if downwards then
    if 0 <? value then Ret (inr (mid, max)) else Ret (inr (min, mid))
  else
    if 0 <? value then Ret (inr (min, mid)) else Ret (inr (mid, max)).

(** Bitwise equality of points. *)
Fixpoint sameValues (v w : list float) : bool :=
  match v, w with
  | [], [] => true
  | x :: v, y :: w => Leibniz.eqb x y && sameValues v w
  | _, _ => false
  end.

Definition samePoint (p q : Point) : bool :=
  Leibniz.eqb (Time p) (Time q) && sameValues (Value p) (Value q).

(** Within [k] further iterations the bisection reaches an interval that an
    iteration maps to itself, without having found a point. *)
Fixpoint stalls (k : nat) (e : Event) (i : Interpolator) (p1 p2 : Point)
    (downwards : bool) (min max : Point) : bool :=
  match bisectNext e i p1 p2 downwards min max with
  | Ret (inr (mn, mx)) =>
    if samePoint mn min && samePoint mx max then true
    else match k with
         | O => false
         | S k => stalls k e i p1 p2 downwards mn mx
         end
  | _ => false
  end.


(** ** Further definitions: contracts and examples *)

(** What a fixed-step update function may change of a problem: only the
    contents of [Start.Value], not its length. *)
Definition sameProblem (ivp ivp' : IVP) : Prop :=
  Derivative ivp' = Derivative ivp
  /\ Time (Start ivp') = Time (Start ivp)
  /\ length (Value (Start ivp')) = length (Value (Start ivp)).

(** A problem with an empty domain. *)
Definition nowhere : IVP := mkIVP (fun _ => ([], false)) (mkPoint 0 [1]).

(** [decayUntil1] restarted at the end of its domain. *)
Definition decayAt1 : IVP := setStart decayUntil1 (mkPoint 1 [0.3]).

(** An event at time [t0] whose action stops the stepping. *)
Definition vetoAt (t0 tolerance : float) : Event :=
  mkEvent (fun p => Time p - t0) tolerance (fun _ => false).

(** What the detection loop finds in the forward step from 0 to 3 for
    [twoEvents 0.001], in the order of the events. *)
Definition twoEventActions : requiredActions :=
  match detect 99 LinearInterpolator (twoEvents 0.001) 2
               (mkPoint 0 [0]) (mkPoint 3 [3]) [-2; -1] with
  | Ret (actions, _) => actions
  | _ => []
  end.

(** ** The predictor-corrector stepper (mstep/pc.go) *)

Module pcStepper.
Record t : Type := mk {
  steps : list Step.t;  (* [5]Step *)
  problem : IVP;
  h : float;
  init : nat  (* uint8 *)
}.

Definition NextStep (h0 : float) (s : t) : M (option Point * t) :=
  if h s =? 0 then ret (None, s)
  else if negb (init s =? 0)%nat then
    '(ivp, deriv, ok) <- RK4Step (problem s) h0 ;;
    if negb ok then ret (None, mk (steps s) ivp (h s) (init s))
    else
      let ivp := setStart ivp (setTime (Start ivp) (Time (Start ivp) + h0)) in
      steps <- lift (adamsBashfordStepper.setDeriv (steps s)
                       ((init s + 1) mod 256)%nat deriv) ;;
      steps <- lift (adamsBashfordStepper.setValue steps (init s)
                       (copy (make (length deriv)) (Value (Start ivp)))) ;;
      ret (Some (Start ivp), mk steps ivp (h s) (init s))
  else
    '(d, ok) <- callDerivative (problem s) (Start (problem s)) ;;
    steps <- lift (adamsBashfordStepper.setDeriv (steps s) 1 d) ;;
    if negb ok then ret (None, mk steps (problem s) 0 (init s))
    else
      v <- lift (adamsBashfordStep (skipn 1 steps) h0) ;;
      steps <- lift (adamsBashfordStepper.setValue steps 0 v) ;;
      let start := mkPoint (Time (Start (problem s)) + h0) v in
      let ivp := setStart (problem s) start in
      '(d, ok) <- callDerivative ivp start ;;
      steps <- lift (adamsBashfordStepper.setDeriv steps 0 d) ;;
      if negb ok then
        s1 <- lift (load steps 1) ;;
        let start := mkPoint (Time start - h0) (Step.Value s1) in
        ret (None, mk steps (setStart ivp start) (h s) (init s))
      else
        v <- lift (adamsMoultonStep steps h0) ;;
        steps <- lift (adamsBashfordStepper.setValue steps 0 v) ;;
        let ivp := setStart ivp (setValue start v) in
        steps <- lift (Shift steps) ;;
        steps <- lift (adamsBashfordStepper.setValue steps 0 []) ;;
        steps <- lift (adamsBashfordStepper.setDeriv steps 0 []) ;;
        steps <- lift (adamsBashfordStepper.setDeriv steps 1 []) ;;
        ret (Some (Start ivp), mk steps ivp (h s) (init s)).

Definition Next (s : t) : M (option Point * t) := NextStep (h s) s.

Definition toStepper (s : t) : Stepper := mkStepper t s Next (Some NextStep).
End pcStepper.

Module pcMethod.
(** [type pcMethod float64] *)
Definition t : Type := float.

Definition withStep (m : t) (h : float) (ivp : IVP) : pcStepper.t :=
  let steps := [Step.zero; Step.zero; Step.zero; Step.zero; Step.zero] in
  let steps :=
    match adamsBashfordStepper.setValue steps 4
            (copy (make (length (Value (Start ivp)))) (Value (Start ivp))) with
    | Ret steps => steps
    | _ => steps
    end in
  pcStepper.mk steps (IVP_Clone ivp) h 3.

Definition Forward (m : t) (ivp : IVP) : pcStepper.t := withStep m m ivp.
Definition Backward (m : t) (ivp : IVP) : pcStepper.t := withStep m (- m) ivp.
End pcMethod.

Definition PredictorCorrector (step : float) : Method :=
  mkMethod
    (fun ivp => pcStepper.toStepper (pcMethod.Forward step ivp))
    (fun ivp => pcStepper.toStepper (pcMethod.Backward step ivp)).

(** ** Root finding in one dimension (package mstep) *)

(** [f] and [df] are closures of the caller: they may evaluate the derivative
    of the problem and may panic, so they live in [M]. *)
Fixpoint NewtonRoot1D (fuel : nat) (x0 tolerance : float)
    (f df : float -> M (float * bool)) : M (float * bool) :=
  match fuel with
  | O => lift Spin
  | S fuel =>
    let prev := x0 in
    '(fprev, ok) <- f prev ;;
    if negb ok then ret (0, false)
    else
      '(dfprev, ok) <- df prev ;;
      if negb ok then ret (0, false)
      else
        let off := fprev / dfprev in
        let next := prev - off in
        if abs off <=? tolerance then ret (next, true)
        else NewtonRoot1D fuel next tolerance f df
  end.

(** The loop of [SecantRoot1D]. *)
Fixpoint secantLoop (fuel : nat) (tolerance : float) (f : float -> M (float * bool))
    (prev fprev cur fcur : float) : M (float * bool) :=
  match fuel with
  | O => lift Spin
  | S fuel =>
    let off := fcur * (prev - cur) / (fprev - fcur) in
    let next := cur - off in
    if abs off <=? tolerance then ret (next, true)
    else
      '(fnext, ok) <- f next ;;
      if negb ok then ret (0, false)
      else secantLoop fuel tolerance f cur fcur next fnext
  end.

Definition SecantRoot1D (fuel : nat) (x0 x1 tolerance : float)
    (f : float -> M (float * bool)) : M (float * bool) :=
  let prev := x0 in
  '(fprev, ok) <- f prev ;;
  if negb ok then ret (0, false)
  else
    let cur := x1 in
    '(fcur, ok) <- f cur ;;
    if negb ok then ret (0, false)
    else secantLoop fuel tolerance f prev fprev cur fcur.

(** ** Implicit one-step methods for scalar problems (package mstep) *)

Definition YDerivative : Type := float -> float -> float.

(** [inner(mned.Point{Time: time, Value: []float64{w}})], recorded. *)
Definition callInner (f : Point -> list float * bool) (p : Point)
  : M (list float * bool) :=
  let r := f p in
  emit (CDerivative p (snd r)) ;;; ret r.

Module implicitEulerStepper.
Record t : Type := mk {
  f : Point -> list float * bool;
  dfy : YDerivative;
  step : float;
  tolerance : float;
  current : Point
}.

Definition NextStep (fuel : nat) (h : float) (s : t) : M (option Point * t) :=
  let inner := f s in
  let time := Time (current s) + step s in
  value <- lift (load (Value (current s)) 0) ;;
  let deriv := dfy s in
  let fn := fun w =>
    '(v, oki) <- callInner inner (mkPoint time [w]) ;;
    if oki then v0 <- lift (load v 0) ;; ret (w - value - h * v0, true)
    else ret (0, false) in
  x0 <- lift (load (Value (current s)) 0) ;;
  '(result, ok) <- NewtonRoot1D fuel x0 (tolerance s) fn
                     (fun w => ret (1 - h * deriv time w, true)) ;;
  if negb ok then ret (None, s)
  else
    v <- lift (store (Value (current s)) 0 result) ;;
    let cur := mkPoint (Time (current s) + step s) v in
    ret (Some cur, mk (f s) (dfy s) (step s) (tolerance s) cur).

Definition Next (fuel : nat) (s : t) : M (option Point * t) :=
  NextStep fuel (step s) s.

Definition toStepper (fuel : nat) (s : t) : Stepper :=
  mkStepper t s (Next fuel) (Some (NextStep fuel)).
End implicitEulerStepper.

Module implicitEulerMethod.
Record t : Type := mk {
  dfy : YDerivative;
  h : float;
  tolerance : float
}.

Definition withStep (m : t) (h : float) (ivp : IVP) : implicitEulerStepper.t :=
  implicitEulerStepper.mk (Derivative ivp) (dfy m) h (tolerance m)
                          (Point_Clone (Start ivp)).

Definition Forward (m : t) (ivp : IVP) : implicitEulerStepper.t := withStep m (h m) ivp.
Definition Backward (m : t) (ivp : IVP) : implicitEulerStepper.t :=
  withStep m (- h m) ivp.
End implicitEulerMethod.

Definition ImplicitEuler (fuel : nat) (step tolerance : float) (df : YDerivative)
  : Method :=
  let m := implicitEulerMethod.mk df step tolerance in
  mkMethod
    (fun ivp => implicitEulerStepper.toStepper fuel (implicitEulerMethod.Forward m ivp))
    (fun ivp => implicitEulerStepper.toStepper fuel (implicitEulerMethod.Backward m ivp)).

Module trapeziumStepper.
Record t : Type := mk {
  f : Point -> list float * bool;
  dfy : YDerivative;
  step : float;
  tolerance : float;
  current : Point;
  prevf : float
}.

Definition NextStep (fuel : nat) (h : float) (s : t) : M (option Point * t) :=
  let inner := f s in
  let time := Time (current s) + step s in
  x0 <- lift (load (Value (current s)) 0) ;;
  '(pv, ok) <- callInner (f s) (mkPoint (Time (current s)) [x0]) ;;
  if negb ok then ret (None, s)
  else
    x0 <- lift (load (Value (current s)) 0) ;;
    pv0 <- lift (load pv 0) ;;
    let value := x0 + h / 2 * pv0 in
    let fn := fun w =>
      '(v, oki) <- callInner inner (mkPoint time [w]) ;;
      if oki then v0 <- lift (load v 0) ;; ret (w - value - h / 2 * v0, true)
      else ret (0, false) in
    let deriv := dfy s in
    x0 <- lift (load (Value (current s)) 0) ;;
    '(result, ok) <- NewtonRoot1D fuel x0 (tolerance s) fn
                       (fun w => ret (1 - h / 2 * deriv time w, true)) ;;
    if negb ok then ret (None, s)
    else
      v <- lift (store (Value (current s)) 0 result) ;;
      let cur := mkPoint (Time (current s) + step s) v in
      ret (Some cur, mk (f s) (dfy s) (step s) (tolerance s) cur (prevf s)).

Definition Next (fuel : nat) (s : t) : M (option Point * t) :=
  NextStep fuel (step s) s.

Definition toStepper (fuel : nat) (s : t) : Stepper :=
  mkStepper t s (Next fuel) (Some (NextStep fuel)).
End trapeziumStepper.

Module trapeziumMethod.
Record t : Type := mk {
  dfy : YDerivative;
  h : float;
  tolerance : float
}.

Definition withStep (m : t) (h : float) (ivp : IVP) : trapeziumStepper.t :=
  trapeziumStepper.mk (Derivative ivp) (dfy m) h (tolerance m)
                      (Point_Clone (Start ivp)) 0.

Definition Forward (m : t) (ivp : IVP) : trapeziumStepper.t := withStep m (h m) ivp.
Definition Backward (m : t) (ivp : IVP) : trapeziumStepper.t := withStep m (- h m) ivp.
End trapeziumMethod.

Definition Trapezium (fuel : nat) (step tolerance : float) (df : YDerivative)
  : Method :=
  let m := trapeziumMethod.mk df step tolerance in
  mkMethod
    (fun ivp => trapeziumStepper.toStepper fuel (trapeziumMethod.Forward m ivp))
    (fun ivp => trapeziumStepper.toStepper fuel (trapeziumMethod.Backward m ivp)).


(** The fixed-step RK4 stepper on the problem and with the step of a
    predictor-corrector stepper. *)
Definition rk4Of (s : pcStepper.t) : fixedStepper.t :=
  fixedStepper.mk (pcStepper.problem s) (pcStepper.h s) rk4Step.

(** A predictor-corrector stepper in its start-up phase: not exhausted, with
    RK4 steps still to make ([init] not 0) and its array of five steps. *)
Definition bootstrapping (s : pcStepper.t) : Prop :=
  (pcStepper.h s =? 0) = false
  /\ (0 < pcStepper.init s < 4)%nat
  /\ length (pcStepper.steps s) = 5%nat.


(** The function [x * x - 2] and its derivative, as arguments of the root
    finders. *)
Definition squareMinus2 : float -> M (float * bool) := fun x => ret (x * x - 2, true).
Definition twice : float -> M (float * bool) := fun x => ret (2 * x, true).

(** The derivative in [y] of the right-hand side of [decay]. *)
Definition decayDy : YDerivative := fun _ _ => -1.


(** ** Stepping the cache by a given amount *)

(** [c.forStep.(ConfigurableStepper)] succeeds when the stepper has
    [NextStep]; the type assertion fails on a nil interface, and then, as for
    a plain stepper, the value comes from [Get]. *)
Definition CacheSolver_StepForward (fuel : nat) (c : CacheSolver.t) (h : float)
  : M (option (list float) * bool * CacheSolver.t) :=
  match match CacheSolver.forStep c with
        | Some cs => NextStep cs h
        | None => None
        end with
  | Some step =>
    '(point, cs) <- step ;;
    match point with
    | Some point =>
      let fwd := if 0 <? h then CacheSolver.forward c ++ [Point_Clone point]
                 else CacheSolver.forward c in
      ret (Some (Value point), true, CacheSolver.withForward c fwd (Some cs))
    | None =>
      ret (None, false, CacheSolver.withForward c (CacheSolver.forward c) (Some cs))
    end
  | None =>
    e <- lift (CacheSolver.End c) ;;
    CacheSolver.Get fuel c (e + h)
  end.


(** ** Coordinates for plotting (dense.go) *)

(** [m[j][i] = x] on a slice of slices. *)
Definition store2 (m : list (list float)) (j i : nat) (x : float)
  : outcome (list (list float)) :=
  row <~ load m j ;; row <~ store row i x ;; store m j row.

Definition DenseSolution_PointCoords (d : DenseSolution) : outcome (list (list float)) :=
  first <~ load (points d) 0 ;;
  let size := length (Value first) in
  let result := repeat [] (size + 1) in
  result <~ forRange (length result)
              (fun i result => store result i (make (length (points d))))
              result ;;
  forRange (length (points d))
    (fun i result =>
       p <~ load (points d) i ;;
       result <~ store2 result 0 i (Time p) ;;
       forRange (length (Value p))
         (fun j result => v <~ load (Value p) j ;; store2 result (j + 1) i v)
         result)
    result.

(** Coordinate [a] of a point for plotting: its time, then the components of
    its value, 0 where the value is too short. *)
Definition coord (a : nat) (p : Point) : float :=
  match a with
  | O => Time p
  | S j => nth j (Value p) 0
  end.


(** Backward points at decreasing times, as the invariant of
    [CacheSolver.backward] has them. *)
Definition decreasing (l : list Point) : Prop :=
  Sorted (fun p q => (Time q <? Time p) = true) l.

(** A cache over [x' = 1] from [(0, 0)] with Euler's method of step 1, after
    [Get(-1)] has stored the backward point at time -1. *)
Definition cacheBack1 : CacheSolver.t :=
  match result (CacheSolver.Get 5 (CacheSolve (Euler 1) unitSlope LinearInterpolator [])
                                (-1)) with
  | Ret (_, _, c) => c
  | _ => CacheSolve (Euler 1) unitSlope LinearInterpolator []
  end.


(* ================================================================== *)
(** * Properties *)

(** ** Comparisons of binary64 numbers *)

Section FloatFacts.
Ltac by_spec :=
  rewrite ?FloatAxioms.ltb_spec, ?FloatAxioms.leb_spec, ?FloatAxioms.eqb_spec,
    ?FloatAxioms.abs_spec, ?FloatAxioms.opp_spec;
  unfold SFltb, SFleb, SFeqb.

Lemma SFcompare_refl (x : spec_float) :
  SFcompare x x = None \/ SFcompare x x = Some Eq.
Proof.
  destruct x as [s|s| |s m e]; cbn; auto.
  - destruct s; auto.
  - right. destruct s; rewrite Z.compare_refl, Pos.compare_cont_refl; reflexivity.
Qed.

Lemma SFcompare_antisym (x y : spec_float) :
  SFcompare y x = option_map CompOpp (SFcompare x y).
Proof.
  destruct x as [s|s| |s m e], y as [s'|s'| |s' m' e']; cbn;
    try reflexivity; try (destruct s; reflexivity); try (destruct s'; reflexivity);
    try (destruct s, s'; reflexivity).
  destruct s, s'; try reflexivity;
    rewrite (Z.compare_antisym e e'); destruct (e ?= e')%Z; cbn; try reflexivity;
    rewrite (Pos.compare_cont_antisym m m' Eq); cbn;
    try rewrite CompOpp_involutive; reflexivity.
Qed.

Lemma ltb_irrefl (x : float) : (x <? x) = false.
Proof.
  by_spec. destruct (SFcompare_refl (Prim2SF x)) as [H|H]; rewrite H; reflexivity.
Qed.

Lemma leb_not_gt (x y : float) : (x <=? y) = true -> (y <? x) = false.
Proof.
  by_spec. rewrite (SFcompare_antisym (Prim2SF x) (Prim2SF y)).
  destruct (SFcompare (Prim2SF x) (Prim2SF y)) as [[ | | ]|]; cbn; congruence.
Qed.

Lemma ltb_not_eq (x y : float) : (x <? y) = true -> (y =? x) = false.
Proof.
  by_spec. rewrite (SFcompare_antisym (Prim2SF x) (Prim2SF y)).
  destruct (SFcompare (Prim2SF x) (Prim2SF y)) as [[ | | ]|]; cbn; congruence.
Qed.

Lemma ltb_not_gt (x y : float) : (x <? y) = true -> (y <? x) = false.
Proof.
  by_spec. rewrite (SFcompare_antisym (Prim2SF x) (Prim2SF y)).
  destruct (SFcompare (Prim2SF x) (Prim2SF y)) as [[ | | ]|]; cbn; congruence.
Qed.

(** A negated step lies below every positive minimum step. *)
Lemma negated_step_below_hmin (hmin step : float) :
  (0 <? hmin) = true -> (hmin <=? step) = true -> (hmin <=? - step) = false.
Proof.
  by_spec.
  destruct (Prim2SF hmin) as [ [|] | [|] | | [|] m e ],
           (Prim2SF step) as [ [|] | [|] | | [|] m' e' ];
    cbn; try discriminate; try reflexivity.
Qed.
Lemma ltb_leb (x y : float) : (x <? y) = true -> (x <=? y) = true.
Proof.
  by_spec. destruct (SFcompare (Prim2SF x) (Prim2SF y)) as [[ | | ]|]; congruence.
Qed.

Lemma SFcompare_Lt_trans (x y z : spec_float) :
  SFcompare x y = Some Lt -> SFcompare y z = Some Lt -> SFcompare x z = Some Lt.
Proof.
  destruct x as [s|s| |s m e], y as [s'|s'| |s' m' e'], z as [s''|s''| |s'' m'' e''];
    cbn; try discriminate; try reflexivity;
    try (destruct s; try discriminate; try reflexivity);
    try (destruct s'; try discriminate; try reflexivity);
    try (destruct s''; try discriminate; try reflexivity).
  all: change (Pos.compare_cont Eq) with Pos.compare.
  all: destruct (Z.compare_spec e e'), (Z.compare_spec e' e''), (Z.compare_spec e e'');
    try discriminate; try reflexivity; try lia; subst.
  all: destruct (Pos.compare_spec m m'), (Pos.compare_spec m' m''),
         (Pos.compare_spec m m'');
    cbn; try discriminate; try reflexivity; try lia.
Qed.

Lemma ltb_trans (x y z : float) :
  (x <? y) = true -> (y <? z) = true -> (x <? z) = true.
Proof.
  by_spec. intros H1 H2.
  rewrite (SFcompare_Lt_trans (Prim2SF x) (Prim2SF y) (Prim2SF z)); [reflexivity| |].
  - destruct (SFcompare (Prim2SF x) (Prim2SF y)) as [[ | | ]|]; congruence.
  - destruct (SFcompare (Prim2SF y) (Prim2SF z)) as [[ | | ]|]; congruence.
Qed.

Lemma abs_of_pos (x : float) : (0 <? x) = true -> abs x = x.
Proof.
  intros H. apply Prim2SF_inj. revert H. by_spec.
  change (Prim2SF 0) with (S754_zero false).
  destruct (Prim2SF x) as [s|[|]| |[|] m e]; cbn; try discriminate; reflexivity.
Qed.

(** Neither [max] nor [-max] exceeds a non-negative [max] in magnitude. *)
Lemma abs_within_self (max : float) :
  (0 <=? max) = true -> (max <? abs max) = false /\ (max <? abs (- max)) = false.
Proof.
  by_spec. change (Prim2SF 0) with (S754_zero false).
  destruct (Prim2SF max) as [s|[|]| |[|] m e]; cbn; try discriminate; auto;
    intros _; rewrite ?Z.compare_refl, ?Pos.compare_cont_refl; auto.
Qed.

Lemma opp_nonpos (max : float) : (0 <=? max) = true -> (- max <=? 0) = true.
Proof.
  by_spec. change (Prim2SF 0) with (S754_zero false).
  destruct (Prim2SF max) as [s|[|]| |[|] m e]; cbn; try discriminate; reflexivity.
Qed.

(** Multiplication by one is exact: the product of the mantissas is the
    mantissa shifted by 52 bits, which rounding shifts back. *)
Lemma digits2_pos_shl (m : positive) (k : nat) :
  Zpos (digits2_pos (Nat.iter k xO m)) = (Zpos (digits2_pos m) + Z.of_nat k)%Z.
Proof.
  induction k as [|k IH].
  - cbn. lia.
  - change (Nat.iter (S k) xO m) with (xO (Nat.iter k xO m)).
    cbn [digits2_pos]. rewrite Pos2Z.inj_succ, IH. lia.
Qed.

Lemma SFmul_one_r (x : spec_float) :
  valid_binary x = true ->
  SF64mul x (S754_finite false 4503599627370496 (-52)) = x.
Proof.
  destruct x as [s|s| |s m e]; cbn [valid_binary]; intros Hv;
    try (cbn; rewrite ?xorb_false_r; reflexivity).
  unfold SF64mul, SFmul. rewrite xorb_false_r.
  unfold bounded, canonical_mantissa in Hv.
  apply andb_true_iff in Hv. destruct Hv as [Hc Hb].
  apply Z.eqb_eq in Hc.
  change (fexp prec emax (Z.pos (digits2_pos m) + e)%Z = e) in Hc.
  change ((e <=? emax - prec)%Z = true) in Hb.
  replace (m * 4503599627370496)%positive with (Nat.iter 52 xO m)
    by (rewrite Pos.mul_comm; reflexivity).
  unfold binary_round_aux, shr_fexp.
  cbn [Zdigits2]. rewrite digits2_pos_shl.
  replace (Z.pos (digits2_pos m) + Z.of_nat 52 + (e + -52))%Z
    with (Z.pos (digits2_pos m) + e)%Z by lia.
  rewrite Hc.
  replace (e - (e + -52))%Z with 52%Z by lia.
  cbn [shr shr_record_of_loc].
  change (SpecFloat.iter_pos shr_1 52
            {| shr_m := Z.pos (Nat.iter 52 xO m); shr_r := false; shr_s := false |})
    with {| shr_m := Z.pos m; shr_r := false; shr_s := false |}.
  cbn [shr_m loc_of_shr_record round_nearest_even Zdigits2].
  replace (e + -52 + 52)%Z with e by lia.
  rewrite Hc, Z.sub_diag. cbn [shr shr_m].
  rewrite Hb. reflexivity.
Qed.

Lemma mul_1_r (x : float) : x * 1 = x.
Proof.
  apply Prim2SF_inj. rewrite mul_spec.
  change (Prim2SF 1) with (S754_finite false 4503599627370496 (-52)).
  apply SFmul_one_r. apply Prim2SF_valid.
Qed.
End FloatFacts.

(** ** Running the monad *)

Ltac run :=
  unfold bind, callDerivative, emit, ret, lift, calls, result in *;
  cbn [fst snd app] in *.

Lemma bind_Ret {A B : Type} (l : list call) (a : A) (k : A -> M B) :
  bind (l, Ret a) k = (l ++ fst (k a), snd (k a)).
Proof. reflexivity. Qed.

Lemma bind_lift_Ret {A B : Type} (a : A) (k : A -> M B) :
  bind (lift (Ret a)) k = k a.
Proof. unfold bind, lift. cbn. destruct (k a); reflexivity. Qed.

Lemma bind_ret {A B : Type} (a : A) (k : A -> M B) :
  bind (ret a) k = k a.
Proof. apply bind_lift_Ret. Qed.

(** ** Failure reporting of the fixed-step update functions *)

Lemma eulerStep_reports_failure (ivp : IVP) (h : float) :
  In false (derivativeFlags (calls (eulerStep ivp h))) ->
  result (eulerStep ivp h) = Ret (ivp, false).
Proof.
  unfold eulerStep. run.
  destruct (Derivative ivp (Start ivp)) as [deriv ok]. cbn.
  destruct ok; cbn.
  - destruct (forRange _ _ _); cbn; intros [H|[]]; discriminate.
  - reflexivity.
Qed.

Lemma RK4Step_reports_failure (ivp : IVP) (h : float) :
  In false (derivativeFlags (calls (RK4Step ivp h))) ->
  result (RK4Step ivp h) = Ret (ivp, [], false).
Proof.
  unfold RK4Step. run.
  repeat (match goal with
          | |- context [Derivative ?i ?p] =>
              destruct (Derivative i p) as [? [|]]; cbn; try reflexivity
          | |- context [stagePoint ?a ?b ?c ?d] =>
              destruct (stagePoint a b c d); cbn
          | |- context [forRange ?a ?b ?c] =>
              destruct (forRange a b c); cbn
          end);
    intros H; repeat (destruct H as [H|H]; try discriminate); destruct H.
Qed.

Lemma rk4Step_reports_failure (ivp : IVP) (h : float) :
  In false (derivativeFlags (calls (rk4Step ivp h))) ->
  result (rk4Step ivp h) = Ret (ivp, false).
Proof.
  intros H.
  assert (Hc : In false (derivativeFlags (calls (RK4Step ivp h)))).
  { unfold rk4Step, bind, ret, calls in *.
    destruct (RK4Step ivp h) as [l [[[i k] ok]| |]];
      cbn [fst snd] in *; try rewrite app_nil_r in H; exact H. }
  pose proof (RK4Step_reports_failure ivp h Hc) as Hr.
  unfold rk4Step, bind, ret, result in *. rewrite Hr. reflexivity.
Qed.

(** [modEulerStep] reports a failure of its first evaluation only. *)
Lemma modEulerStep_reports_first_only (ivp : IVP) (h : float) (ivp' : IVP) :
  result (modEulerStep ivp h) = Ret (ivp', false) ->
  snd (Derivative ivp (Start ivp)) = false.
Proof.
  unfold modEulerStep. run.
  destruct (Derivative ivp (Start ivp)) as [deriv [|]]; cbn; [|reflexivity].
  destruct (forRange _ _ _); cbn; try discriminate.
  destruct (Derivative ivp _) as [deriv2 ok2]; cbn.
  destruct (forRange _ _ _); cbn; discriminate.
Qed.

(** C6 (fails for the modified Euler step): at step [1] from time [0], the
    second derivative evaluation of [modEulerStep] leaves the domain of
    [decayUntil1], and the step still returns success; when the derivative
    yields no vector outside its domain, the step panics instead.  In neither
    case is the failure reported as [false]. *)
Theorem modEulerStep_swallows_domain_failure :
  derivativeFlags (calls (modEulerStep decayUntil1 1)) = [true; false]
  /\ result (modEulerStep decayUntil1 1)
     = Ret (setStart decayUntil1 (mkPoint 0 [0.5]), true)
  /\ derivativeFlags (calls (modEulerStep decayUntil1Nil 1)) = [true; false]
  /\ result (modEulerStep decayUntil1Nil 1) = Panic.
Proof. repeat split; reflexivity. Qed.

(** ** Backward steppers of the adaptive methods *)

Lemma adaptiveStepper_settle_own (s : adaptiveStepper.t) (full half : list float) :
  adaptiveStepper.settle s
    (adaptiveStepper.mkFrame adaptiveStepper.Own
       (Value (Start (adaptiveStepper.state s))) full half) = s.
Proof. destruct s as [[d [t v]] ? ? ? ? ? ?]; reflexivity. Qed.

(** The stepper of the Richardson wrapper exhausts at once, making no call at
    all, when its step is below [hmin]. *)
Lemma adaptiveStepper_Next_guard (Pow : PowFn) (fuel : nat) (s : adaptiveStepper.t) :
  (adaptiveStepper.hmin s <=? adaptiveStepper.step s) = false ->
  adaptiveStepper.Next Pow (S fuel) s = ([], Ret (None, s)).
Proof.
  intros H. unfold adaptiveStepper.Next. cbn [adaptiveStepper.loop].
  rewrite H. cbn [negb andb].
  rewrite adaptiveStepper_settle_own. reflexivity.
Qed.

Lemma rkFehlbergStepper_Next_guard (Pow : PowFn) (fuel : nat) (s : rkFehlbergStepper.t) :
  (rkFehlbergStepper.hmin s <=? rkFehlbergStepper.step s) = false ->
  rkFehlbergStepper.Next Pow (S fuel) s = ([], Ret (None, s)).
Proof. intros H. cbn [rkFehlbergStepper.Next]. rewrite H. reflexivity. Qed.

(** C1 (fails): with [0 < Hmin <= Step], the backward stepper of the
    Richardson wrapper and the backward stepper of the Runge-Kutta-Fehlberg
    method both exhaust on their first [Next], whatever the problem: the loop
    guard compares the signed step [-Step] with [Hmin], so no trial step is
    taken and no derivative is evaluated. *)
Theorem Backward_exhausts_at_once
    (Pow : PowFn) (fuel : nat) (ivp : IVP)
    (m : AdaptiveStepMethod.t) (r : rkFehlbergMethod.t) :
  (0 <? AdaptiveStepMethod.Hmin m) = true ->
  (AdaptiveStepMethod.Hmin m <=? AdaptiveStepMethod.Step m) = true ->
  (0 <? rkFehlbergMethod.hmin r) = true ->
  (rkFehlbergMethod.hmin r <=? rkFehlbergMethod.step r) = true ->
  adaptiveStepper.Next Pow (S fuel) (AdaptiveStepMethod.Backward m ivp)
    = ([], Ret (None, AdaptiveStepMethod.Backward m ivp))
  /\ rkFehlbergStepper.Next Pow (S fuel) (rkFehlbergMethod.Backward r ivp)
    = ([], Ret (None, rkFehlbergMethod.Backward r ivp)).
Proof.
  intros Hm1 Hm2 Hr1 Hr2. split.
  - apply adaptiveStepper_Next_guard. cbn.
    apply negated_step_below_hmin; assumption.
  - apply rkFehlbergStepper_Next_guard. cbn.
    apply negated_step_below_hmin; assumption.
Qed.

(** The methods of examples/hooke.go on [x' = -x]: backward, both steppers
    are exhausted by the first call; forward, the same first trial succeeds. *)
Lemma Backward_exhausts_at_once_witness :
  (adaptiveStepper.Next powRoots 1
     (AdaptiveStepMethod.Backward (AdaptiveRK4 0.01 0.01 1e-6 1) decay)
     = ([], Ret (None, AdaptiveStepMethod.Backward (AdaptiveRK4 0.01 0.01 1e-6 1) decay))
   /\ rkFehlbergStepper.Next powRoots 1
        (rkFehlbergMethod.Backward (RKFehlberg 0.01 0.01 1e-6 1) decay)
      = ([], Ret (None, rkFehlbergMethod.Backward (RKFehlberg 0.01 0.01 1e-6 1) decay)))
  /\ match result (adaptiveStepper.Next powRoots 1
                      (AdaptiveStepMethod.Forward (AdaptiveRK4 0.01 0.01 1e-6 1) decay))
     with Ret (Some p, _) => Some (Time p) | _ => None end
     = Some 0.01.
Proof.
  split.
  - apply (Backward_exhausts_at_once powRoots 0 decay
             (AdaptiveRK4 0.01 0.01 1e-6 1) (RKFehlberg 0.01 0.01 1e-6 1));
      reflexivity.
  - vm_compute. reflexivity.
Defined.

(** ** Acceptance of a Runge-Kutta-Fehlberg trial step *)

(** C4 (as stated, fails): the first trial of [pulseStepper] has all six
    stages in the domain and error estimate [0.01], above [tol * |h| = 0.0075];
    the trial is accepted all the same and time advances to [0.5]. *)
Lemma rkFehlberg_accepts_beyond_scaled_tolerance :
  result (rkFehlbergStepper.trial pulseStepper) = Ret (Some pulseStages)
  /\ rkFehlbergStepper.estimate pulseStepper pulseStages = Ret 0.01
  /\ withinScaledTolerance (rkFehlbergStepper.tol pulseStepper)
                           (rkFehlbergStepper.step pulseStepper) 0.01 = false
  /\ match result (rkFehlbergStepper.Next powRoots 1 pulseStepper) with
     | Ret (Some p, _) => Some (Time p)
     | _ => None
     end = Some 0.5.
Proof. repeat split; vm_compute; reflexivity. Qed.

(** C4 (amended): a trial whose six stages stay in the domain, with error
    estimate [e], is accepted exactly when [e > tol] is false, the tolerance
    not being scaled by [|h|].  When [e > tol] the trial is rejected: the
    stepper retries from the same point, time not advanced, with the step
    given by [AdaptiveUpdateStep] for order 4.  Otherwise [Next] returns the
    point at time [t + h], and the same update gives the next step. *)
Theorem rkFehlberg_acceptance_rule
    (Pow : PowFn) (fuel : nat) (s : rkFehlbergStepper.t)
    (l : list call) (k : rkFehlbergStepper.stages) (e : float) :
  (rkFehlbergStepper.hmin s <=? rkFehlbergStepper.step s) = true ->
  rkFehlbergStepper.trial s = (l, Ret (Some k)) ->
  rkFehlbergStepper.estimate s k = Ret e ->
  let h' := AdaptiveUpdateStep Pow (rkFehlbergStepper.step s) (rkFehlbergStepper.tol s)
              e (rkFehlbergStepper.hmax s) 4 in
  let retry := rkFehlbergStepper.withStep s h' in
  ((rkFehlbergStepper.tol s <? e) = true ->
     rkFehlbergStepper.current retry = rkFehlbergStepper.current s
     /\ rkFehlbergStepper.Next Pow (S fuel) s
        = (l ++ calls (rkFehlbergStepper.Next Pow fuel retry),
           result (rkFehlbergStepper.Next Pow fuel retry)))
  /\ ((rkFehlbergStepper.tol s <? e) = false ->
        forall v, rkFehlbergStepper.advance s k = Ret v ->
          let p := mkPoint (Time (rkFehlbergStepper.current s) + rkFehlbergStepper.step s) v in
          rkFehlbergStepper.Next Pow (S fuel) s
          = (l, Ret (Some p,
                     rkFehlbergStepper.mk p (rkFehlbergStepper.deriv s) h'
                       (rkFehlbergStepper.tol s) (rkFehlbergStepper.hmin s)
                       (rkFehlbergStepper.hmax s)))).
Proof.
  intros Hguard Htrial Hest h' retry. split.
  - intros Hrej. split; [reflexivity|].
    cbn [rkFehlbergStepper.Next]. rewrite Hguard. cbn [negb].
    rewrite Htrial. rewrite bind_Ret. cbn [fst snd].
    unfold lift. rewrite Hest. rewrite bind_Ret. cbn [fst snd app].
    rewrite Hrej. reflexivity.
  - intros Hacc v Hv p.
    cbn [rkFehlbergStepper.Next]. rewrite Hguard. cbn [negb].
    rewrite Htrial. rewrite bind_Ret. cbn [fst snd].
    unfold lift. rewrite Hest. rewrite bind_Ret. cbn [fst snd app].
    rewrite Hacc. rewrite Hv. rewrite bind_Ret. cbn. rewrite app_nil_r. reflexivity.
Qed.

Lemma rkFehlberg_acceptance_rule_witness :
  (rkFehlbergStepper.tol pulseStepper <? 0.01) = false
  /\ rkFehlbergStepper.Next powRoots 1 pulseStepper
     = (calls (rkFehlbergStepper.trial pulseStepper),
        Ret (Some (mkPoint (0 + 0.5) [-0.1]),
             rkFehlbergStepper.mk (mkPoint (0 + 0.5) [-0.1])
               (Derivative pulse)
               (AdaptiveUpdateStep powRoots 0.5 0.015 0.01 1 4)
               0.015 0.001 1)).
Proof.
  split; [reflexivity|].
  refine (proj2 (rkFehlberg_acceptance_rule powRoots 0 pulseStepper
                   (calls (rkFehlbergStepper.trial pulseStepper))
                   pulseStages 0.01 _ _ _) _ [-0.1] _);
    vm_compute; reflexivity.
Defined.

(** ** The Adams-Bashford stepper *)

(** C5 (fails on the fourth call): on [x' = 1], [x(0) = 0] with [h = 0.5] the
    first three calls of [Next] are RK4 steps of size [h], each from the point
    before, to [(0.5, 0.5)], [(1, 1)] and [(1.5, 1.5)].  They leave in the
    history the vector [RK4Step] returns, which is [h * f(t, x)] and not
    [f(t, x)]; the fourth call therefore returns
    [x3 + h*(55/24)*f3 + h*(-59/24)*(h*f2) + h*(37/24)*(h*f1) + h*(-9/24)*(h*f0)],
    above [2.3], where the stated formula gives [2]. *)
Theorem AdamsBashford_fourth_step_uses_scaled_history :
  let s := adamsBashfordMethod.Forward 0.5 unitSlope in
  let p0 := Start unitSlope in
  let p1 := mkPoint 0.5 [0.5] in
  let p2 := mkPoint 1 [1] in
  let p3 := mkPoint 1.5 [1.5] in
  let x4 := 0 + 1 * 1.5 + 0.5 * (55 / 24) * 1 + 0.5 * (-59 / 24) * (1 * 0.5)
            + 0.5 * (37 / 24) * (1 * 0.5) + 0.5 * (-9 / 24) * (1 * 0.5) in
  adamsBashfordPoints 4 s = [Some p1; Some p2; Some p3; Some (mkPoint 2 [x4])]
  /\ rk4Point unitSlope 0.5 p0 = Some p1
  /\ rk4Point unitSlope 0.5 p1 = Some p2
  /\ rk4Point unitSlope 0.5 p2 = Some p3
  /\ map Step.Deriv (adamsBashfordStepper.steps (adamsBashfordAfter 3 s))
     = [[]; [0.5]; [0.5]; [0.5]]
  /\ map (fun p => fst (Derivative unitSlope p)) [p3; p2; p1; p0] = [[1]; [1]; [1]; [1]]
  /\ adamsBashforthFormula 1.5 0.5 1 1 1 1 = 2
  /\ (2.3 <? x4) = true.
Proof. repeat split; vm_compute; reflexivity. Qed.

(** ** The step-size update rule *)

Lemma clamp_within (lo hi q : float) :
  (lo <=? hi) = true ->
  (clamp lo hi q <? lo) = false /\ (hi <? clamp lo hi q) = false.
Proof.
  intros H. unfold clamp.
  destruct (q <? lo) eqn:E1.
  - split; [apply ltb_irrefl | apply leb_not_gt; exact H].
  - destruct (hi <? q) eqn:E2.
    + split; [apply leb_not_gt; exact H | apply ltb_irrefl].
    + split; assumption.
Qed.

Lemma saturate_within (max x : float) :
  (0 <=? max) = true ->
  (max <? abs (saturate max x)) = false
  /\ ((0 <? x) = true -> (0 <=? saturate max x) = true)
  /\ ((x <? 0) = true -> (saturate max x <=? 0) = true).
Proof.
  intros H. unfold saturate.
  destruct (abs_within_self max H) as [Ha Hb].
  destruct (max <? abs x) eqn:E.
  - destruct (0 <? x) eqn:P.
    + split; [exact Ha|]. split; [intros _; exact H|].
      intros N. rewrite (ltb_not_gt _ _ N) in P. discriminate.
    + split; [exact Hb|]. split; [discriminate|].
      intros _. apply opp_nonpos. exact H.
  - split; [exact E|]. split; apply ltb_leb.
Qed.

(** C8: [AdaptiveUpdateStep] returns [q * step] saturated to magnitude [max]
    with its sign kept, where [q] is [tol*|step| / (2*err)] for order 1 (the
    fast path) and that ratio to the power [1/order] otherwise, clamped to
    [[0.1, 4]].  The clamp keeps [q] within its bounds and, for [max >= 0],
    the saturation keeps the magnitude within [max] and the sign of a positive
    or negative [q * step].  In particular
    [AdaptiveUpdateStep(1, 0.01, 0.02, 10, 4)] is [math.Pow(0.25, 0.25)], for
    every [math.Pow] whose value there lies between [0.707] and [0.708]. *)
Theorem AdaptiveUpdateStep_rule (Pow : PowFn) :
  (forall step tol err max order,
     AdaptiveUpdateStep Pow step tol err max order
     = saturate max (updateFactor Pow step tol err order * step))
  /\ (forall step tol err, updateFactor Pow step tol err 1
                           = clamp 0.1 4 (tol * abs step / (2 * err)))
  /\ (forall step tol err order,
        (updateFactor Pow step tol err order <? 0.1) = false
        /\ (4 <? updateFactor Pow step tol err order) = false)
  /\ (forall max x, (0 <=? max) = true ->
        (max <? abs (saturate max x)) = false
        /\ ((0 <? x) = true -> (0 <=? saturate max x) = true)
        /\ ((x <? 0) = true -> (saturate max x <=? 0) = true))
  /\ ((0.707 <? Pow 0.25 0.25) = true -> (Pow 0.25 0.25 <? 0.708) = true ->
      AdaptiveUpdateStep Pow 1 0.01 0.02 10 4 = Pow 0.25 0.25).
Proof.
  split; [|split; [|split; [|split]]].
  - reflexivity.
  - reflexivity.
  - intros. apply clamp_within. reflexivity.
  - intros. apply saturate_within. assumption.
  - intros Hlo Hhi.
    assert (Hq1 : (Pow 0.25 0.25 <? 0.1) = false).
    { apply ltb_not_gt. apply (ltb_trans _ 0.707); [reflexivity | exact Hlo]. }
    assert (Hq2 : (4 <? Pow 0.25 0.25) = false).
    { apply ltb_not_gt. apply (ltb_trans _ 0.708); [exact Hhi | reflexivity]. }
    assert (Hpos : (0 <? Pow 0.25 0.25) = true).
    { apply (ltb_trans _ 0.707); [reflexivity | exact Hlo]. }
    assert (Hq3 : (10 <? Pow 0.25 0.25) = false).
    { apply ltb_not_gt. apply (ltb_trans _ 0.708); [exact Hhi | reflexivity]. }
    unfold AdaptiveUpdateStep.
    change (0.01 * abs 1 / (2 * 0.02)) with 0.25.
    change (1 / float64 4) with 0.25.
    change (4 =? 1)%Z with false. cbv iota.
    rewrite Hq1, Hq2, mul_1_r, (abs_of_pos _ Hpos), Hq3. reflexivity.
Qed.

(** With square roots for [math.Pow], the update of the specification's
    example is [0.7071067811865476]. *)
Lemma AdaptiveUpdateStep_rule_witness :
  (0.707 <? powRoots 0.25 0.25) = true
  /\ (powRoots 0.25 0.25 <? 0.708) = true
  /\ AdaptiveUpdateStep powRoots 1 0.01 0.02 10 4 = powRoots 0.25 0.25
  /\ powRoots 0.25 0.25 = 0.7071067811865476.
Proof.
  split; [reflexivity|]. split; [reflexivity|]. split; [|reflexivity].
  apply (proj2 (proj2 (proj2 (proj2 (AdaptiveUpdateStep_rule powRoots)))));
    reflexivity.
Defined.

(** ** Queries of a dense solution *)

Lemma increasing_strongly (l : list Point) :
  increasing l -> StronglySorted (fun p q => (Time p <? Time q) = true) l.
Proof.
  apply Sorted_StronglySorted. intros x y z. apply ltb_trans.
Qed.

Lemma StronglySorted_nth_error {A : Type} (R : A -> A -> Prop) (l : list A) :
  StronglySorted R l ->
  forall i j a b, (i < j)%nat ->
    nth_error l i = Some a -> nth_error l j = Some b -> R a b.
Proof.
  induction 1 as [|x l Hs IH Hall]; intros i j a b Hij Hi Hj.
  - destruct i; discriminate.
  - destruct j as [|j]; [lia|]. cbn in Hj.
    destruct i as [|i]; cbn in Hi.
    + injection Hi as <-. rewrite Forall_forall in Hall.
      apply Hall. eapply nth_error_In; eassumption.
    + apply (IH i j); [lia|assumption|assumption].
Qed.

Lemma at_in_range (l : list Point) (k : Z) :
  (0 <= k < len l)%Z -> exists p, nth_error l (Z.to_nat k) = Some p /\ at_ l k = Ret p.
Proof.
  intros [H0 H1]. unfold at_, load, len in *.
  destruct (k <? 0)%Z eqn:E; [lia|].
  destruct (nth_error l (Z.to_nat k)) as [p|] eqn:N.
  - exists p. split; reflexivity.
  - apply nth_error_None in N. lia.
Qed.

(** Below the last point, with at least two points in between, [search]
    keeps calling itself on an interval that ends at the last point. *)
Lemma search_last_spins (d : DenseSolution) (last : Point) :
  increasing (points d) ->
  (4 <= length (points d))%nat ->
  nth_error (points d) (length (points d) - 1) = Some last ->
  forall fuel min, (0 <= min <= len (points d) - 3)%Z ->
    search fuel d (Time last) min (len (points d) - 1) = Spin.
Proof.
  intros Hinc Hlen Hlast. apply increasing_strongly in Hinc.
  induction fuel as [|fuel IH]; intros min Hmin; [reflexivity|].
  cbn [search].
  destruct (min =? len (points d) - 1)%Z eqn:E1; [lia|].
  destruct (len (points d) - 1 - min =? 1)%Z eqn:E2; [lia|].
  set (mid := Z.quot (len (points d) - 1 - min) 2).
  assert (Hmid : (1 <= mid <= len (points d) - 3)%Z).
  { unfold mid. rewrite Z.quot_div_nonneg by lia.
    split.
    - apply Z.div_le_lower_bound; lia.
    - assert ((len (points d) - 1 - min) / 2 < len (points d) - 2)%Z; [|lia].
      apply Z.div_lt_upper_bound; unfold len in *; lia. }
  destruct (at_in_range (points d) mid) as [m [Hn Hm]]; [lia|].
  rewrite Hm. cbn [obind].
  assert (Hlt : (Time m <? Time last) = true).
  { apply (StronglySorted_nth_error _ _ Hinc (Z.to_nat mid) (length (points d) - 1));
      try assumption. unfold len in *. lia. }
  rewrite (ltb_not_eq _ _ Hlt), Hlt.
  apply IH. lia.
Qed.

(** C3 (fails): in a dense solution with at least four stored points, at
    strictly increasing times, [Get] at the time of the last stored point
    never returns: [search] computes [mid] as [(max - min) / 2] without adding
    [min], and recurs for ever. *)
Theorem DenseSolution_Get_last_never_returns
    (d : DenseSolution) (last : Point) (fuel : nat) :
  increasing (points d) ->
  (4 <= length (points d))%nat ->
  nth_error (points d) (length (points d) - 1) = Some last ->
  DenseSolution_Get fuel d (Time last) = Spin.
Proof.
  intros Hinc Hlen Hlast. unfold DenseSolution_Get, DenseSolution_Start, DenseSolution_End.
  destruct (at_in_range (points d) 0) as [p0 [Hn0 Hp0]]; [unfold len; lia|].
  destruct (at_in_range (points d) (len (points d) - 1)) as [pl [Hnl Hpl]];
    [unfold len; lia|].
  replace (Z.to_nat (len (points d) - 1)) with (length (points d) - 1)%nat in Hnl
    by (unfold len; lia).
  rewrite Hlast in Hnl. injection Hnl as <-.
  rewrite Hp0, Hpl. cbn [obind].
  assert (H0 : (Time p0 <? Time last) = true).
  { apply (StronglySorted_nth_error _ _ (increasing_strongly _ Hinc)
             (Z.to_nat 0) (length (points d) - 1)); try assumption. cbn. lia. }
  rewrite (ltb_not_gt _ _ H0), ltb_irrefl.
  rewrite (search_last_spins d last Hinc Hlen Hlast); [reflexivity|].
  unfold len. lia.
Qed.

(** Four points at times 0, 1, 2, 3: [Get(3)] does not return, while the
    first point is found. *)
Lemma DenseSolution_Get_last_never_returns_witness :
  DenseSolution_Get 1000 denseFour 3 = Spin
  /\ DenseSolution_Get 1000 denseFour 0 = Ret ([0], true).
Proof.
  split.
  - apply (DenseSolution_Get_last_never_returns denseFour (mkPoint 3 [3]) 1000).
    + repeat constructor.
    + cbn. lia.
    + reflexivity.
  - vm_compute. reflexivity.
Defined.

(** ** The reversal loop *)

Lemma reverseLoop_panics {A : Type} (a : list A) :
  (2 <= length a)%nat -> reverseLoop a = Panic.
Proof.
  intros H. unfold reverseLoop, forRange.
  destruct (length a / 2)%nat as [|k] eqn:E.
  - apply Nat.div_small_iff in E; lia.
  - cbn [forRangeFrom]. rewrite Nat.sub_0_r. unfold load.
    replace (nth_error a (length a)) with (@None A); [reflexivity|].
    symmetry. apply nth_error_None. lia.
Qed.

Lemma reverseLoop_short {A : Type} (a : list A) :
  (length a < 2)%nat -> reverseLoop a = Ret a.
Proof.
  intros H. unfold reverseLoop, forRange.
  rewrite (proj2 (Nat.div_small_iff (length a) 2 ltac:(lia))) by exact H.
  reflexivity.
Qed.

(** ** The dense eager solver *)

(** C9 (fails): when the backward stepper has left two or more points to
    reverse, [DenseSolve] does not return a solution at all: the reversal loop
    reads [points[size]], one past the end, and panics. *)
Theorem DenseSolve_panics_on_two_backward_points
    (method : Method) (ivp : IVP) (start end_ : float) (interp0 : Interpolator)
    (fuel : nat) (l : list call) (pts : list Point) (pendingAddInitial : bool) :
  leftPart method ivp start end_ fuel = (l, Ret (Some (pts, pendingAddInitial))) ->
  (2 <= length pts)%nat ->
  DenseSolve method ivp start end_ interp0 fuel = (l, Panic).
Proof.
  intros Hleft Hlen. unfold DenseSolve.
  rewrite Hleft, bind_Ret. cbn [fst snd].
  rewrite (reverseLoop_panics pts Hlen). unfold bind, lift. cbn [fst snd].
  rewrite app_nil_r. reflexivity.
Qed.

(** Euler's method with step 1 on [x' = 1] from [(0, 0)], solved on
    [[-2, 0]]: the backward points at times -1 and -2 are collected and the
    solver panics; on [[-1, 2]], with one backward point, it returns the
    points at times -1, 0, 1, 2. *)
Lemma DenseSolve_panics_on_two_backward_points_witness :
  result (leftPart (Euler 1) unitSlope (-2) 0 10)
    = Ret (Some ([mkPoint (-1) [-1]; mkPoint (-2) [-2]], true))
  /\ result (DenseSolve (Euler 1) unitSlope (-2) 0 LinearInterpolator 10) = Panic
  /\ match result (DenseSolve (Euler 1) unitSlope (-1) 2 LinearInterpolator 10) with
     | Ret (d, ok) => Some (map Time (points d), ok)
     | _ => None
     end = Some ([-1; 0; 1; 2], true).
Proof.
  split; [reflexivity|]. split; [|reflexivity].
  rewrite (DenseSolve_panics_on_two_backward_points (Euler 1) unitSlope (-2) 0
             LinearInterpolator 10
             (calls (leftPart (Euler 1) unitSlope (-2) 0 10))
             [mkPoint (-1) [-1]; mkPoint (-2) [-2]] true).
  - reflexivity.
  - reflexivity.
  - cbn. lia.
Defined.

(** ** The cached solution *)

(** C10 (fails): on a freshly constructed [CacheSolver], [Get] at the initial
    time panics, whatever the method, problem, interpolator and events: the
    forward list holds the initial point only and the lookup starts by reading
    [c.forward[1]]. *)
Theorem CacheSolver_Get_initial_time_panics
    (m : Method) (ivp : IVP) (interp0 : Interpolator) (evs : list Event) (fuel : nat) :
  CacheSolver.Get fuel (CacheSolve m ivp interp0 evs) (Time (Start ivp)) = ([], Panic).
Proof.
  unfold CacheSolver.Get, CacheSolve, CacheSolver.Start, CacheSolver.End,
    CacheSolver.lookup.
  cbn. repeat (rewrite ltb_irrefl; cbn).
  destruct (Time (Start ivp) <=? Time (Start ivp)); reflexivity.
Qed.

(** The scan of [Get] stops at the first stored point that is not before [t]. *)
Lemma scan_stops (t : float) (rest : list Point) (i : nat) (p : Point) :
  In p rest -> (Time p <? t) = false ->
  exists j hi,
    CacheSolver.scan t rest i = Ret (i + j)%nat
    /\ nth_error rest j = Some hi /\ (Time hi <? t) = false
    /\ forall k q, (k < j)%nat -> nth_error rest k = Some q -> (Time q <? t) = true.
Proof.
  revert i. induction rest as [|q rest IH]; intros i Hin Hp; [destruct Hin|].
  cbn [CacheSolver.scan]. destruct (Time q <? t) eqn:E.
  - destruct Hin as [->|Hin]; [congruence|].
    destruct (IH (S i) Hin Hp) as (j & hi & Hs & Hn & Hh & Hb).
    exists (S j), hi. repeat split; try assumption.
    + rewrite Hs. f_equal. lia.
    + intros [|k] q' Hk Hq; cbn in Hq; [congruence|].
      apply (Hb k); [lia|exact Hq].
  - exists 0%nat, q. repeat split; try assumption.
    + f_equal. lia.
    + intros k q' Hk. lia.
Qed.

(** X19: at or after the initial time, with a forward list of two points or
    more, the lookup interpolates between two neighbours of the forward list that
    bracket [t]. *)
Lemma CacheSolver_lookup_forward_brackets
    (c : CacheSolver.t) (t e : float) (f0 : Point) (rest : list Point) :
  CacheSolver.forward c = f0 :: rest -> rest <> [] ->
  CacheSolver.End c = Ret e ->
  (Time f0 <=? t) = true -> (t <=? e) = true ->
  exists i lo hi,
    nth_error (CacheSolver.forward c) i = Some lo
    /\ nth_error (CacheSolver.forward c) (S i) = Some hi
    /\ (i = 0%nat \/ (Time lo <? t) = true)
    /\ (Time hi <? t) = false
    /\ CacheSolver.lookup c t = CacheSolver.interp c lo hi t.
Proof.
  intros Hf Hrest He H0 Ht.
  assert (Hlast : exists p, In p rest /\ Time p = e).
  { unfold CacheSolver.End, at_, load, len in He. rewrite Hf in He.
    cbn [length] in He.
    destruct (Z.of_nat (S (length rest)) - 1 <? 0)%Z; [discriminate|].
    replace (Z.to_nat (Z.of_nat (S (length rest)) - 1)) with (S (length rest - 1))
      in He by (destruct rest; [congruence|cbn [length]; lia]).
    cbn [nth_error] in He.
    destruct (nth_error rest (length rest - 1)) as [p|] eqn:N; [|discriminate].
    exists p. split; [eapply nth_error_In; exact N|].
    cbn in He. congruence. }
  destruct Hlast as (p & Hin & Hp).
  destruct (scan_stops t rest 1 p Hin) as (j & hi & Hs & Hn & Hh & Hb).
  { rewrite Hp. apply leb_not_gt. exact Ht. }
  unfold CacheSolver.lookup. rewrite Hf. cbn [load nth_error obind skipn].
  rewrite H0, Hs. cbn [obind].
  replace (1 + j - 1)%nat with j by lia.
  unfold load. cbn [Nat.add].
  change (nth_error (f0 :: rest) (S j)) with (nth_error rest j).
  rewrite Hn.
  destruct j as [|j].
  - exists 0%nat, f0, hi. cbn [nth_error obind]. repeat split; auto.
  - change (nth_error (f0 :: rest) (S j)) with (nth_error rest j).
    destruct (nth_error rest j) as [lo|] eqn:Nlo.
    + exists (S j), lo, hi.
      change (nth_error (f0 :: rest) (S j)) with (nth_error rest j).
      change (nth_error (f0 :: rest) (S (S j))) with (nth_error rest (S j)).
      rewrite Nlo. cbn [obind]. repeat split; auto.
      right. apply (Hb j); [lia|exact Nlo].
    + apply nth_error_None in Nlo.
      assert (H : nth_error rest (S j) <> None) by congruence.
      apply nth_error_Some in H. lia.
Qed.

(** X31: for a time [t] within the stored range, [Get(t)] makes no call at
    all, so neither stepper is invoked: it is the lookup in the stored lists.
    When it returns, the solver it leaves is the solver it found, so that a
    second [Get(t)] returns the identical value. *)
Theorem CacheSolver_Get_covered_idempotent
    (fuel : nat) (c : CacheSolver.t) (t : float) :
  covered c t ->
  CacheSolver.Get fuel c t
    = lift (x <~ CacheSolver.lookup c t ;; Ret (Some x, true, c))
  /\ forall x ok c',
       result (CacheSolver.Get fuel c t) = Ret (x, ok, c') ->
       c' = c /\ ok = true /\ CacheSolver.Get fuel c' t = ([], Ret (x, ok, c')).
Proof.
  intros (s & e & Hs & He & Hlo & Hhi).
  assert (Hget : CacheSolver.Get fuel c t
                 = lift (x <~ CacheSolver.lookup c t ;; Ret (Some x, true, c))).
  { unfold CacheSolver.Get. rewrite Hs, bind_lift_Ret.
    rewrite (leb_not_gt _ _ Hlo), bind_ret. cbn [negb].
    rewrite He, bind_lift_Ret.
    rewrite (leb_not_gt _ _ Hhi), bind_ret. cbn [negb].
    unfold bind, lift, ret. cbn [fst snd].
    destruct (CacheSolver.lookup c t); reflexivity. }
  split; [exact Hget|].
  intros x ok c' Hr. rewrite Hget in Hr. unfold result, lift in Hr. cbn in Hr.
  destruct (CacheSolver.lookup c t) as [v| |] eqn:El; cbn in Hr; try discriminate.
  injection Hr as Hx Hok Hc. subst x ok c'.
  split; [reflexivity|]. split; [reflexivity|].
  rewrite Hget. reflexivity.
Qed.

(** The cache run to the end of the domain, asked twice at [t = 0.6]
    inside its range [[0, 1]]. *)
Lemma CacheSolver_Get_covered_idempotent_witness :
  map Time (CacheSolver.forward cacheToEnd) = [0; 0.25; 0.5; 0.75; 1]
  /\ CacheSolver.Get 10 cacheToEnd 0.6
     = ([], Ret (Some [0.5625 * (1 - (0.6 - 0.5) / (0.75 - 0.5))
                       + 0.421875 * ((0.6 - 0.5) / (0.75 - 0.5))], true, cacheToEnd))
  /\ (forall x ok c',
        result (CacheSolver.Get 10 cacheToEnd 0.6) = Ret (x, ok, c') ->
        c' = cacheToEnd /\ ok = true
        /\ CacheSolver.Get 10 c' 0.6 = ([], Ret (x, ok, c'))).
Proof.
  split; [reflexivity|].
  assert (Hc : covered cacheToEnd 0.6).
  { exists 0, 1. repeat split; reflexivity. }
  destruct (CacheSolver_Get_covered_idempotent 10 cacheToEnd 0.6 Hc) as [H1 H2].
  split; [|exact H2].
  rewrite H1. reflexivity.
Defined.

(** ** Localization and dispatch of events *)

Lemma sameValues_eq (v w : list float) : sameValues v w = true -> v = w.
Proof.
  revert w. induction v as [|x v IH]; intros [|y w] H; try discriminate; [reflexivity|].
  cbn in H. apply andb_true_iff in H. destruct H as [H1 H2].
  apply Leibniz.eqb_spec in H1. rewrite H1, (IH w H2). reflexivity.
Qed.

Lemma samePoint_eq (p q : Point) : samePoint p q = true -> p = q.
Proof.
  destruct p as [t v], q as [t' v']. unfold samePoint. cbn. intros H.
  apply andb_true_iff in H. destruct H as [H1 H2].
  apply Leibniz.eqb_spec in H1. apply sameValues_eq in H2. congruence.
Qed.

Lemma bisect_step (fuel : nat) (e : Event) (i : Interpolator) (p1 p2 : Point)
    (downwards : bool) (min max : Point) :
  bisect (S fuel) e i p1 p2 downwards min max
  = match bisectNext e i p1 p2 downwards min max with
    | Ret (inl p) => Ret p
    | Ret (inr (mn, mx)) => bisect fuel e i p1 p2 downwards mn mx
    | Panic => Panic
    | Spin => Spin
    end.
Proof.
  cbn [bisect]. unfold bisectNext.
  destruct (i p1 p2 _); cbn [obind]; try reflexivity.
  destruct (abs _ <? _); [reflexivity|].
  destruct downwards, (0 <? _); reflexivity.
Qed.

Lemma bisect_fixed_interval (e : Event) (i : Interpolator) (p1 p2 : Point)
    (downwards : bool) (min max : Point) :
  bisectNext e i p1 p2 downwards min max = Ret (inr (min, max)) ->
  forall fuel, bisect fuel e i p1 p2 downwards min max = Spin.
Proof.
  intros H. induction fuel as [|fuel IH]; [reflexivity|].
  rewrite bisect_step, H. exact IH.
Qed.

Lemma stalls_sound (k : nat) (e : Event) (i : Interpolator) (p1 p2 : Point)
    (downwards : bool) :
  forall min max, stalls k e i p1 p2 downwards min max = true ->
  forall fuel, bisect fuel e i p1 p2 downwards min max = Spin.
Proof.
  induction k as [|k IH]; intros min max H fuel; cbn [stalls] in H;
    destruct (bisectNext e i p1 p2 downwards min max) as [[p|[mn mx]]| |] eqn:E;
    try discriminate;
    destruct (samePoint mn min && samePoint mx max) eqn:S; try discriminate.
  - apply andb_true_iff in S. destruct S as [S1 S2].
    apply samePoint_eq in S1, S2. subst mn mx.
    apply bisect_fixed_interval. exact E.
  - apply andb_true_iff in S. destruct S as [S1 S2].
    apply samePoint_eq in S1, S2. subst mn mx.
    apply bisect_fixed_interval. exact E.
  - destruct fuel as [|fuel]; [reflexivity|].
    rewrite bisect_step, E. apply IH. exact H.
Qed.

(** Stepping backward from time 3 to time 0, the bisection for a crossing at
    time 1 or 2 moves away from the crossing and never finds it. *)
Lemma FindPoint_backward_never_returns (fuel : nat) :
  FindPoint fuel (crossAt 2 0.001) LinearInterpolator (mkPoint 3 [3]) (mkPoint 0 [0]) = Spin
  /\ FindPoint fuel (crossAt 1 0.001) LinearInterpolator (mkPoint 3 [3]) (mkPoint 0 [0]) = Spin.
Proof.
  split; unfold FindPoint;
    match goal with
    | |- (let '(_, _) := ?c in _) = _ =>
        change c with (mkPoint 0 [0], mkPoint 3 [3])
    end; cbv iota;
    apply (stalls_sound 1200); vm_compute; reflexivity.
Qed.

Lemma sink_length (x : requiredAction) (l : list requiredAction) :
  length (sink x l) = S (length l).
Proof.
  induction l as [|y l IH]; [reflexivity|].
  cbn [sink]. destruct (Less x y); cbn [length]; [rewrite IH|]; reflexivity.
Qed.

Lemma Sort_length (l : requiredActions) : length (Sort l) = length l.
Proof.
  unfold Sort. rewrite length_rev.
  assert (H : forall acc, length (fold_left (fun acc x => sink x acc) l acc)
                          = (length l + length acc)%nat).
  { induction l as [|x l IH]; intros acc; [reflexivity|].
    cbn [fold_left]. rewrite IH, sink_length. cbn [length]. lia. }
  rewrite H. cbn [length]. lia.
Qed.

(** A backward step in which two or more events were localized panics in the
    reversal loop, before any action is invoked. *)
Lemma stepUntilLoop_backward_panics {U : Type}
    (interp0 : Interpolator) (callback : option (Point -> U -> U)) (evs : list Event)
    (fuel : nat) (s s' : Stepper) (prev point : Point) (vs vs' : list float) (u : U)
    (l : list call) (actions : requiredActions) :
  Next s = (l, Ret (Some point, s')) ->
  (Time point <? Time prev) = true ->
  detect fuel interp0 evs (length evs) prev point vs = Ret (actions, vs') ->
  (2 <= length actions)%nat ->
  stepUntilLoop interp0 callback evs (S fuel) s prev vs u = (l, Panic).
Proof.
  intros HN Hback Hdet Hlen. cbn [stepUntilLoop].
  rewrite HN, bind_Ret. cbn [fst snd].
  rewrite Hdet, bind_lift_Ret, Hback.
  rewrite reverseLoop_panics by (rewrite Sort_length; exact Hlen).
  unfold bind, lift. cbn [fst snd]. rewrite app_nil_r. reflexivity.
Qed.






(** The actions are invoked in the order of the list, up to the first veto. *)
Lemma dispatch_in_order (evs : list Event) (l : requiredActions) :
  exists rest,
    map (fun a => (index a, Time (point a))) l
    = actionCalls (calls (dispatch evs l)) ++ rest.
Proof.
  induction l as [|a l [rest IH]]; [exists []; reflexivity|].
  cbn [dispatch map]. unfold callAction, bind, lift, emit, ret, calls, load.
  destruct (nth_error evs (index a)) as [e|]; cbn.
  - destruct (Action e (point a)); cbn.
    + exists rest. rewrite IH. reflexivity.
    + exists (map (fun a => (index a, Time (point a))) l). reflexivity.
  - exists ((index a, Time (point a)) :: map (fun a => (index a, Time (point a))) l).
    reflexivity.
Qed.


(** C2 (fails for backward steps).  Forward, with crossings at times 2 and 1
    declared in that order inside the step from 0 to 3, both are localized and
    the action of the crossing at 1 runs before that of the crossing at 2.
    Backward over the same interval neither action ever runs: in general, a
    backward step with two or more localized events panics in the reversal
    loop, which reads [actions[size]]; here that happens with tolerance
    [0.75], where both bisections stop at their first midpoint, while with
    tolerance [0.001] the bisection of the first event never returns. *)
Theorem StepUntil_backward_dispatch_fails :
  (forall (U : Type) (interp0 : Interpolator) (callback : option (Point -> U -> U))
          (evs : list Event) (fuel : nat) (s s' : Stepper) (prev point : Point)
          (vs vs' : list float) (u : U) (l : list call) (actions : requiredActions),
      Next s = (l, Ret (Some point, s')) ->
      (Time point <? Time prev) = true ->
      detect fuel interp0 evs (length evs) prev point vs = Ret (actions, vs') ->
      (2 <= length actions)%nat ->
      stepUntilLoop interp0 callback evs (S fuel) s prev vs u = (l, Panic))
  /\ actionCalls (calls (stepUntilTwoEvents 0.001 (Forward (Euler 3) riseFrom0)
                           (Start riseFrom0) 100))
     = [(1%nat, 0.9990234375); (0%nat, 2.0009765625)]
  /\ stepUntilTwoEvents 0.75 (Backward (Euler 3) riseFrom3) (Start riseFrom3) 100
     = ([CNext; CDerivative (mkPoint 3 [3]) true], Panic)
  /\ (forall fuel,
        stepUntilTwoEvents 0.001 (Backward (Euler 3) riseFrom3) (Start riseFrom3) (S fuel)
        = ([CNext; CDerivative (mkPoint 3 [3]) true], Spin)).
Proof.
  split; [|split; [|split]].
  - intros. eapply stepUntilLoop_backward_panics; eassumption.
  - vm_compute. reflexivity.
  - vm_compute. reflexivity.
  - intros fuel. unfold stepUntilTwoEvents, StepUntil. cbn [stepUntilLoop].
    match goal with
    | |- bind (Next ?s) _ = _ =>
        change (Next s) with
          ([CNext; CDerivative (mkPoint 3 [3]) true],
           Ret (Some (mkPoint 0 [0]),
                withState s (fixedStepper.mk
                               (setStart riseFrom3 (mkPoint 0 [0])) (-3) eulerStep)))
    end.
    rewrite bind_Ret. cbn [fst snd].
    unfold detect, forRange, twoEvents. cbn [length forRangeFrom].
    cbn [load nth_error obind map].
    change (differentSign (Cross (crossAt 2 0.001) (Start riseFrom3))
              (Cross (crossAt 2 0.001) (mkPoint 0 [0]))) with true.
    cbv iota.
    change (Start riseFrom3) with (mkPoint 3 [3]).
    rewrite (proj1 (FindPoint_backward_never_returns fuel)).
    reflexivity.
Qed.

Lemma StepUntil_backward_dispatch_fails_witness :
  (Time (mkPoint 0 [0]) <? Time (Start riseFrom3)) = true
  /\ stepUntilTwoEvents 0.75 (Backward (Euler 3) riseFrom3) (Start riseFrom3) 100
     = ([CNext; CDerivative (mkPoint 3 [3]) true], Panic).
Proof.
  split; [reflexivity|].
  unfold stepUntilTwoEvents, StepUntil.
  apply (proj1 StepUntil_backward_dispatch_fails unit LinearInterpolator
           (Some (fun _ u => u)) (twoEvents 0.75) 99%nat
           (Backward (Euler 3) riseFrom3)
           (withState (Backward (Euler 3) riseFrom3)
              (fixedStepper.mk (setStart riseFrom3 (mkPoint 0 [0])) (-3) eulerStep))
           (Start riseFrom3) (mkPoint 0 [0])
           (map (fun e => Cross e (Start riseFrom3)) (twoEvents 0.75)) [-2; -1] tt
           [CNext; CDerivative (mkPoint 3 [3]) true]
           [mkRequiredAction 0 (mkPoint 1.5 [1.5]);
            mkRequiredAction 1 (mkPoint 1.5 [1.5])]).
  - reflexivity.
  - reflexivity.
  - vm_compute. reflexivity.
  - cbn. lia.
Defined.

(* ================================================================== *)
(** * Further properties of the code *)

(** ** Loops over slices *)

Lemma store_length {A : Type} (v : list A) (i : nat) (x : A) (v' : list A) :
  store v i x = Ret v' -> length v' = length v.
Proof.
  revert i v'. induction v as [|y v IH]; intros i v' H; [discriminate|].
  destruct i as [|i]; cbn [store] in H.
  - injection H as <-. reflexivity.
  - destruct (store v i x) as [r| |] eqn:E; try discriminate.
    cbn in H. injection H as <-. cbn [length]. rewrite (IH i r E). reflexivity.
Qed.

Lemma store_in_range {A : Type} (v : list A) (i : nat) (x : A) :
  (i < length v)%nat -> exists v', store v i x = Ret v'.
Proof.
  revert i. induction v as [|y v IH]; intros i H; [cbn in H; lia|].
  destruct i as [|i]; cbn [store].
  - eexists. reflexivity.
  - destruct (IH i) as [r Hr]; [cbn in H; lia|]. rewrite Hr. eexists. reflexivity.
Qed.

Lemma modify_length (v : list float) (i : nat) (f : float -> outcome float)
    (v' : list float) :
  modify v i f = Ret v' -> length v' = length v.
Proof.
  unfold modify. destruct (load v i); try discriminate. cbn [obind].
  destruct (f a); try discriminate. cbn [obind]. apply store_length.
Qed.

(** A loop keeps what each of its iterations keeps. *)
Lemma forRangeFrom_keeps {T : Type} (P : T -> Prop) (body : nat -> T -> outcome T) :
  (forall i s s', P s -> body i s = Ret s' -> P s') ->
  forall n from s s', P s -> forRangeFrom from n body s = Ret s' -> P s'.
Proof.
  intros Hbody. induction n as [|n IH]; intros from s s' Hs H; cbn [forRangeFrom] in H.
  - injection H as <-. exact Hs.
  - destruct (body from s) as [s1| |] eqn:E; try discriminate.
    cbn [obind] in H. apply (IH (S from) s1 s'); [|exact H].
    apply (Hbody from s s1 Hs E).
Qed.

Lemma forRange_modify_length (n : nat) (g : nat -> float -> outcome float)
    (v v' : list float) :
  forRange n (fun i v => modify v i (g i)) v = Ret v' -> length v' = length v.
Proof.
  intros H.
  apply (forRangeFrom_keeps (fun w => length w = length v)
           (fun i v => modify v i (g i))) with (n := n) (from := 0%nat) (s := v);
    [|reflexivity|exact H].
  intros i s s' Hs Hm. rewrite (modify_length _ _ _ _ Hm). exact Hs.
Qed.

(** ** The contract of the fixed-step update functions *)

Lemma sameProblem_refl (ivp : IVP) : sameProblem ivp ivp.
Proof. repeat split. Qed.

Lemma eulerStep_contract (ivp ivp' : IVP) (h : float) (ok : bool) :
  result (eulerStep ivp h) = Ret (ivp', ok) -> sameProblem ivp ivp'.
Proof.
  unfold eulerStep. run.
  destruct (Derivative ivp (Start ivp)) as [deriv [|]]; cbn.
  - destruct (forRange _ _ _) as [v| |] eqn:E; cbn; try discriminate.
    intros H. injection H as <- _. repeat split. cbn.
    apply (forRange_modify_length _ _ _ _ E).
  - intros H. injection H as <- _. apply sameProblem_refl.
Qed.

Lemma modEulerStep_contract (ivp ivp' : IVP) (h : float) (ok : bool) :
  result (modEulerStep ivp h) = Ret (ivp', ok) -> sameProblem ivp ivp'.
Proof.
  unfold modEulerStep. run.
  destruct (Derivative ivp (Start ivp)) as [deriv [|]]; cbn.
  - destruct (forRange _ _ _) as [pv| |]; cbn; try discriminate.
    destruct (Derivative ivp _) as [deriv2 ok2]; cbn.
    destruct (forRange _ _ _) as [v| |] eqn:E; cbn; try discriminate.
    intros H. injection H as <- _. repeat split. cbn.
    apply (forRange_modify_length _ _ _ _ E).
  - intros H. injection H as <- _. apply sameProblem_refl.
Qed.

Lemma RK4Step_contract (ivp ivp' : IVP) (h : float) (k : list float) (ok : bool) :
  result (RK4Step ivp h) = Ret (ivp', k, ok) -> sameProblem ivp ivp'.
Proof.
  unfold RK4Step. run.
  destruct (Derivative ivp (Start ivp)) as [k1 [|]]; cbn;
    [|intros H; injection H as <- <- <-; apply sameProblem_refl].
  destruct (stagePoint _ _ _ _) as [p1| |]; cbn; try discriminate.
  destruct (Derivative ivp p1) as [k2 [|]]; cbn;
    [|intros H; injection H as <- <- <-; apply sameProblem_refl].
  destruct (stagePoint _ _ _ _) as [p2| |]; cbn; try discriminate.
  destruct (Derivative ivp p2) as [k3 [|]]; cbn;
    [|intros H; injection H as <- <- <-; apply sameProblem_refl].
  destruct (stagePoint _ _ _ _) as [p3| |]; cbn; try discriminate.
  destruct (Derivative ivp p3) as [k4 [|]]; cbn;
    [|intros H; injection H as <- <- <-; apply sameProblem_refl].
  destruct (forRange _ _ _) as [v| |] eqn:E; cbn; try discriminate.
  intros H. injection H as <- <- <-.
  repeat split. cbn. apply (forRange_modify_length _ _ _ _ E).
Qed.

Lemma rk4Step_contract (ivp ivp' : IVP) (h : float) (ok : bool) :
  result (rk4Step ivp h) = Ret (ivp', ok) -> sameProblem ivp ivp'.
Proof.
  unfold rk4Step, bind, ret, result.
  destruct (RK4Step ivp h) as [l [[[i k] b]| |]] eqn:E; cbn; try discriminate.
  intros H. injection H as <- <-.
  apply (RK4Step_contract ivp i h k b). unfold result. rewrite E. reflexivity.
Qed.

Lemma derivativeFlags_app (l1 l2 : list call) :
  derivativeFlags (l1 ++ l2) = derivativeFlags l1 ++ derivativeFlags l2.
Proof.
  induction l1 as [|c l1 IH]; [reflexivity|].
  destruct c; cbn; rewrite IH; reflexivity.
Qed.

(** X1: [eulerStep] and [rk4Step] fail closed.  Either every derivative
    evaluation of the step was inside the domain, or the step returns
    [false]: [eulerStep] then has left the problem exactly as it found it,
    and [rk4Step] has kept its derivative, its time and its dimension. *)
Theorem euler_and_rk4_fail_closed (ivp : IVP) (h : float) :
  (Forall (fun ok => ok = true) (derivativeFlags (calls (eulerStep ivp h)))
   \/ result (eulerStep ivp h) = Ret (ivp, false))
  /\ (Forall (fun ok => ok = true) (derivativeFlags (calls (rk4Step ivp h)))
      \/ exists ivp', result (rk4Step ivp h) = Ret (ivp', false)
                      /\ sameProblem ivp ivp').
Proof.
  assert (dec : forall l : list bool, Forall (fun ok => ok = true) l \/ In false l).
  { induction l as [|[|] l [IH|IH]]; auto; right; cbn; auto. }
  split.
  - destruct (dec (derivativeFlags (calls (eulerStep ivp h)))) as [H|H]; [auto|].
    right. apply eulerStep_reports_failure. exact H.
  - destruct (dec (derivativeFlags (calls (rk4Step ivp h)))) as [H|H]; [auto|].
    right. apply rk4Step_reports_failure in H.
    destruct (result (rk4Step ivp h)) as [[ivp' ok]| |] eqn:E; try discriminate.
    exists ivp'. split; [congruence|].
    apply (rk4Step_contract ivp ivp' h ok). exact E.
Qed.

(** X2: whatever [eulerStep], [modEulerStep] or [rk4Step] returns, it has
    left [Derivative] and [Start.Time] untouched and kept the dimension of
    [Start.Value]: the contract [FixedStepMethod] documents for its method. *)
Theorem fixed_steps_keep_time_and_dimension
    (ivp ivp' : IVP) (h : float) (ok : bool) :
  result (eulerStep ivp h) = Ret (ivp', ok)
  \/ result (modEulerStep ivp h) = Ret (ivp', ok)
  \/ result (rk4Step ivp h) = Ret (ivp', ok) ->
  sameProblem ivp ivp'.
Proof.
  intros [H|[H|H]].
  - exact (eulerStep_contract _ _ _ _ H).
  - exact (modEulerStep_contract _ _ _ _ H).
  - exact (rk4Step_contract _ _ _ _ H).
Qed.

Lemma fixed_steps_keep_time_and_dimension_witness :
  result (eulerStep decay 0.25) = Ret (setStart decay (mkPoint 0 [0.75]), true)
  /\ sameProblem decay (setStart decay (mkPoint 0 [0.75])).
Proof.
  split; [reflexivity|].
  apply (fixed_steps_keep_time_and_dimension decay _ 0.25 true).
  left. reflexivity.
Defined.

(** ** Fixed-step steppers *)

(** X4: a fixed-step stepper whose method honours the contract returns, on
    success, the point of its own state, at the previous time plus the delta
    asked for, with the same dimension; its step and derivative are as
    before. *)
Theorem fixedStepper_NextStep_advances_by_h
    (s s' : fixedStepper.t) (h : float) (p : Point) :
  (forall ivp h ivp' ok,
      result (fixedStepper.method s ivp h) = Ret (ivp', ok) -> sameProblem ivp ivp') ->
  result (fixedStepper.NextStep h s) = Ret (Some p, s') ->
  Time p = Time (Start (fixedStepper.state s)) + h
  /\ length (Value p) = length (Value (Start (fixedStepper.state s)))
  /\ Start (fixedStepper.state s') = p
  /\ Derivative (fixedStepper.state s') = Derivative (fixedStepper.state s)
  /\ fixedStepper.step s' = fixedStepper.step s
  /\ fixedStepper.method s' = fixedStepper.method s.
Proof.
  intros Hm. unfold fixedStepper.NextStep, bind, ret, result.
  destruct (fixedStepper.method s (fixedStepper.state s) h) as [l [[st [|]]| |]] eqn:E;
    cbn; try discriminate.
  intros H. injection H as <- <-.
  destruct (Hm (fixedStepper.state s) h st true) as (Hd & Ht & Hl).
  { unfold result. rewrite E. reflexivity. }
  cbn. rewrite Ht. repeat split; assumption.
Qed.

(** Euler's method with step [0.25] on [x' = -x]: forward the first point is
    at time [0 + 0.25]. *)
Lemma fixedStepper_NextStep_advances_by_h_witness :
  let s := fixedStepper.mk (IVP_Clone decay) 0.25 eulerStep in
  let s' := fixedStepper.mk (setStart decay (mkPoint (0 + 0.25) [0.75])) 0.25 eulerStep in
  result (fixedStepper.NextStep 0.25 s) = Ret (Some (mkPoint (0 + 0.25) [0.75]), s')
  /\ Time (mkPoint (0 + 0.25) [0.75]) = Time (Start (fixedStepper.state s)) + 0.25.
Proof.
  cbv zeta. split; [reflexivity|].
  apply (fixedStepper_NextStep_advances_by_h
           (fixedStepper.mk (IVP_Clone decay) 0.25 eulerStep)
           (fixedStepper.mk (setStart decay (mkPoint (0 + 0.25) [0.75])) 0.25 eulerStep)
           0.25 (mkPoint (0 + 0.25) [0.75])).
  - intros ivp h ivp' ok H. exact (eulerStep_contract _ _ _ _ H).
  - reflexivity.
Defined.

Lemma eulerStep_false_unchanged (ivp ivp' : IVP) (h : float) :
  result (eulerStep ivp h) = Ret (ivp', false) -> ivp' = ivp.
Proof.
  unfold eulerStep. run.
  destruct (Derivative ivp (Start ivp)) as [deriv [|]]; cbn.
  - destruct (forRange _ _ _); cbn; discriminate.
  - intros H. injection H as <-. reflexivity.
Qed.

Lemma modEulerStep_false_unchanged (ivp ivp' : IVP) (h : float) :
  result (modEulerStep ivp h) = Ret (ivp', false) -> ivp' = ivp.
Proof.
  unfold modEulerStep. run.
  destruct (Derivative ivp (Start ivp)) as [deriv [|]]; cbn.
  - destruct (forRange _ _ _); cbn; try discriminate.
    destruct (Derivative ivp _) as [deriv2 ok2]; cbn.
    destruct (forRange _ _ _); cbn; discriminate.
  - intros H. injection H as <-. reflexivity.
Qed.

(** X5: exhaustion of the Euler and modified Euler steppers is permanent:
    a call of [Next] that returns no point leaves the stepper as it was (the
    step failed at its first evaluation, before any write), so every later
    call returns no point either. *)
Theorem fixedStepper_exhaustion_is_permanent (s s' : fixedStepper.t) :
  fixedStepper.method s = eulerStep \/ fixedStepper.method s = modEulerStep ->
  result (fixedStepper.Next s) = Ret (None, s') ->
  s' = s /\ result (fixedStepper.Next s') = Ret (None, s').
Proof.
  intros Hm H.
  assert (Hs : s' = s).
  { revert H. unfold fixedStepper.Next, fixedStepper.NextStep, bind, ret, result.
    destruct (fixedStepper.method s (fixedStepper.state s) (fixedStepper.step s))
      as [l [[st [|]]| |]] eqn:E; cbn; try discriminate.
    intros H. injection H as <-.
    assert (Hst : st = fixedStepper.state s).
    { destruct Hm as [Hm|Hm]; rewrite Hm in E.
      - apply (eulerStep_false_unchanged _ _ (fixedStepper.step s)).
        unfold result. rewrite E. reflexivity.
      - apply (modEulerStep_false_unchanged _ _ (fixedStepper.step s)).
        unfold result. rewrite E. reflexivity. }
    rewrite Hst. destruct s; reflexivity. }
  subst s'. split; [reflexivity|exact H].
Qed.

(** Euler's method at the end of the domain of [decayUntil1]. *)
Lemma fixedStepper_exhaustion_is_permanent_witness :
  let s := fixedStepper.mk decayAt1 0.25 eulerStep in
  result (fixedStepper.Next s) = Ret (None, s)
  /\ (s = s /\ result (fixedStepper.Next s) = Ret (None, s)).
Proof.
  cbv zeta. split; [reflexivity|].
  apply (fixedStepper_exhaustion_is_permanent
           (fixedStepper.mk decayAt1 0.25 eulerStep)
           (fixedStepper.mk decayAt1 0.25 eulerStep)).
  - left. reflexivity.
  - reflexivity.
Defined.

(** ** Inversion of the monad *)

Lemma bind_inv {A B : Type} (c : M A) (k : A -> M B) (l : list call) (b : B) :
  bind c k = (l, Ret b) ->
  exists l1 a l2, c = (l1, Ret a) /\ k a = (l2, Ret b) /\ l = l1 ++ l2.
Proof.
  unfold bind. destruct c as [l1 [a| |]]; cbn [fst snd]; try discriminate.
  destruct (k a) as [l2 o] eqn:E. cbn [fst snd]. intros H. injection H as <- ->.
  exists l1, a, l2. auto.
Qed.

Lemma lift_inv {A : Type} (o : outcome A) (l : list call) (a : A) :
  lift o = (l, Ret a) -> o = Ret a /\ l = [].
Proof. unfold lift. intros H. injection H as <- ->. auto. Qed.

Lemma ret_inv {A : Type} (a b : A) (l : list call) :
  ret a = (l, Ret b) -> a = b /\ l = [].
Proof. unfold ret. intros H. injection H as <- ->. auto. Qed.

Lemma ltb_not_ge (x y : float) : (x <? y) = true -> (y <=? x) = false.
Proof.
  rewrite FloatAxioms.ltb_spec, FloatAxioms.leb_spec. unfold SFltb, SFleb.
  rewrite (SFcompare_antisym (Prim2SF x) (Prim2SF y)).
  destruct (SFcompare (Prim2SF x) (Prim2SF y)) as [[ | | ]|]; cbn; congruence.
Qed.

(** ** The Runge-Kutta-Fehlberg stepper *)

Lemma rkFehlbergStepper_advance_length
    (s : rkFehlbergStepper.t) (k : rkFehlbergStepper.stages) (v : list float) :
  rkFehlbergStepper.advance s k = Ret v ->
  length v = length (Value (rkFehlbergStepper.current s)).
Proof.
  unfold rkFehlbergStepper.advance. intros H.
  exact (forRange_modify_length _ _ _ _ H).
Qed.

Lemma rkFehlbergStepper_Next_inv (Pow : PowFn) :
  forall fuel s l o s',
    rkFehlbergStepper.Next Pow fuel s = (l, Ret (o, s')) ->
    rkFehlbergStepper.deriv s' = rkFehlbergStepper.deriv s
    /\ rkFehlbergStepper.tol s' = rkFehlbergStepper.tol s
    /\ rkFehlbergStepper.hmin s' = rkFehlbergStepper.hmin s
    /\ rkFehlbergStepper.hmax s' = rkFehlbergStepper.hmax s
    /\ length (Value (rkFehlbergStepper.current s'))
       = length (Value (rkFehlbergStepper.current s))
    /\ match o with
       | None =>
           Time (rkFehlbergStepper.current s') = Time (rkFehlbergStepper.current s)
           /\ (rkFehlbergStepper.hmin s' <=? rkFehlbergStepper.step s') = false
       | Some p =>
           rkFehlbergStepper.current s' = p
           /\ exists h e,
                (rkFehlbergStepper.hmin s <=? h) = true
                /\ (rkFehlbergStepper.tol s <? e) = false
                /\ Time p = Time (rkFehlbergStepper.current s) + h
                /\ rkFehlbergStepper.step s'
                   = AdaptiveUpdateStep Pow h (rkFehlbergStepper.tol s) e
                                        (rkFehlbergStepper.hmax s) 4
       end.
Proof.
  induction fuel as [|fuel IH]; intros s l o s' H; [discriminate|].
  cbn [rkFehlbergStepper.Next] in H.
  destruct (rkFehlbergStepper.hmin s <=? rkFehlbergStepper.step s) eqn:G;
    cbn [negb] in H.
  - apply bind_inv in H. destruct H as (l1 & r & l2 & _ & H & _).
    destruct r as [k|].
    + apply bind_inv in H. destruct H as (l3 & err & l4 & _ & H & _).
      destruct (rkFehlbergStepper.tol s <? err) eqn:Et.
      * apply IH in H. exact H.
      * apply bind_inv in H. destruct H as (l5 & v & l6 & Hv & H & _).
        apply lift_inv in Hv. destruct Hv as [Hv _].
        apply ret_inv in H. destruct H as [H _]. injection H as <- <-.
        cbn. repeat split; try reflexivity.
        -- exact (rkFehlbergStepper_advance_length _ _ _ Hv).
        -- exists (rkFehlbergStepper.step s), err. repeat split; auto.
    + apply IH in H. exact H.
  - apply ret_inv in H. destruct H as [H _]. injection H as <- <-.
    repeat split; try reflexivity. exact G.
Qed.

(** X6: the Runge-Kutta-Fehlberg stepper exhausts only with a step below
    [hmin], at the time where it stood and with a value of the same
    dimension, and its exhaustion is permanent: every later [Next] returns
    no point and evaluates nothing. *)
Theorem rkFehlberg_exhaustion_is_permanent
    (Pow : PowFn) (fuel : nat) (s s' : rkFehlbergStepper.t) (l : list call) :
  rkFehlbergStepper.Next Pow fuel s = (l, Ret (None, s')) ->
  (rkFehlbergStepper.hmin s <=? rkFehlbergStepper.step s') = false
  /\ Time (rkFehlbergStepper.current s') = Time (rkFehlbergStepper.current s)
  /\ length (Value (rkFehlbergStepper.current s'))
     = length (Value (rkFehlbergStepper.current s))
  /\ forall fuel', rkFehlbergStepper.Next Pow (S fuel') s' = ([], Ret (None, s')).
Proof.
  intros H. destruct (rkFehlbergStepper_Next_inv Pow fuel s l None s' H)
    as (_ & _ & Hm & _ & Hl & Ht & G).
  split; [rewrite <- Hm; exact G|]. split; [exact Ht|]. split; [exact Hl|].
  intros fuel'. apply rkFehlbergStepper_Next_guard. exact G.
Qed.

(** On a problem with an empty domain the step is halved from [0.01] until
    it is below [hmin = 0.001]. *)
Lemma rkFehlberg_exhaustion_is_permanent_witness :
  let s := rkFehlbergMethod.Forward (RKFehlberg 0.01 0.01 0.001 0.1) nowhere in
  match rkFehlbergStepper.Next powRoots 10 s with
  | (l, Ret (None, s')) =>
      rkFehlbergStepper.step s' = 0.01 * 0.5 * 0.5 * 0.5 * 0.5
      /\ (rkFehlbergStepper.hmin s <=? rkFehlbergStepper.step s') = false
      /\ Time (rkFehlbergStepper.current s') = Time (rkFehlbergStepper.current s)
      /\ length (Value (rkFehlbergStepper.current s'))
         = length (Value (rkFehlbergStepper.current s))
      /\ forall fuel', rkFehlbergStepper.Next powRoots (S fuel') s' = ([], Ret (None, s'))
  | _ => False
  end.
Proof.
  intros s.
  destruct (rkFehlbergStepper.Next powRoots 10 s) as [l [[[p|] s']| |]] eqn:E;
    try (vm_compute in E; discriminate).
  split.
  - vm_compute in E. injection E as _ <-. reflexivity.
  - exact (rkFehlberg_exhaustion_is_permanent powRoots 10 s s' l E).
Defined.



(** ** The stepper of the Richardson wrapper *)

Lemma adaptiveStepper_loop_None (Pow : PowFn) :
  forall fuel retrying s fr l s',
    adaptiveStepper.loop Pow fuel retrying s fr = (l, Ret (None, s')) ->
    (adaptiveStepper.hmin s' <=? adaptiveStepper.step s') = false.
Proof.
  induction fuel as [|fuel IH]; intros retrying s fr l s' H; [discriminate|].
  cbn [adaptiveStepper.loop] in H.
  destruct (negb retrying && negb (adaptiveStepper.hmin s <=? adaptiveStepper.step s))
    eqn:G.
  - apply ret_inv in H. destruct H as [H _]. injection H as <-.
    apply andb_true_iff in G. destruct G as [_ G].
    apply negb_true_iff in G. exact G.
  - apply bind_inv in H. destruct H as (l1 & [[s1 fr1] ok] & l2 & _ & H & _).
    destruct ok; cbn [negb] in H.
    + apply bind_inv in H. destruct H as (l3 & sq & l4 & _ & H & _).
      match type of H with
      | (if ?c then _ else _) = _ => destruct c
      end.
      * apply IH in H. exact H.
      * apply bind_inv in H. destruct H as (l5 & fr2 & l6 & _ & H & _).
        apply ret_inv in H. destruct H as [H _]. discriminate.
    + cbv zeta in H.
      match type of H with
      | (if ?c then _ else _) = _ => destruct c eqn:E
      end.
      * apply ret_inv in H. destruct H as [H _]. injection H as <-.
        cbn in *. apply ltb_not_ge. exact E.
      * apply IH in H. exact H.
Qed.

(** X8: the stepper of the Richardson wrapper exhausts only with a step
    below [hmin], and its exhaustion is permanent: every later [Next] returns
    no point and calls nothing. *)
Theorem adaptiveStepper_exhaustion_is_permanent
    (Pow : PowFn) (fuel : nat) (s s' : adaptiveStepper.t) (l : list call) :
  adaptiveStepper.Next Pow fuel s = (l, Ret (None, s')) ->
  (adaptiveStepper.hmin s' <=? adaptiveStepper.step s') = false
  /\ forall fuel', adaptiveStepper.Next Pow (S fuel') s' = ([], Ret (None, s')).
Proof.
  intros H. unfold adaptiveStepper.Next in H.
  apply adaptiveStepper_loop_None in H.
  split; [exact H|]. intros fuel'. apply adaptiveStepper_Next_guard. exact H.
Qed.

(** The adaptive Euler method on a problem with an empty domain. *)
Lemma adaptiveStepper_exhaustion_is_permanent_witness :
  match adaptiveStepper.Next powRoots 10
          (AdaptiveStepMethod.Forward (AdaptiveEuler 0.01 0.01 0.001 0.1) nowhere) with
  | (_, Ret (None, s')) =>
      (adaptiveStepper.hmin s' <=? adaptiveStepper.step s') = false
      /\ adaptiveStepper.step s' = 0.01 * 0.5 * 0.5 * 0.5 * 0.5
      /\ adaptiveStepper.Next powRoots 1 s' = ([], Ret (None, s'))
  | _ => False
  end.
Proof.
  destruct (adaptiveStepper.Next powRoots 10
              (AdaptiveStepMethod.Forward (AdaptiveEuler 0.01 0.01 0.001 0.1) nowhere))
    as [l [[[p|] s']| |]] eqn:E; try (vm_compute in E; discriminate).
  destruct (adaptiveStepper_exhaustion_is_permanent powRoots 10 _ s' l E) as [H1 H2].
  split; [exact H1|]. split; [|exact (H2 0%nat)].
  vm_compute in E. injection E as _ <-. reflexivity.
Defined.

(** ** Events *)

Lemma bisect_found (e : Event) (i : Interpolator) (p1 p2 : Point) (downwards : bool) :
  forall fuel min max p,
    bisect fuel e i p1 p2 downwards min max = Ret p ->
    (abs (Cross e p) <? Tolerance e) = true /\ i p1 p2 (Time p) = Ret (Value p).
Proof.
  induction fuel as [|fuel IH]; intros min max p H; [discriminate|].
  cbn [bisect] in H.
  destruct (i p1 p2 ((Time min + Time max) / 2)) as [v| |] eqn:Ev;
    cbn [obind] in H; try discriminate.
  destruct (abs (Cross e (mkPoint ((Time min + Time max) / 2) v)) <? Tolerance e) eqn:Et.
  - injection H as <-. split; [exact Et|exact Ev].
  - destruct downwards, (0 <? _); apply IH in H; exact H.
Qed.

(** X9: a point that [FindPoint] returns is within the tolerance of the
    event, [|Cross(p)| < Tolerance], and lies on the interpolant between the
    two points given: its value is [FindValue(p1, p2, p.Time)]. *)
Theorem FindPoint_within_tolerance
    (fuel : nat) (e : Event) (i : Interpolator) (p1 p2 p : Point) :
  FindPoint fuel e i p1 p2 = Ret p ->
  (abs (Cross e p) <? Tolerance e) = true /\ i p1 p2 (Time p) = Ret (Value p).
Proof.
  unfold FindPoint. destruct (if Time p1 <? Time p2 then _ else _) as [min max].
  apply bisect_found.
Qed.

(** The crossing at time 1 inside the forward step from 0 to 3. *)
Lemma FindPoint_within_tolerance_witness :
  FindPoint 100 (crossAt 1 0.001) LinearInterpolator (mkPoint 0 [0]) (mkPoint 3 [3])
    = Ret (mkPoint 0.9990234375 [0.9990234375])
  /\ (abs (0.9990234375 - 1) <? 0.001) = true
  /\ LinearInterpolator (mkPoint 0 [0]) (mkPoint 3 [3]) 0.9990234375
     = Ret [0.9990234375].
Proof.
  split; [vm_compute; reflexivity|].
  apply (FindPoint_within_tolerance 100 (crossAt 1 0.001) LinearInterpolator
           (mkPoint 0 [0]) (mkPoint 3 [3]) (mkPoint 0.9990234375 [0.9990234375])).
  vm_compute. reflexivity.
Defined.

Lemma dispatch_veto (evs : list Event) :
  forall actions l i,
    dispatch evs actions = (l, Ret (Some i)) ->
    exists l' p, l = l' ++ [CAction i p false].
Proof.
  induction actions as [|a r IH]; intros l i H; cbn [dispatch] in H.
  - apply ret_inv in H. destruct H as [H _]. discriminate.
  - apply bind_inv in H. destruct H as (l1 & c & l2 & Hc & H & ->).
    unfold callAction in Hc.
    apply bind_inv in Hc. destruct Hc as (l3 & e & l4 & He & Hc & ->).
    apply lift_inv in He. destruct He as [_ ->].
    apply bind_inv in Hc. destruct Hc as (l5 & [] & l6 & Hem & Hc & ->).
    apply ret_inv in Hc. destruct Hc as [<- ->].
    unfold emit in Hem. injection Hem as <-.
    destruct (Action e (point a)); cbn [negb] in H.
    + destruct (IH _ _ H) as (l' & p & ->).
      exists (([] ++ [CAction (index a) (point a) true] ++ []) ++ l'), p.
      rewrite <- app_assoc. reflexivity.
    + apply ret_inv in H. destruct H as [H ->]. injection H as <-.
      exists [], (point a). reflexivity.
Qed.

Lemma stepUntilLoop_outcome {U : Type}
    (interp0 : Interpolator) (callback : option (Point -> U -> U)) (evs : list Event) :
  forall fuel s prev vs u l i ok s' u',
    stepUntilLoop interp0 callback evs fuel s prev vs u = (l, Ret (i, ok, s', u')) ->
    if ok then exists l' p, l = l' ++ [CAction i p false]
    else i = 0%nat.
Proof.
  induction fuel as [|fuel IH]; intros s prev vs u l i ok s' u' H; [discriminate|].
  cbn [stepUntilLoop] in H.
  apply bind_inv in H. destruct H as (l1 & [next s1] & l2 & _ & H & ->).
  destruct next as [pt|].
  - apply bind_inv in H. destruct H as (l3 & [actions vs1] & l4 & _ & H & ->).
    apply bind_inv in H. destruct H as (l5 & acts & l6 & _ & H & ->).
    apply bind_inv in H. destruct H as (l7 & veto & l8 & Hd & H & ->).
    destruct veto as [j|].
    + apply ret_inv in H. destruct H as [H ->]. injection H as <- <- <- <-.
      destruct (dispatch_veto _ _ _ _ Hd) as (l' & p & ->).
      exists (l1 ++ l3 ++ l5 ++ l'), p.
      rewrite app_nil_r, !app_assoc. reflexivity.
    + apply bind_inv in H. destruct H as (l9 & u1 & l10 & _ & H & ->).
      apply IH in H. destruct ok; [|exact H].
      destruct H as (l' & p & ->).
      exists (l1 ++ l3 ++ l5 ++ l7 ++ l9 ++ l'), p.
      rewrite !app_assoc. reflexivity.
  - apply ret_inv in H. destruct H as [H _]. injection H as <- <- <- <-.
    reflexivity.
Qed.

(** X10: what [StepUntil] reports.  When it returns [ok = true], the last
    call made is the action of the event whose index it returns, and that
    action returned [false]: nothing is invoked after a veto.  When it returns
    [ok = false] the index is 0. *)
Theorem StepUntil_reports_the_vetoing_event {U : Type}
    (interp0 : Interpolator) (callback : option (Point -> U -> U)) (evs : list Event)
    (fuel : nat) (s s' : Stepper) (init : Point) (u u' : U)
    (l : list call) (i : nat) (ok : bool) :
  StepUntil interp0 callback evs fuel s init u = (l, Ret (i, ok, s', u')) ->
  if ok then exists l' p, l = l' ++ [CAction i p false]
  else i = 0%nat.
Proof. unfold StepUntil. apply stepUntilLoop_outcome. Qed.

(** The crossing at time 1 vetoes inside the forward step from 0 to 3: the
    event of index 1 is reported and the action at time 2 is never invoked. *)
Lemma StepUntil_reports_the_vetoing_event_witness :
  match StepUntil LinearInterpolator (Some (fun _ (u : unit) => u))
                  [crossAt 2 0.001; vetoAt 1 0.001] 100
                  (Forward (Euler 3) riseFrom0) (Start riseFrom0) tt with
  | (l, Ret (i, ok, _, _)) =>
      (i = 1%nat /\ ok = true /\ actionCalls l = [(1%nat, 0.9990234375)])
      /\ (if ok then exists l' p, l = l' ++ [CAction i p false] else i = 0%nat)
  | _ => False
  end.
Proof.
  destruct (StepUntil LinearInterpolator (Some (fun _ (u : unit) => u))
              [crossAt 2 0.001; vetoAt 1 0.001] 100
              (Forward (Euler 3) riseFrom0) (Start riseFrom0) tt)
    as [l [[[[i ok] s'] u']| |]] eqn:E; try (vm_compute in E; discriminate).
  split.
  - vm_compute in E. injection E as <- <- <- _ _. repeat split.
  - exact (StepUntil_reports_the_vetoing_event _ _ _ _ _ _ _ _ _ _ _ _ E).
Defined.


(** ** Round trips of the dense solution *)

Lemma SFcompare_defined (x y : spec_float) (c : comparison) :
  SFcompare x y = Some c -> SFcompare x x = Some Eq /\ SFcompare y y = Some Eq.
Proof.
  destruct x as [s|s| |s m e], y as [s'|s'| |s' m' e']; cbn; try discriminate;
    intros _; split; try reflexivity;
    try (destruct s; reflexivity); try (destruct s'; reflexivity);
    try (destruct s; rewrite Z.compare_refl, Pos.compare_cont_refl; reflexivity);
    try (destruct s'; rewrite Z.compare_refl, Pos.compare_cont_refl; reflexivity).
Qed.

Lemma ltb_eqb_refl (x y : float) :
  (x <? y) = true -> (x =? x) = true /\ (y =? y) = true /\ (x =? y) = false.
Proof.
  rewrite FloatAxioms.ltb_spec, !FloatAxioms.eqb_spec. unfold SFltb, SFeqb.
  destruct (SFcompare (Prim2SF x) (Prim2SF y)) as [[ | | ]|] eqn:E; try discriminate.
  intros _. destruct (SFcompare_defined _ _ _ E) as [-> ->]. auto.
Qed.

Lemma copy_make {A : Type} (z : A) (v : list A) : copy (repeat z (length v)) v = v.
Proof. induction v as [|x v IH]; [reflexivity|]. cbn. rewrite IH. reflexivity. Qed.

Lemma Point_Clone_same (p : Point) : Point_Clone p = p.
Proof. destruct p as [t v]. unfold Point_Clone, make. cbn. rewrite copy_make. reflexivity. Qed.

(** X12: in a dense solution of one, two or three points at increasing
    times, [Get] at the time of a stored point returns the stored value
    unchanged, with [ok = true]. *)
Theorem DenseSolution_Get_stored_point_small
    (d : DenseSolution) (p : Point) (fuel : nat) :
  increasing (points d) ->
  (length (points d) <= 3)%nat ->
  In p (points d) ->
  DenseSolution_Get (S (S fuel)) d (Time p) = Ret (Value p, true).
Proof.
  intros Hinc Hlen Hin.
  unfold DenseSolution_Get, DenseSolution_Start, DenseSolution_End.
  unfold increasing in Hinc.
  destruct d as [pts ip]. cbn [points] in *.
  destruct pts as [|a [|b [|c [|x r]]]]; cbn in Hlen; try lia.
  - destruct Hin.
  - destruct Hin as [<-|[]].
    change (at_ [a] 0) with (Ret a). change (at_ [a] (len [a] - 1)) with (Ret a).
    cbn [obind]. rewrite ltb_irrefl. reflexivity.
  - apply Sorted_inv in Hinc. destruct Hinc as [_ Hab].
    apply HdRel_inv in Hab.
    destruct (ltb_eqb_refl _ _ Hab) as (Ea & Eb & Eab).
    change (at_ [a; b] 0) with (Ret a).
    change (at_ [a; b] (len [a; b] - 1)) with (Ret b).
    change (len [a; b] - 1)%Z with 1%Z.
    cbn [obind search Z.eqb Z.sub Z.opp Z.add Z.pos_sub Pos.eqb interp points].
    change (at_ [a; b] 0) with (Ret a). change (at_ [a; b] 1) with (Ret b).
    cbn [obind].
    destruct Hin as [<-|[<-|[]]].
    + rewrite ltb_irrefl, (ltb_not_gt _ _ Hab), Ea, Point_Clone_same. reflexivity.
    + rewrite (ltb_not_gt _ _ Hab), ltb_irrefl, (ltb_not_eq _ _ Hab), Eb,
        Point_Clone_same. reflexivity.
  - apply Sorted_inv in Hinc. destruct Hinc as [Hbc Hab].
    apply HdRel_inv in Hab.
    apply Sorted_inv in Hbc. destruct Hbc as [_ Hbc]. apply HdRel_inv in Hbc.
    pose proof (ltb_trans _ _ _ Hab Hbc) as Hac.
    destruct (ltb_eqb_refl _ _ Hab) as (Ea & Eb & Eab).
    destruct (ltb_eqb_refl _ _ Hbc) as (_ & Ec & Ebc).
    change (at_ [a; b; c] 0) with (Ret a).
    change (at_ [a; b; c] (len [a; b; c] - 1)) with (Ret c).
    change (len [a; b; c] - 1)%Z with 2%Z.
    cbn [obind].
    assert (S1 : forall t, search (S (S fuel)) (mkDenseSolution [a; b; c] ip) t 0 2
                 = if t =? Time b then Ret (Value b)
                   else if Time b <? t
                        then search (S fuel) (mkDenseSolution [a; b; c] ip) t 1 2
                        else search (S fuel) (mkDenseSolution [a; b; c] ip) t 0 1)
      by reflexivity.
    assert (S2 : forall t, search (S fuel) (mkDenseSolution [a; b; c] ip) t 1 2
                 = if t =? Time b then Ret (Value (Point_Clone b))
                   else if t =? Time c then Ret (Value (Point_Clone c))
                        else ip b c t)
      by reflexivity.
    assert (S3 : forall t, search (S fuel) (mkDenseSolution [a; b; c] ip) t 0 1
                 = if t =? Time a then Ret (Value (Point_Clone a))
                   else if t =? Time b then Ret (Value (Point_Clone b))
                        else ip a b t)
      by reflexivity.
    rewrite S1, S2, S3.
    destruct Hin as [<-|[<-|[<-|[]]]].
    + rewrite ltb_irrefl, (ltb_not_gt _ _ Hac), Eab, (ltb_not_gt _ _ Hab), Ea,
        Point_Clone_same. reflexivity.
    + rewrite (ltb_not_gt _ _ Hab), (ltb_not_gt _ _ Hbc), Eb. reflexivity.
    + rewrite (ltb_not_gt _ _ Hac), ltb_irrefl, (ltb_not_eq _ _ Hbc), Hbc, Ec,
        Point_Clone_same. reflexivity.
Qed.

Lemma DenseSolution_Get_stored_point_small_witness :
  DenseSolution_Get 2
    (mkDenseSolution [mkPoint 0 [0]; mkPoint 1 [1]; mkPoint 2 [2]] LinearInterpolator)
    (Time (mkPoint 2 [2]))
  = Ret ([2], true).
Proof.
  apply (DenseSolution_Get_stored_point_small
           (mkDenseSolution [mkPoint 0 [0]; mkPoint 1 [1]; mkPoint 2 [2]]
              LinearInterpolator) (mkPoint 2 [2]) 0).
  - repeat constructor.
  - cbn. lia.
  - cbn. auto.
Defined.

(** ** Slices read after a write *)

Lemma nth_error_store {A : Type} (v : list A) (i : nat) (x : A) (v' : list A) :
  store v i x = Ret v' ->
  forall k, nth_error v' k = if (k =? i)%nat then Some x else nth_error v k.
Proof.
  revert i v'. induction v as [|y v IH]; intros i v' H k; [discriminate|].
  destruct i as [|i]; cbn [store] in H.
  - injection H as <-. destruct k; reflexivity.
  - destruct (store v i x) as [r| |] eqn:E; try discriminate.
    cbn in H. injection H as <-. destruct k as [|k]; [reflexivity|].
    cbn [nth_error]. rewrite (IH i r E k). reflexivity.
Qed.

Lemma load_in_range {A : Type} (v : list A) (i : nat) :
  (i < length v)%nat -> exists x, load v i = Ret x /\ nth_error v i = Some x.
Proof.
  intros H. unfold load. destruct (nth_error v i) as [x|] eqn:E.
  - exists x. auto.
  - apply nth_error_None in E. lia.
Qed.

Lemma load_inv {A : Type} (v : list A) (i : nat) (x : A) :
  load v i = Ret x -> nth_error v i = Some x /\ (i < length v)%nat.
Proof.
  unfold load. destruct (nth_error v i) as [y|] eqn:E; [|discriminate].
  intros H. injection H as <-. split; [reflexivity|].
  apply nth_error_Some. congruence.
Qed.

(** ** The history of a multistep method *)

Lemma shiftFrom_spec :
  forall i steps, (i < length steps)%nat ->
    exists steps',
      shiftFrom i steps = Ret steps'
      /\ length steps' = length steps
      /\ nth_error steps' 0 = nth_error steps 0
      /\ (forall k, (k < i)%nat -> nth_error steps' (S k) = nth_error steps k)
      /\ (forall k, (i < k)%nat -> nth_error steps' k = nth_error steps k).
Proof.
  induction i as [|j IH]; intros steps Hi.
  - exists steps. cbn. repeat split; auto. intros k Hk. lia.
  - cbn [shiftFrom].
    destruct (load_in_range steps j) as (x & -> & Hx); [lia|]. cbn [obind].
    destruct (store_in_range steps (S j) x Hi) as (s1 & Hs1). rewrite Hs1. cbn [obind].
    pose proof (store_length _ _ _ _ Hs1) as L1.
    pose proof (nth_error_store _ _ _ _ Hs1) as N1.
    destruct (IH s1) as (s2 & -> & L2 & H0 & Hlo & Hhi); [lia|].
    exists s2. split; [reflexivity|]. split; [congruence|]. split.
    + rewrite H0, N1. reflexivity.
    + split.
      * intros k Hk. destruct (Nat.eq_dec k j) as [->|Hne].
        -- rewrite Hhi by lia. rewrite N1, Nat.eqb_refl. symmetry. exact Hx.
        -- rewrite Hlo by lia. rewrite N1.
           destruct (Nat.eqb_spec k (S j)); [lia|reflexivity].
      * intros k Hk. rewrite Hhi by lia. rewrite N1.
        destruct (Nat.eqb_spec k (S j)); [lia|reflexivity].
Qed.

(** X13: [Shift] never panics; it keeps the number of steps and the step at
    index 0, and moves every other step one place up, so the last one is
    dropped and the first one is stored twice. *)
Theorem Shift_moves_every_step_up (steps : list Step.t) :
  exists steps',
    Shift steps = Ret steps'
    /\ length steps' = length steps
    /\ nth_error steps' 0 = nth_error steps 0
    /\ forall k, (S k < length steps)%nat -> nth_error steps' (S k) = nth_error steps k.
Proof.
  unfold Shift. destruct steps as [|x r].
  - exists []. cbn. repeat split; auto. intros k Hk. cbn in Hk. lia.
  - destruct (shiftFrom_spec (length (x :: r) - 1) (x :: r))
      as (s' & E & L & H0 & Hlo & _); [cbn; lia|].
    exists s'. repeat split; auto.
    intros k Hk. apply Hlo. lia.
Qed.

Lemma accumulate_length (steps : list Step.t) (coef : list float)
    (scaled : float -> float) (field : Step.t -> list float) (r r' : list float) :
  accumulate steps coef scaled field r = Ret r' -> length r' = length r.
Proof.
  unfold accumulate, forRange. intros H.
  apply (forRangeFrom_keeps (fun w => length w = length r)) in H; auto.
  intros i s s' Hs Hb.
  destruct (load coef i) as [v| |]; try discriminate. cbn [obind] in Hb.
  apply forRange_modify_length in Hb. congruence.
Qed.

(** X14: a vector returned by [Implicit] has the dimension of the value of
    the first step, and there are at least as many steps as coefficients of
    either kind. *)
Theorem Implicit_dimension
    (steps : list Step.t) (a b : list float) (step : float) (r : list float) :
  Implicit steps a b step = Ret r ->
  exists first,
    nth_error steps 0 = Some first
    /\ length r = length (Step.Value first)
    /\ (length a <= length steps)%nat /\ (length b <= length steps)%nat.
Proof.
  unfold Implicit.
  destruct (length steps =? 0)%nat; [discriminate|].
  destruct (Nat.ltb_spec (length steps) (length a)); [discriminate|].
  destruct (Nat.ltb_spec (length steps) (length b)); [discriminate|].
  cbn [orb].
  destruct (load steps 0) as [first| |] eqn:E; try discriminate. cbn [obind].
  destruct (accumulate steps a _ _ _) as [r1| |] eqn:E1; try discriminate. cbn [obind].
  intros E2. apply accumulate_length in E1, E2.
  exists first. apply load_inv in E. destruct E as [E _].
  repeat split; auto. rewrite E2, E1. unfold make. apply repeat_length.
Qed.

Lemma Implicit_dimension_witness :
  let steps := [Step.mk [1; 2] [3; 4]; Step.mk [5; 6] [7; 8]] in
  let a := [1] in
  let b := [0.5; 0.5] in
  let r := [1 * 1 + 2 * 0.5 * 3 + 2 * 0.5 * 7; 1 * 2 + 2 * 0.5 * 4 + 2 * 0.5 * 8] in
  Implicit steps a b 2 = Ret r
  /\ exists first,
       nth_error steps 0 = Some first
       /\ length r = length (Step.Value first)
       /\ (length a <= length steps)%nat /\ (length b <= length steps)%nat.
Proof.
  intros steps a b r.
  assert (E : Implicit steps a b 2 = Ret r) by (vm_compute; reflexivity).
  split; [exact E|].
  exact (Implicit_dimension steps a b 2 r E).
Defined.

(** ** The linear interpolator *)

Lemma forRangeFrom_total {T : Type} (P : T -> Prop) (body : nat -> T -> outcome T) :
  forall n from s,
    (forall i s, (from <= i < from + n)%nat -> P s -> exists s', body i s = Ret s' /\ P s') ->
    P s -> exists s', forRangeFrom from n body s = Ret s' /\ P s'.
Proof.
  induction n as [|n IH]; intros from s Hbody Hs; cbn [forRangeFrom].
  - exists s. auto.
  - destruct (Hbody from s) as (s1 & -> & Hs1); [lia|exact Hs|]. cbn [obind].
    apply IH; [|exact Hs1].
    intros i s2 Hi. apply Hbody. lia.
Qed.

(** X15: between a point and one of at least its dimension the linear
    interpolator never panics and yields a vector of the dimension of the
    first point, for every time asked, inside the interval or not. *)
Theorem LinearInterpolator_dimension (p1 p2 : Point) (t : float) :
  (length (Value p1) <= length (Value p2))%nat ->
  exists v, LinearInterpolator p1 p2 t = Ret v /\ length v = length (Value p1).
Proof.
  intros Hlen. unfold LinearInterpolator, forRange.
  apply (forRangeFrom_total (fun w => length w = length (Value p1))).
  - intros i s Hi Hs.
    destruct (load_in_range (Value p1) i) as (a & -> & _); [lia|].
    destruct (load_in_range (Value p2) i) as (b & -> & _); [lia|].
    cbn [obind].
    destruct (store_in_range s i (a * (1 - (t - Time p1) / (Time p2 - Time p1))
                                  + b * ((t - Time p1) / (Time p2 - Time p1))))
      as (s' & Hs'); [lia|].
    exists s'. split; [exact Hs'|]. rewrite (store_length _ _ _ _ Hs'). exact Hs.
  - unfold make. apply repeat_length.
Qed.

Lemma LinearInterpolator_dimension_witness :
  exists v, LinearInterpolator (mkPoint 0 [0; 1]) (mkPoint 2 [4; 5; 6]) 0.5 = Ret v
            /\ length v = length (Value (mkPoint 0 [0; 1])).
Proof.
  apply (LinearInterpolator_dimension (mkPoint 0 [0; 1]) (mkPoint 2 [4; 5; 6]) 0.5).
  cbn. lia.
Defined.

(** ** The detection loop *)

Lemma FindPoint_found (fuel : nat) (e : Event) (i : Interpolator) (p1 p2 p : Point) :
  FindPoint fuel e i p1 p2 = Ret p ->
  (abs (Cross e p) <? Tolerance e) = true /\ i p1 p2 (Time p) = Ret (Value p).
Proof.
  unfold FindPoint. destruct (Time p1 <? Time p2); apply bisect_found.
Qed.

Lemma detect_from (fuel : nat) (interp0 : Interpolator) (evs : list Event)
    (prev next : Point) (N : nat) (good : requiredAction -> Prop) :
  (forall i e p, (i < N)%nat -> nth_error evs i = Some e ->
                 FindPoint fuel e interp0 prev next = Ret p ->
                 good (mkRequiredAction i p)) ->
  forall n from st st',
    (from + n <= N)%nat ->
    forRangeFrom from n
      (fun i '(actions, vs) =>
         e <~ load evs i ;;
         let newVal := Cross e next in
         old <~ load vs i ;;
         actions <~ (if differentSign old newVal then
                       p <~ FindPoint fuel e interp0 prev next ;;
                       Ret (actions ++ [mkRequiredAction i p])
                     else Ret actions) ;;
         vs <~ store vs i newVal ;;
         Ret (actions, vs)) st = Ret st' ->
    (forall i e, (i < from)%nat -> nth_error evs i = Some e ->
                 nth_error (snd st) i = Some (Cross e next)) ->
    Forall good (fst st) ->
    length (snd st') = length (snd st)
    /\ (n = 0%nat \/ (from + n <= length evs)%nat)
    /\ (forall i e, (i < from + n)%nat -> nth_error evs i = Some e ->
                    nth_error (snd st') i = Some (Cross e next))
    /\ Forall good (fst st').
Proof.
  intros Hgood. induction n as [|n IH]; intros from [acts vs] st' HN H Hvs Hacts;
    cbn [forRangeFrom] in H.
  - injection H as <-. repeat split; auto.
    intros i e Hi. apply Hvs. lia.
  - destruct (load evs from) as [e| |] eqn:Ee; try discriminate. cbn [obind] in H.
    destruct (load vs from) as [old| |] eqn:Eo; try discriminate. cbn [obind] in H.
    apply load_inv in Ee. destruct Ee as [Ee Hfrom].
    assert (Hstep : exists acts1 vs1,
               store vs from (Cross e next) = Ret vs1 /\ Forall good acts1
               /\ forRangeFrom (S from) n
                    (fun i '(actions, vs) =>
                       e <~ load evs i ;;
                       let newVal := Cross e next in
                       old <~ load vs i ;;
                       actions <~ (if differentSign old newVal then
                                     p <~ FindPoint fuel e interp0 prev next ;;
                                     Ret (actions ++ [mkRequiredAction i p])
                                   else Ret actions) ;;
                       vs <~ store vs i newVal ;;
                       Ret (actions, vs)) (acts1, vs1) = Ret st').
    { destruct (differentSign old (Cross e next)).
      - destruct (FindPoint fuel e interp0 prev next) as [p| |] eqn:Ef; try discriminate.
        cbn [obind] in H.
        destruct (store vs from (Cross e next)) as [vs1| |]; try discriminate.
        cbn [obind] in H. exists (acts ++ [mkRequiredAction from p]), vs1.
        repeat split; auto. apply Forall_app. split; [exact Hacts|].
        constructor; [|constructor]. apply (Hgood from e p); auto. lia.
      - cbn [obind] in H.
        destruct (store vs from (Cross e next)) as [vs1| |]; try discriminate.
        cbn [obind] in H. exists acts, vs1. repeat split; auto. }
    destruct Hstep as (acts1 & vs1 & Hs & Hacts1 & Hrest).
    pose proof (store_length _ _ _ _ Hs) as L1.
    pose proof (nth_error_store _ _ _ _ Hs) as N1.
    destruct (IH (S from) (acts1, vs1) st') as (HL & Hn & Hv & Ha); auto.
    + lia.
    + cbn [snd]. intros i e' Hi He'. rewrite N1.
      destruct (Nat.eqb_spec i from) as [->|Hne].
      * congruence.
      * cbn [snd] in Hvs. apply Hvs; [lia|exact He'].
    + cbn [snd] in *. split; [congruence|]. split.
      * right. destruct Hn as [->|Hn]; lia.
      * split; [|exact Ha]. intros i e' Hi. apply Hv. lia.
Qed.

(** X16: when the detection loop of [StepUntil] and [CacheSolver.getActions]
    returns, it has looked at [n] events that exist, the stored values have
    their old number and hold, for each of the [n] events, its function at
    the new point, and every action names one of the [n] events with a point
    within its tolerance that the interpolator gave. *)
Theorem detect_invariant
    (fuel : nat) (interp0 : Interpolator) (evs : list Event) (n : nat)
    (prev next : Point) (vs vs' : list float) (actions : requiredActions) :
  detect fuel interp0 evs n prev next vs = Ret (actions, vs') ->
  (n <= length evs)%nat
  /\ length vs' = length vs
  /\ (forall i e, (i < n)%nat -> nth_error evs i = Some e ->
                  nth_error vs' i = Some (Cross e next))
  /\ Forall (fun a =>
               (index a < n)%nat
               /\ exists e, nth_error evs (index a) = Some e
                            /\ (abs (Cross e (point a)) <? Tolerance e) = true
                            /\ interp0 prev next (Time (point a)) = Ret (Value (point a)))
            actions.
Proof.
  unfold detect, forRange. intros H.
  apply (detect_from fuel interp0 evs prev next n
           (fun a =>
              (index a < n)%nat
              /\ exists e, nth_error evs (index a) = Some e
                           /\ (abs (Cross e (point a)) <? Tolerance e) = true
                           /\ interp0 prev next (Time (point a)) = Ret (Value (point a))))
    in H.
  - cbn [fst snd] in H. destruct H as (HL & Hn & Hv & Ha).
    repeat split; auto. destruct Hn as [->|Hn]; lia.
  - intros i e p Hi He Hf. cbn [index point]. split; [exact Hi|].
    exists e. split; [exact He|]. exact (FindPoint_found _ _ _ _ _ _ Hf).
  - lia.
  - cbn [snd]. intros i e Hi. lia.
  - constructor.
Qed.

Lemma detect_invariant_witness :
  let evs := twoEvents 0.001 in
  let prev := mkPoint 0 [0] in
  let next := mkPoint 3 [3] in
  map (fun a => (index a, Time (point a))) twoEventActions
    = [(0%nat, 2.0009765625); (1%nat, 0.9990234375)]
  /\ (2 <= length evs)%nat
  /\ length [1; 2] = length [-2; -1]
  /\ (forall i e, (i < 2)%nat -> nth_error evs i = Some e ->
                  nth_error [1; 2] i = Some (Cross e next))
  /\ Forall (fun a =>
               (index a < 2)%nat
               /\ exists e, nth_error evs (index a) = Some e
                            /\ (abs (Cross e (point a)) <? Tolerance e) = true
                            /\ LinearInterpolator prev next (Time (point a))
                               = Ret (Value (point a)))
            twoEventActions.
Proof.
  intros evs prev next. split; [vm_compute; reflexivity|].
  apply (detect_invariant 99 LinearInterpolator evs 2 prev next [-2; -1] [1; 2]
           twoEventActions).
  vm_compute. reflexivity.
Defined.

(** ** The cache never grows to the right through [Get] *)

Lemma at_last (l : list Point) (x : Point) :
  at_ (l ++ [x]) (len (l ++ [x]) - 1) = Ret x.
Proof.
  unfold at_, len. rewrite length_app. cbn [length].
  destruct (Z.ltb_spec (Z.of_nat (length l + 1) - 1) 0); [lia|].
  replace (Z.to_nat (Z.of_nat (length l + 1) - 1)) with (length l) by lia.
  unfold load. rewrite nth_error_app2 by lia. rewrite Nat.sub_diag. reflexivity.
Qed.

Lemma at_last_inv (l : list Point) (p : Point) :
  at_ l (len l - 1) = Ret p -> exists l0, l = l0 ++ [p].
Proof.
  destruct l as [|a l']; [discriminate|].
  destruct (exists_last (l := a :: l')) as (l0 & x & E); [discriminate|].
  rewrite E, at_last. intros H. injection H as <-. exists l0. reflexivity.
Qed.

Lemma last_cons_default {A : Type} (l : list A) (x d d' : A) :
  last (x :: l) d = last (x :: l) d'.
Proof.
  revert x. induction l as [|y l IH]; intros x; [reflexivity|].
  change (last (y :: l) d = last (y :: l) d'). apply IH.
Qed.

Lemma expandBackwardLoop_inv (t0 : float) :
  forall fuel c s current vals l ok c',
    CacheSolver.expandBackwardLoop fuel t0 c s current vals = (l, Ret (ok, c')) ->
    CacheSolver.forward c' = CacheSolver.forward c
    /\ CacheSolver.forStep c' = CacheSolver.forStep c
    /\ CacheSolver.evs c' = CacheSolver.evs c
    /\ CacheSolver.interp c' = CacheSolver.interp c
    /\ exists ext,
         CacheSolver.backward c' = CacheSolver.backward c ++ ext
         /\ (ok = true -> (t0 <? Time (last ext current)) = false).
Proof.
  induction fuel as [|fuel IH]; intros c s current vals l ok c' H; [discriminate|].
  cbn [CacheSolver.expandBackwardLoop] in H.
  destruct (t0 <? Time current) eqn:Eg.
  - apply bind_inv in H. destruct H as (l1 & [next s1] & l2 & _ & H & ->).
    destruct next as [next|].
    + apply bind_inv in H. destruct H as (l3 & [actions vals1] & l4 & _ & H & ->).
      apply bind_inv in H. destruct H as (l5 & continue & l6 & _ & H & ->).
      destruct continue; cbn [negb] in H.
      * apply IH in H. cbn in H. destruct H as (Hf & Hs & He & Hi & ext & Hb & Hok).
        repeat split; auto.
        exists (Point_Clone next :: ext). split.
        -- rewrite Hb, <- app_assoc. reflexivity.
        -- intros Ho. specialize (Hok Ho).
           destruct ext as [|x ext]; [exact Hok|].
           change (last (Point_Clone next :: x :: ext) current)
             with (last (x :: ext) current).
           rewrite (last_cons_default ext x current (Point_Clone next)). exact Hok.
      * apply ret_inv in H. destruct H as [H _]. injection H as <- <-.
        cbn. repeat split. exists []. rewrite app_nil_r. split; [reflexivity|].
        discriminate.
    + apply ret_inv in H. destruct H as [H _]. injection H as <- <-.
      cbn. repeat split. exists []. rewrite app_nil_r. split; [reflexivity|].
      discriminate.
  - apply ret_inv in H. destruct H as [H _]. injection H as <- <-.
    cbn. repeat split. exists []. rewrite app_nil_r. split; [reflexivity|].
    intros _. exact Eg.
Qed.

Lemma expandBackward_inv (fuel : nat) (c c' : CacheSolver.t) (t0 : float)
    (l : list call) (ok : bool) :
  CacheSolver.expandBackward fuel c t0 = (l, Ret (ok, c')) ->
  CacheSolver.forward c' = CacheSolver.forward c
  /\ CacheSolver.forStep c' = CacheSolver.forStep c
  /\ CacheSolver.evs c' = CacheSolver.evs c
  /\ CacheSolver.interp c' = CacheSolver.interp c
  /\ exists ext, CacheSolver.backward c' = CacheSolver.backward c ++ ext.
Proof.
  unfold CacheSolver.expandBackward. destruct (CacheSolver.backStep c) as [s|].
  - intros H. apply bind_inv in H. destruct H as (l1 & current & l2 & _ & H & ->).
    apply expandBackwardLoop_inv in H.
    destruct H as (Hf & Hs & He & Hi & ext & Hb & _). repeat split; auto.
    exists ext. exact Hb.
  - intros H. apply ret_inv in H. destruct H as [H _]. injection H as <- <-.
    repeat split. exists []. rewrite app_nil_r. reflexivity.
Qed.

Lemma expandForward_beyond_End (fuel : nat) (c c' : CacheSolver.t) (t0 e : float)
    (l : list call) (ok : bool) :
  CacheSolver.End c = Ret e -> (e <? t0) = true ->
  CacheSolver.expandForward fuel c t0 = (l, Ret (ok, c')) ->
  l = []
  /\ CacheSolver.forward c' = CacheSolver.forward c
  /\ CacheSolver.backward c' = CacheSolver.backward c
  /\ CacheSolver.evs c' = CacheSolver.evs c
  /\ CacheSolver.interp c' = CacheSolver.interp c.
Proof.
  unfold CacheSolver.End, CacheSolver.expandForward. intros He Hlt.
  destruct (at_ (CacheSolver.forward c) (len (CacheSolver.forward c) - 1))
    as [p| |]; try discriminate.
  cbn [obind] in He. injection He as <-.
  destruct (CacheSolver.forStep c) as [s|].
  - rewrite bind_lift_Ret. destruct fuel as [|fuel]; [discriminate|].
    cbn [CacheSolver.expandForwardLoop]. rewrite (ltb_not_gt _ _ Hlt).
    intros H. apply ret_inv in H. destruct H as [H ->]. injection H as <- <-.
    cbn. repeat split.
  - intros H. apply ret_inv in H. destruct H as [H ->]. injection H as <- <-.
    repeat split.
Qed.

(** X17: [CacheSolver.Get] never extends the cache to the right.  Whenever it
    returns, the forward list is what it was, whatever the time asked; the
    backward list keeps its points and may have gained some, and the events
    and the interpolator are the same. *)
Theorem CacheSolver_Get_never_extends_forward
    (fuel : nat) (c c' : CacheSolver.t) (t0 : float)
    (l : list call) (x : option (list float)) (ok : bool) :
  CacheSolver.Get fuel c t0 = (l, Ret (x, ok, c')) ->
  CacheSolver.forward c' = CacheSolver.forward c
  /\ (exists ext, CacheSolver.backward c' = CacheSolver.backward c ++ ext)
  /\ CacheSolver.evs c' = CacheSolver.evs c
  /\ CacheSolver.interp c' = CacheSolver.interp c.
Proof.
  unfold CacheSolver.Get. intros H.
  apply bind_inv in H. destruct H as (l1 & start & l2 & _ & H & ->).
  apply bind_inv in H. destruct H as (l3 & [ok1 c1] & l4 & H1 & H & ->).
  assert (I1 : CacheSolver.forward c1 = CacheSolver.forward c
               /\ CacheSolver.evs c1 = CacheSolver.evs c
               /\ CacheSolver.interp c1 = CacheSolver.interp c
               /\ exists ext, CacheSolver.backward c1 = CacheSolver.backward c ++ ext).
  { destruct (t0 <? start).
    - apply expandBackward_inv in H1. destruct H1 as (Hf & _ & He & Hi & Hb). auto.
    - apply ret_inv in H1. destruct H1 as [H1 _]. injection H1 as <- <-.
      repeat split. exists []. rewrite app_nil_r. reflexivity. }
  destruct I1 as (Hf1 & He1 & Hi1 & Hb1).
  destruct ok1; cbn [negb] in H.
  - apply bind_inv in H. destruct H as (l5 & e & l6 & HE & H & ->).
    apply lift_inv in HE. destruct HE as [HE _].
    apply bind_inv in H. destruct H as (l7 & [ok2 c2] & l8 & H2 & H & ->).
    assert (I2 : CacheSolver.forward c2 = CacheSolver.forward c1
                 /\ CacheSolver.backward c2 = CacheSolver.backward c1
                 /\ CacheSolver.evs c2 = CacheSolver.evs c1
                 /\ CacheSolver.interp c2 = CacheSolver.interp c1).
    { destruct (e <? t0) eqn:Elt.
      - apply (expandForward_beyond_End _ _ _ _ _ _ _ HE Elt) in H2. tauto.
      - apply ret_inv in H2. destruct H2 as [H2 _]. injection H2 as <- <-. auto. }
    destruct I2 as (Hf2 & Hb2 & He2 & Hi2).
    assert (c' = c2) as ->.
    { destruct ok2; cbn [negb] in H.
      - apply bind_inv in H. destruct H as (l9 & v & l10 & _ & H & ->).
        apply ret_inv in H. destruct H as [H _]. congruence.
      - apply ret_inv in H. destruct H as [H _]. congruence. }
    repeat split; try congruence. rewrite Hb2. exact Hb1.
  - apply ret_inv in H. destruct H as [H _]. injection H as <- <- <-.
    repeat split; auto.
Qed.

Lemma CacheSolver_Get_never_extends_forward_witness :
  let c := CacheSolve (Euler 1) unitSlope LinearInterpolator [] in
  match CacheSolver.Get 5 c (-1) with
  | (l, Ret (x, ok, c')) =>
      (x = Some [-1] /\ ok = true /\ CacheSolver.backward c' = [mkPoint (0 + -1) [-1]])
      /\ CacheSolver.forward c' = CacheSolver.forward c
      /\ (exists ext, CacheSolver.backward c' = CacheSolver.backward c ++ ext)
      /\ CacheSolver.evs c' = CacheSolver.evs c
      /\ CacheSolver.interp c' = CacheSolver.interp c
  | _ => False
  end.
Proof.
  intros c.
  destruct (CacheSolver.Get 5 c (-1)) as [l [[[x ok] c']| |]] eqn:E;
    try (vm_compute in E; discriminate).
  split.
  - vm_compute in E. injection E as _ <- <- <-. repeat split.
  - exact (CacheSolver_Get_never_extends_forward 5 c c' (-1) l x ok E).
Defined.

(** ** Asking the cache for a time beyond its end *)

Lemma increasing_below_last (l : list Point) (x : Point) :
  increasing (l ++ [x]) -> Forall (fun p => (Time p <? Time x) = true) l.
Proof.
  unfold increasing. induction l as [|a l IH]; intros H; [constructor|].
  cbn [app] in H. apply Sorted_inv in H. destruct H as [Hs Hh].
  specialize (IH Hs). constructor; [|exact IH].
  destruct l as [|b l].
  - cbn in Hh. apply HdRel_inv in Hh. exact Hh.
  - cbn in Hh. apply HdRel_inv in Hh. apply Forall_inv in IH.
    exact (ltb_trans _ _ _ Hh IH).
Qed.

Lemma scan_all_below (t : float) :
  forall rest i, Forall (fun p => (Time p <? t) = true) rest ->
                 CacheSolver.scan t rest i = Panic.
Proof.
  induction rest as [|p rest IH]; intros i H; [reflexivity|].
  cbn [CacheSolver.scan]. rewrite (Forall_inv H). apply IH.
  exact (Forall_inv_tail H).
Qed.

(** X18: on a cache with no backward points and a forward list at increasing
    times, [Get] at a time beyond [End()] does not step: it makes no call,
    and it panics in the lookup when the cache has a forward stepper, and
    returns [(nil, false)] when it has none. *)
Theorem CacheSolver_Get_beyond_End
    (fuel : nat) (c : CacheSolver.t) (t0 e : float) :
  increasing (CacheSolver.forward c) ->
  CacheSolver.backward c = [] ->
  CacheSolver.End c = Ret e ->
  (e <? t0) = true ->
  CacheSolver.Get (S fuel) c t0
  = ([], match CacheSolver.forStep c with
         | Some _ => Panic
         | None => Ret (None, false, c)
         end).
Proof.
  intros Hinc Hb HE Hlt.
  pose proof HE as HE'. unfold CacheSolver.End in HE'.
  destruct (at_ (CacheSolver.forward c) (len (CacheSolver.forward c) - 1))
    as [p| |] eqn:Ea; try discriminate.
  cbn [obind] in HE'. injection HE' as <-.
  destruct (at_last_inv _ _ Ea) as (l0 & El).
  rewrite El in Hinc. pose proof (increasing_below_last _ _ Hinc) as Hbelow.
  assert (Hall : Forall (fun q => (Time q <? t0) = true) (CacheSolver.forward c)).
  { rewrite El. apply Forall_app. split.
    - eapply Forall_impl; [|exact Hbelow]. intros q Hq. exact (ltb_trans _ _ _ Hq Hlt).
    - constructor; [exact Hlt|constructor]. }
  assert (Hfirst : exists first rest,
             CacheSolver.forward c = first :: rest /\ (Time first <? t0) = true
             /\ Forall (fun q => (Time q <? t0) = true) rest).
  { destruct (CacheSolver.forward c) as [|first rest]; [destruct l0; discriminate|].
    exists first, rest. split; [reflexivity|]. split.
    - exact (Forall_inv Hall).
    - exact (Forall_inv_tail Hall). }
  destruct Hfirst as (first & rest & Ef & Hf & Hrest).
  assert (HS : CacheSolver.Start c = Ret (Time first)).
  { unfold CacheSolver.Start. rewrite Hb, Ef. reflexivity. }
  unfold CacheSolver.Get. rewrite HS, bind_lift_Ret, (ltb_not_gt _ _ Hf), bind_ret.
  cbn [negb]. rewrite HE, bind_lift_Ret, Hlt.
  unfold CacheSolver.expandForward.
  destruct (CacheSolver.forStep c) as [s|] eqn:Es.
  - rewrite Ea, bind_lift_Ret. cbn [CacheSolver.expandForwardLoop].
    rewrite (ltb_not_gt _ _ Hlt), bind_ret. cbn [negb].
    unfold CacheSolver.lookup, CacheSolver.withForward. cbn [CacheSolver.forward].
    rewrite Ef. cbn [load nth_error obind skipn]. rewrite (ltb_leb _ _ Hf).
    rewrite (scan_all_below t0 rest 1 Hrest). reflexivity.
  - rewrite bind_ret. reflexivity.
Qed.

Lemma CacheSolver_Get_beyond_End_witness :
  CacheSolver.Get 1 cacheToEnd 2 = ([], Panic).
Proof.
  apply (CacheSolver_Get_beyond_End 0 cacheToEnd 2 (0 + 0.25 + 0.25 + 0.25 + 0.25)).
  - unfold increasing. vm_compute. repeat constructor.
  - reflexivity.
  - vm_compute. reflexivity.
  - vm_compute. reflexivity.
Defined.

(** X19 is [CacheSolver_lookup_forward_brackets] above; here on the cache
    stepped to the end of the domain, asked at time 0.6, between the stored
    points at 0.5 and 0.75. *)
Lemma CacheSolver_lookup_forward_brackets_witness :
  exists i lo hi,
    nth_error (CacheSolver.forward cacheToEnd) i = Some lo
    /\ nth_error (CacheSolver.forward cacheToEnd) (S i) = Some hi
    /\ (i = 0%nat \/ (Time lo <? 0.6) = true)
    /\ (Time hi <? 0.6) = false
    /\ CacheSolver.lookup cacheToEnd 0.6 = CacheSolver.interp cacheToEnd lo hi 0.6.
Proof.
  apply (CacheSolver_lookup_forward_brackets cacheToEnd 0.6
           (0 + 0.25 + 0.25 + 0.25 + 0.25) (mkPoint 0 [1])
           (tl (CacheSolver.forward cacheToEnd))).
  - vm_compute. reflexivity.
  - vm_compute. discriminate.
  - vm_compute. reflexivity.
  - vm_compute. reflexivity.
  - vm_compute. reflexivity.
Defined.

(** ** Stepping the cache to the end of the domain *)

Lemma stepUntilLoop_appends
    (interp0 : Interpolator) (evs : list Event) :
  forall fuel s prev vs (u : list Point) l i ok s' u',
    stepUntilLoop interp0 (Some (fun p l => l ++ [Point_Clone p])) evs
                  fuel s prev vs u = (l, Ret (i, ok, s', u')) ->
    exists ext, u' = u ++ ext.
Proof.
  induction fuel as [|fuel IH]; intros s prev vs u l i ok s' u' H; [discriminate|].
  cbn [stepUntilLoop] in H.
  apply bind_inv in H. destruct H as (l1 & [next s1] & l2 & _ & H & ->).
  destruct next as [pt|].
  - apply bind_inv in H. destruct H as (l3 & [actions vs1] & l4 & _ & H & ->).
    apply bind_inv in H. destruct H as (l5 & acts & l6 & _ & H & ->).
    apply bind_inv in H. destruct H as (l7 & veto & l8 & _ & H & ->).
    destruct veto as [j|].
    + apply ret_inv in H. destruct H as [H _]. injection H as _ _ _ <-.
      exists []. rewrite app_nil_r. reflexivity.
    + apply bind_inv in H. destruct H as (l9 & u1 & l10 & Hc & H & ->).
      unfold callCallback in Hc.
      apply bind_inv in Hc. destruct Hc as (l11 & [] & l12 & _ & Hc & _).
      apply ret_inv in Hc. destruct Hc as [<- _].
      apply IH in H. destruct H as (ext & ->).
      exists (Point_Clone pt :: ext). rewrite <- app_assoc. reflexivity.
  - apply ret_inv in H. destruct H as [H _]. injection H as _ _ _ <-.
    exists []. rewrite app_nil_r. reflexivity.
Qed.

(** X20: when [StepToEnd] returns, the forward list is the old one with
    points added at its end; the backward list, the backward stepper, the
    events and the interpolator are untouched. *)
Theorem CacheSolver_StepToEnd_appends
    (fuel : nat) (c c' : CacheSolver.t) (l : list call) :
  CacheSolver.StepToEnd fuel c = (l, Ret c') ->
  (exists ext, CacheSolver.forward c' = CacheSolver.forward c ++ ext)
  /\ CacheSolver.backward c' = CacheSolver.backward c
  /\ CacheSolver.backStep c' = CacheSolver.backStep c
  /\ CacheSolver.evs c' = CacheSolver.evs c
  /\ CacheSolver.interp c' = CacheSolver.interp c.
Proof.
  unfold CacheSolver.StepToEnd. intros H.
  apply bind_inv in H. destruct H as (l1 & init & l2 & _ & H & ->).
  destruct (CacheSolver.forStep c) as [s|]; [|discriminate].
  apply bind_inv in H. destruct H as (l3 & [[[i ok] s1] fwd] & l4 & Hs & H & ->).
  apply ret_inv in H. destruct H as [<- _].
  unfold StepUntil in Hs. apply stepUntilLoop_appends in Hs.
  cbn. repeat split. exact Hs.
Qed.

Lemma CacheSolver_StepToEnd_appends_witness :
  match CacheSolver.StepToEnd 10 cacheFresh with
  | (l, Ret c') =>
      map Time (CacheSolver.forward c')
      = [0; 0 + 0.25; 0 + 0.25 + 0.25; 0 + 0.25 + 0.25 + 0.25;
         0 + 0.25 + 0.25 + 0.25 + 0.25]
      /\ (exists ext, CacheSolver.forward c' = CacheSolver.forward cacheFresh ++ ext)
      /\ CacheSolver.backward c' = CacheSolver.backward cacheFresh
      /\ CacheSolver.backStep c' = CacheSolver.backStep cacheFresh
      /\ CacheSolver.evs c' = CacheSolver.evs cacheFresh
      /\ CacheSolver.interp c' = CacheSolver.interp cacheFresh
  | _ => False
  end.
Proof.
  destruct (CacheSolver.StepToEnd 10 cacheFresh) as [l [c'| |]] eqn:E;
    try (vm_compute in E; discriminate).
  split.
  - vm_compute in E. injection E as _ <-. vm_compute. reflexivity.
  - exact (CacheSolver_StepToEnd_appends 10 cacheFresh c' l E).
Defined.

(** ** The points of a dense solution *)

Lemma reverseLoop_length {A : Type} (a a' : list A) :
  reverseLoop a = Ret a' -> length a' = length a.
Proof.
  unfold reverseLoop, forRange. intros H.
  apply (forRangeFrom_keeps (fun w => length w = length a)) in H; auto.
  intros i s s' Hs Hb.
  destruct (load s (length a - i)) as [hi| |]; try discriminate. cbn [obind] in Hb.
  destruct (load s i) as [lo| |]; try discriminate. cbn [obind] in Hb.
  destruct (store s i hi) as [s1| |] eqn:E1; try discriminate. cbn [obind] in Hb.
  rewrite (store_length _ _ _ _ Hb), (store_length _ _ _ _ E1). exact Hs.
Qed.

Lemma collect_appends (before : float -> bool) :
  forall fuel s current pts l pts' s',
    collect fuel before s current pts = (l, Ret (pts', s')) ->
    exists ext, pts' = pts ++ ext.
Proof.
  induction fuel as [|fuel IH]; intros s current pts l pts' s' H; [discriminate|].
  cbn [collect] in H. destruct (before (Time current)).
  - apply bind_inv in H. destruct H as (l1 & [next s1] & l2 & _ & H & ->).
    destruct next as [p|].
    + apply IH in H. destruct H as (ext & ->).
      exists (Point_Clone p :: ext). rewrite <- app_assoc. reflexivity.
    + apply ret_inv in H. destruct H as [H _]. injection H as <- _.
      exists []. rewrite app_nil_r. reflexivity.
  - apply ret_inv in H. destruct H as [H _]. injection H as <- _.
    exists []. rewrite app_nil_r. reflexivity.
Qed.

Lemma leftPart_points (method : Method) (ivp : IVP) (start end_ : float)
    (fuel : nat) (l : list call) (pts : list Point) :
  leftPart method ivp start end_ fuel = (l, Ret (Some (pts, false))) -> pts <> [].
Proof.
  unfold leftPart. destruct (end_ <? Time (Start ivp)).
  - intros H. apply bind_inv in H. destruct H as (l1 & [r s1] & l2 & _ & H & ->).
    destruct r as [[prev current]|].
    + apply bind_inv in H. destruct H as (l3 & [pts1 s2] & l4 & Hc & H & ->).
      apply ret_inv in H. destruct H as [H _]. injection H as <-.
      apply collect_appends in Hc. destruct Hc as (ext & ->).
      destruct (Time current <? end_); cbn; discriminate.
    + apply ret_inv in H. destruct H as [H _]. discriminate.
  - intros H. apply bind_inv in H. destruct H as (l1 & [pts1 s1] & l2 & _ & H & ->).
    apply ret_inv in H. destruct H as [H _]. discriminate.
Qed.

(** X21: when [DenseSolve] returns without panicking, either it reports
    [true] and the solution has at least one point and the interpolator
    given, or it reports [false] and the solution is the zero value. *)
Theorem DenseSolve_result_shape
    (method : Method) (ivp : IVP) (start end_ : float) (interp0 : Interpolator)
    (fuel : nat) (l : list call) (d : DenseSolution) (ok : bool) :
  DenseSolve method ivp start end_ interp0 fuel = (l, Ret (d, ok)) ->
  if ok then points d <> [] /\ interp d = interp0
  else points d = [].
Proof.
  unfold DenseSolve. intros H.
  apply bind_inv in H. destruct H as (l1 & left & l2 & Hl & H & ->).
  destruct left as [[pts pending]|].
  - apply bind_inv in H. destruct H as (l3 & pts1 & l4 & Hr & H & ->).
    apply lift_inv in Hr. destruct Hr as [Hr _]. apply reverseLoop_length in Hr.
    destruct (Time (Start ivp) <? start).
    + apply bind_inv in H. destruct H as (l5 & [r s1] & l6 & _ & H & ->).
      destruct r as [[prev current]|].
      * apply bind_inv in H. destruct H as (l7 & [pts2 s2] & l8 & Hc & H & ->).
        apply ret_inv in H. destruct H as [H _]. injection H as <- <-.
        apply collect_appends in Hc. destruct Hc as (ext & ->).
        cbn [points interp]. split; [|reflexivity].
        destruct (start <? Time current); intros E;
          apply app_eq_nil in E; destruct E as [E _];
          apply app_eq_nil in E; destruct E as [_ E]; discriminate.
      * apply ret_inv in H. destruct H as [H _]. injection H as <- <-. reflexivity.
    + apply bind_inv in H. destruct H as (l5 & [pts2 s2] & l6 & Hc & H & ->).
      apply ret_inv in H. destruct H as [H _]. injection H as <- <-.
      apply collect_appends in Hc. destruct Hc as (ext & ->).
      cbn [points interp]. split; [|reflexivity].
      intros E. apply app_eq_nil in E. destruct E as [E _].
      destruct pending.
      * apply app_eq_nil in E. destruct E as [_ E]. discriminate.
      * apply (leftPart_points _ _ _ _ _ _ _ Hl).
        subst pts1. destruct pts; [reflexivity|discriminate].
  - apply ret_inv in H. destruct H as [H _]. injection H as <- <-. reflexivity.
Qed.

Lemma DenseSolve_result_shape_witness :
  match DenseSolve (Euler 1) riseFrom0 0 3 LinearInterpolator 10 with
  | (l, Ret (d, ok)) =>
      (ok = true /\ map Time (points d) = [0; 0 + 1; 0 + 1 + 1; 0 + 1 + 1 + 1])
      /\ (if ok then points d <> [] /\ interp d = LinearInterpolator
          else points d = [])
  | _ => False
  end.
Proof.
  destruct (DenseSolve (Euler 1) riseFrom0 0 3 LinearInterpolator 10)
    as [l [[d ok]| |]] eqn:E; try (vm_compute in E; discriminate).
  split.
  - vm_compute in E. injection E as _ <- <-. split; vm_compute; reflexivity.
  - exact (DenseSolve_result_shape _ _ _ _ _ _ _ _ _ E).
Defined.

(** ** Exhaustion of the Adams-Bashforth stepper *)

(** X22: once its start-up steps are made, exhaustion of the Adams-Bashforth
    stepper is permanent: a [Next] that returns [(nil, false)] leaves the
    problem as it was and the step at 0, so that every later [NextStep]
    returns [(nil, false)] at once, without evaluating the derivative. *)
Theorem adamsBashford_exhaustion_is_permanent
    (s s' : adamsBashfordStepper.t) (l : list call) :
  adamsBashfordStepper.init s = 0%nat \/ (adamsBashfordStepper.h s =? 0) = true ->
  adamsBashfordStepper.Next s = (l, Ret (None, s')) ->
  (adamsBashfordStepper.h s' =? 0) = true
  /\ adamsBashfordStepper.problem s' = adamsBashfordStepper.problem s
  /\ forall h0, adamsBashfordStepper.NextStep h0 s' = ([], Ret (None, s')).
Proof.
  intros Hphase H.
  assert (Hs : (adamsBashfordStepper.h s' =? 0) = true
               /\ adamsBashfordStepper.problem s' = adamsBashfordStepper.problem s).
  { revert H. unfold adamsBashfordStepper.Next, adamsBashfordStepper.NextStep.
    destruct (adamsBashfordStepper.h s =? 0) eqn:Eh.
    - intros H. apply ret_inv in H. destruct H as [H _]. injection H as <-. auto.
    - destruct Hphase as [Hi|Hz]; [|discriminate]. rewrite Hi. cbn [Nat.eqb negb].
      intros H.
      apply bind_inv in H. destruct H as (l1 & [d ok] & l2 & _ & H & _).
      apply bind_inv in H. destruct H as (l3 & steps1 & l4 & _ & H & _).
      destruct ok; cbn [negb] in H.
      + apply bind_inv in H. destruct H as (l5 & v & l6 & _ & H & _).
        apply bind_inv in H. destruct H as (l7 & steps2 & l8 & _ & H & _).
        apply bind_inv in H. destruct H as (l9 & steps3 & l10 & _ & H & _).
        apply ret_inv in H. destruct H as [H _]. discriminate.
      + apply ret_inv in H. destruct H as [H _]. injection H as <-.
        split; reflexivity. }
  destruct Hs as [Hz Hp]. split; [exact Hz|]. split; [exact Hp|].
  intros h0. unfold adamsBashfordStepper.NextStep. rewrite Hz. reflexivity.
Qed.

(** The stepper of step [0.25] on [decayUntil1] after its three start-up
    steps and one Adams-Bashforth step stands at time 1, where the domain
    ends. *)
Lemma adamsBashford_exhaustion_is_permanent_witness :
  let s := adamsBashfordAfter 4 (adamsBashfordMethod.Forward 0.25 decayUntil1) in
  adamsBashfordStepper.init s = 0%nat
  /\ Time (Start (adamsBashfordStepper.problem s)) = 0 + 0.25 + 0.25 + 0.25 + 0.25
  /\ match adamsBashfordStepper.Next s with
     | (l, Ret (None, s')) =>
         (adamsBashfordStepper.h s' =? 0) = true
         /\ adamsBashfordStepper.problem s' = adamsBashfordStepper.problem s
         /\ forall h0, adamsBashfordStepper.NextStep h0 s' = ([], Ret (None, s'))
     | _ => False
     end.
Proof.
  intros s.
  assert (Hi : adamsBashfordStepper.init s = 0%nat) by (vm_compute; reflexivity).
  split; [exact Hi|]. split; [vm_compute; reflexivity|].
  destruct (adamsBashfordStepper.Next s) as [l [[[p|] s']| |]] eqn:E;
    try (vm_compute in E; discriminate).
  exact (adamsBashford_exhaustion_is_permanent s s' l (or_introl Hi) E).
Defined.

(** ** The predictor-corrector stepper never leaves its start-up phase *)

(** X23: [pcStepper.NextStep] never decrements [init], so a stepper in its
    start-up phase stays in it: its step is the step of the fixed-step RK4
    stepper on the same problem (same calls, same point or failure, same
    problem afterwards), and the Adams-Bashforth-Moulton branch is never
    reached. *)
Theorem pcStepper_never_leaves_bootstrap (s : pcStepper.t) (h0 : float) :
  bootstrapping s ->
  exists l o,
    fixedStepper.NextStep h0 (rk4Of s) = (l, o)
    /\ match o with
       | Ret (p, f') =>
           exists s', pcStepper.NextStep h0 s = (l, Ret (p, s'))
                      /\ rk4Of s' = f'
                      /\ pcStepper.init s' = pcStepper.init s
                      /\ bootstrapping s'
       | Panic => pcStepper.NextStep h0 s = (l, Panic)
       | Spin => pcStepper.NextStep h0 s = (l, Spin)
       end.
Proof.
  intros (Hh & Hi & Hl).
  destruct s as [steps problem h init]. unfold bootstrapping, rk4Of in *.
  cbn [pcStepper.h pcStepper.init pcStepper.steps pcStepper.problem] in *.
  unfold fixedStepper.NextStep, pcStepper.NextStep, rk4Step.
  cbn [pcStepper.h pcStepper.init pcStepper.steps pcStepper.problem
       fixedStepper.method fixedStepper.state fixedStepper.step].
  rewrite Hh.
  destruct steps as [|a [|b [|c [|d [|e [|x r]]]]]]; try discriminate.
  assert (Hinit : init = 1%nat \/ init = 2%nat \/ init = 3%nat) by lia.
  destruct (RK4Step problem h0) as [l1 [[[ivp deriv] ok]| |]].
  - destruct ok.
    + destruct Hinit as [-> | [-> | ->]]; cbn; rewrite ?app_nil_r;
        eexists; eexists; (split; [reflexivity|]); cbn;
        eexists; (split; [reflexivity|]); cbn; repeat split; auto; lia.
    + destruct Hinit as [-> | [-> | ->]]; cbn; rewrite ?app_nil_r;
        eexists; eexists; (split; [reflexivity|]); cbn;
        eexists; (split; [reflexivity|]); cbn; repeat split; auto; lia.
  - destruct Hinit as [-> | [-> | ->]]; cbn;
      eexists; eexists; (split; [reflexivity|]); reflexivity.
  - destruct Hinit as [-> | [-> | ->]]; cbn;
      eexists; eexists; (split; [reflexivity|]); reflexivity.
Qed.

Lemma pcStepper_never_leaves_bootstrap_witness :
  let s := pcMethod.Forward 0.5 decay in
  bootstrapping s
  /\ exists l o,
       fixedStepper.NextStep 0.5 (rk4Of s) = (l, o)
       /\ match o with
          | Ret (p, f') =>
              exists s', pcStepper.NextStep 0.5 s = (l, Ret (p, s'))
                         /\ rk4Of s' = f'
                         /\ pcStepper.init s' = pcStepper.init s
                         /\ bootstrapping s'
          | Panic => pcStepper.NextStep 0.5 s = (l, Panic)
          | Spin => pcStepper.NextStep 0.5 s = (l, Spin)
          end.
Proof.
  intros s.
  assert (B : bootstrapping s).
  { unfold bootstrapping. split; [reflexivity|]. split; [cbn; lia|reflexivity]. }
  split; [exact B|].
  exact (pcStepper_never_leaves_bootstrap s 0.5 B).
Defined.

(** ** Root finding *)

(** X24: when [NewtonRoot1D] returns [(x, true)], [x] is one Newton step
    [prev - f(prev)/df(prev)] from a point where both functions were
    defined, and that step was at most the tolerance in absolute value; when
    it returns [(x, false)], [x] is 0 and one of the two functions was not
    defined at the last point tried. *)
Theorem NewtonRoot1D_postcondition
    (tolerance : float) (f df : float -> M (float * bool)) :
  forall (fuel : nat) (x0 : float) (l : list call) (x : float) (ok : bool),
    NewtonRoot1D fuel x0 tolerance f df = (l, Ret (x, ok)) ->
    if ok then
      exists prev lf fprev ldf dfprev,
        f prev = (lf, Ret (fprev, true))
        /\ df prev = (ldf, Ret (dfprev, true))
        /\ x = prev - fprev / dfprev
        /\ (abs (fprev / dfprev) <=? tolerance) = true
    else
      x = 0
      /\ exists prev lf fprev,
           f prev = (lf, Ret (fprev, false))
           \/ exists ldf dfprev, df prev = (ldf, Ret (dfprev, false)).
Proof.
  induction fuel as [|fuel IH]; intros x0 l x ok H; [discriminate|].
  cbn [NewtonRoot1D] in H.
  apply bind_inv in H. destruct H as (l1 & [fprev ok1] & l2 & Hf & H & ->).
  destruct ok1; cbn [negb] in H.
  - apply bind_inv in H. destruct H as (l3 & [dfprev ok2] & l4 & Hd & H & ->).
    destruct ok2; cbn [negb] in H.
    + destruct (abs (fprev / dfprev) <=? tolerance) eqn:Et.
      * apply ret_inv in H. destruct H as [H _]. injection H as <- <-.
        exists x0, l1, fprev, l3, dfprev. auto.
      * exact (IH _ _ _ _ H).
    + apply ret_inv in H. destruct H as [H _]. injection H as <- <-.
      split; [reflexivity|]. exists x0, l1, fprev. right. exists l3, dfprev. exact Hd.
  - apply ret_inv in H. destruct H as [H _]. injection H as <- <-.
    split; [reflexivity|]. exists x0, l1, fprev. left. exact Hf.
Qed.

Lemma NewtonRoot1D_postcondition_witness :
  match NewtonRoot1D 10 1 0.0009765625 squareMinus2 twice with
  | (l, Ret (x, ok)) =>
      (ok = true /\ (abs (x * x - 2) <? 0.0009765625) = true)
      /\ (if ok then
            exists prev lf fprev ldf dfprev,
              squareMinus2 prev = (lf, Ret (fprev, true))
              /\ twice prev = (ldf, Ret (dfprev, true))
              /\ x = prev - fprev / dfprev
              /\ (abs (fprev / dfprev) <=? 0.0009765625) = true
          else
            x = 0
            /\ exists prev lf fprev,
                 squareMinus2 prev = (lf, Ret (fprev, false))
                 \/ exists ldf dfprev, twice prev = (ldf, Ret (dfprev, false)))
  | _ => False
  end.
Proof.
  destruct (NewtonRoot1D 10 1 0.0009765625 squareMinus2 twice)
    as [l [[x ok]| |]] eqn:E; try (vm_compute in E; discriminate).
  split.
  - vm_compute in E. injection E as _ <- <-. split; vm_compute; reflexivity.
  - exact (NewtonRoot1D_postcondition _ _ _ _ _ _ _ _ E).
Defined.

Lemma secantLoop_postcondition
    (tolerance : float) (f : float -> M (float * bool)) :
  forall (fuel : nat) (prev fprev cur fcur : float) (l : list call)
         (x : float) (ok : bool),
    (exists lp, f prev = (lp, Ret (fprev, true))) ->
    (exists lc, f cur = (lc, Ret (fcur, true))) ->
    secantLoop fuel tolerance f prev fprev cur fcur = (l, Ret (x, ok)) ->
    if ok then
      exists prev lp fprev cur lc fcur,
        f prev = (lp, Ret (fprev, true))
        /\ f cur = (lc, Ret (fcur, true))
        /\ x = cur - fcur * (prev - cur) / (fprev - fcur)
        /\ (abs (fcur * (prev - cur) / (fprev - fcur)) <=? tolerance) = true
    else
      x = 0 /\ exists next ln fnext, f next = (ln, Ret (fnext, false)).
Proof.
  induction fuel as [|fuel IH]; intros prev fprev cur fcur l x ok Hp Hc H;
    [discriminate|].
  cbn [secantLoop] in H.
  destruct (abs (fcur * (prev - cur) / (fprev - fcur)) <=? tolerance) eqn:Et.
  - apply ret_inv in H. destruct H as [H _]. injection H as <- <-.
    destruct Hp as (lp & Hp). destruct Hc as (lc & Hc).
    exists prev, lp, fprev, cur, lc, fcur. auto.
  - apply bind_inv in H. destruct H as (l1 & [fnext ok1] & l2 & Hn & H & ->).
    destruct ok1; cbn [negb] in H.
    + eapply IH; [exact Hc| |exact H]. exists l1. exact Hn.
    + apply ret_inv in H. destruct H as [H _]. injection H as <- <-.
      split; [reflexivity|]. eexists; eexists; eexists; exact Hn.
Qed.

(** X25: when [SecantRoot1D] returns [(x, true)], [x] is one secant step from
    two points where the function was defined, and that step was at most the
    tolerance in absolute value; when it returns [(x, false)], [x] is 0 and
    the function was not defined at some point tried. *)
Theorem SecantRoot1D_postcondition
    (fuel : nat) (x0 x1 tolerance : float) (f : float -> M (float * bool))
    (l : list call) (x : float) (ok : bool) :
  SecantRoot1D fuel x0 x1 tolerance f = (l, Ret (x, ok)) ->
  if ok then
    exists prev lp fprev cur lc fcur,
      f prev = (lp, Ret (fprev, true))
      /\ f cur = (lc, Ret (fcur, true))
      /\ x = cur - fcur * (prev - cur) / (fprev - fcur)
      /\ (abs (fcur * (prev - cur) / (fprev - fcur)) <=? tolerance) = true
  else
    x = 0 /\ exists next ln fnext, f next = (ln, Ret (fnext, false)).
Proof.
  unfold SecantRoot1D. intros H.
  apply bind_inv in H. destruct H as (l1 & [fprev ok1] & l2 & Hp & H & ->).
  destruct ok1; cbn [negb] in H.
  - apply bind_inv in H. destruct H as (l3 & [fcur ok2] & l4 & Hc & H & ->).
    destruct ok2; cbn [negb] in H.
    + eapply (secantLoop_postcondition tolerance f fuel x0 fprev x1 fcur);
        [exists l1; exact Hp|exists l3; exact Hc|exact H].
    + apply ret_inv in H. destruct H as [H _]. injection H as <- <-.
      split; [reflexivity|]. eexists; eexists; eexists; exact Hc.
  - apply ret_inv in H. destruct H as [H _]. injection H as <- <-.
    split; [reflexivity|]. eexists; eexists; eexists; exact Hp.
Qed.

Lemma SecantRoot1D_postcondition_witness :
  match SecantRoot1D 10 1 2 0.0009765625 squareMinus2 with
  | (l, Ret (x, ok)) =>
      (ok = true /\ (abs (x * x - 2) <? 0.0009765625) = true)
      /\ (if ok then
            exists prev lp fprev cur lc fcur,
              squareMinus2 prev = (lp, Ret (fprev, true))
              /\ squareMinus2 cur = (lc, Ret (fcur, true))
              /\ x = cur - fcur * (prev - cur) / (fprev - fcur)
              /\ (abs (fcur * (prev - cur) / (fprev - fcur)) <=? 0.0009765625) = true
          else
            x = 0
            /\ exists next ln fnext, squareMinus2 next = (ln, Ret (fnext, false)))
  | _ => False
  end.
Proof.
  destruct (SecantRoot1D 10 1 2 0.0009765625 squareMinus2)
    as [l [[x ok]| |]] eqn:E; try (vm_compute in E; discriminate).
  split.
  - vm_compute in E. injection E as _ <- <-. split; vm_compute; reflexivity.
  - exact (SecantRoot1D_postcondition _ _ _ _ _ _ _ _ E).
Defined.

(** ** The implicit steppers *)

(** X26: a successful [NextStep(h)] of the implicit Euler stepper moves the
    time by the stepper's own [step], whatever [h] is; it replaces component
    0 of the value and keeps the others, and the point returned is the new
    current point.  A failed one leaves the stepper as it was. *)
Theorem implicitEuler_NextStep_moves_by_step
    (fuel : nat) (h : float) (s s' : implicitEulerStepper.t)
    (l : list call) (r : option Point) :
  implicitEulerStepper.NextStep fuel h s = (l, Ret (r, s')) ->
  match r with
  | Some p =>
      implicitEulerStepper.current s' = p
      /\ Time p = Time (implicitEulerStepper.current s) + implicitEulerStepper.step s
      /\ length (Value p) = length (Value (implicitEulerStepper.current s))
      /\ tl (Value p) = tl (Value (implicitEulerStepper.current s))
      /\ implicitEulerStepper.step s' = implicitEulerStepper.step s
      /\ implicitEulerStepper.f s' = implicitEulerStepper.f s
  | None => s' = s
  end.
Proof.
  unfold implicitEulerStepper.NextStep. intros H.
  apply bind_inv in H. destruct H as (l1 & value & l2 & _ & H & ->).
  apply bind_inv in H. destruct H as (l3 & x0 & l4 & _ & H & ->).
  apply bind_inv in H. destruct H as (l5 & [result0 ok] & l6 & _ & H & ->).
  destruct ok; cbn [negb] in H.
  - apply bind_inv in H. destruct H as (l7 & v & l8 & Hv & H & ->).
    apply lift_inv in Hv. destruct Hv as [Hv _].
    apply ret_inv in H. destruct H as [H _]. injection H as <- <-.
    cbn. repeat split.
    + exact (store_length _ _ _ _ Hv).
    + destruct (Value (implicitEulerStepper.current s)) as [|y rest]; [discriminate|].
      cbn in Hv. injection Hv as <-. reflexivity.
  - apply ret_inv in H. destruct H as [H _]. injection H as <- <-. reflexivity.
Qed.

Lemma implicitEuler_NextStep_moves_by_step_witness :
  let s := implicitEulerMethod.Forward
             (implicitEulerMethod.mk decayDy 0.25 0.0009765625) decay in
  match implicitEulerStepper.NextStep 10 0.5 s with
  | (l, Ret (Some p, s')) =>
      implicitEulerStepper.current s' = p
      /\ Time p = 0 + 0.25
      /\ length (Value p) = 1%nat
      /\ tl (Value p) = []
      /\ implicitEulerStepper.step s' = 0.25
      /\ implicitEulerStepper.f s' = implicitEulerStepper.f s
  | _ => False
  end.
Proof.
  intros s.
  destruct (implicitEulerStepper.NextStep 10 0.5 s) as [l [[[p|] s']| |]] eqn:E;
    try (vm_compute in E; discriminate).
  exact (implicitEuler_NextStep_moves_by_step 10 0.5 s s' l (Some p) E).
Defined.

(** X27: a successful [NextStep(h)] of the trapezium stepper moves the time
    by the stepper's own [step], whatever [h] is; it replaces component 0 of
    the value and keeps the others, and the point returned is the new
    current point.  A failed one leaves the stepper as it was. *)
Theorem trapezium_NextStep_moves_by_step
    (fuel : nat) (h : float) (s s' : trapeziumStepper.t)
    (l : list call) (r : option Point) :
  trapeziumStepper.NextStep fuel h s = (l, Ret (r, s')) ->
  match r with
  | Some p =>
      trapeziumStepper.current s' = p
      /\ Time p = Time (trapeziumStepper.current s) + trapeziumStepper.step s
      /\ length (Value p) = length (Value (trapeziumStepper.current s))
      /\ tl (Value p) = tl (Value (trapeziumStepper.current s))
      /\ trapeziumStepper.step s' = trapeziumStepper.step s
      /\ trapeziumStepper.f s' = trapeziumStepper.f s
  | None => s' = s
  end.
Proof.
  unfold trapeziumStepper.NextStep. intros H.
  apply bind_inv in H. destruct H as (l1 & x0 & l2 & _ & H & ->).
  apply bind_inv in H. destruct H as (l3 & [pv ok0] & l4 & _ & H & ->).
  destruct ok0; cbn [negb] in H.
  - apply bind_inv in H. destruct H as (l5 & x1 & l6 & _ & H & ->).
    apply bind_inv in H. destruct H as (l7 & pv0 & l8 & _ & H & ->).
    apply bind_inv in H. destruct H as (l9 & x2 & l10 & _ & H & ->).
    apply bind_inv in H. destruct H as (l11 & [result0 ok] & l12 & _ & H & ->).
    destruct ok; cbn [negb] in H.
    + apply bind_inv in H. destruct H as (l13 & v & l14 & Hv & H & ->).
      apply lift_inv in Hv. destruct Hv as [Hv _].
      apply ret_inv in H. destruct H as [H _]. injection H as <- <-.
      cbn. repeat split.
      * exact (store_length _ _ _ _ Hv).
      * destruct (Value (trapeziumStepper.current s)) as [|y rest]; [discriminate|].
        cbn in Hv. injection Hv as <-. reflexivity.
    + apply ret_inv in H. destruct H as [H _]. injection H as <- <-. reflexivity.
  - apply ret_inv in H. destruct H as [H _]. injection H as <- <-. reflexivity.
Qed.

Lemma trapezium_NextStep_moves_by_step_witness :
  let s := trapeziumMethod.Forward
             (trapeziumMethod.mk decayDy 0.25 0.0009765625) decay in
  match trapeziumStepper.NextStep 10 0.5 s with
  | (l, Ret (Some p, s')) =>
      trapeziumStepper.current s' = p
      /\ Time p = 0 + 0.25
      /\ length (Value p) = 1%nat
      /\ tl (Value p) = []
      /\ trapeziumStepper.step s' = 0.25
      /\ trapeziumStepper.f s' = trapeziumStepper.f s
  | _ => False
  end.
Proof.
  intros s.
  destruct (trapeziumStepper.NextStep 10 0.5 s) as [l [[[p|] s']| |]] eqn:E;
    try (vm_compute in E; discriminate).
  exact (trapezium_NextStep_moves_by_step 10 0.5 s s' l (Some p) E).
Defined.

(** ** Stepping the cache to the beginning of the domain *)

(** X28: when [StepToBeginning] returns, the backward list is the old one
    with points added at its end; the forward list, the forward stepper, the
    events and the interpolator are untouched. *)
Theorem CacheSolver_StepToBeginning_appends
    (fuel : nat) (c c' : CacheSolver.t) (l : list call) :
  CacheSolver.StepToBeginning fuel c = (l, Ret c') ->
  (exists ext, CacheSolver.backward c' = CacheSolver.backward c ++ ext)
  /\ CacheSolver.forward c' = CacheSolver.forward c
  /\ CacheSolver.forStep c' = CacheSolver.forStep c
  /\ CacheSolver.evs c' = CacheSolver.evs c
  /\ CacheSolver.interp c' = CacheSolver.interp c.
Proof.
  unfold CacheSolver.StepToBeginning. intros H.
  apply bind_inv in H. destruct H as (l1 & init & l2 & _ & H & ->).
  destruct (CacheSolver.backStep c) as [s|]; [|discriminate].
  apply bind_inv in H. destruct H as (l3 & [[[i ok] s1] bwd] & l4 & Hs & H & ->).
  apply ret_inv in H. destruct H as [<- _].
  unfold StepUntil in Hs. apply stepUntilLoop_appends in Hs.
  cbn. repeat split. exact Hs.
Qed.

Lemma CacheSolver_StepToBeginning_appends_witness :
  let c := CacheSolve (Euler 1) riseFrom3 LinearInterpolator [] in
  match CacheSolver.StepToBeginning 10 c with
  | (l, Ret c') =>
      map Time (CacheSolver.backward c') = [3 + -1; 3 + -1 + -1; 3 + -1 + -1 + -1]
      /\ (exists ext, CacheSolver.backward c' = CacheSolver.backward c ++ ext)
      /\ CacheSolver.forward c' = CacheSolver.forward c
      /\ CacheSolver.forStep c' = CacheSolver.forStep c
      /\ CacheSolver.evs c' = CacheSolver.evs c
      /\ CacheSolver.interp c' = CacheSolver.interp c
  | _ => False
  end.
Proof.
  intros c.
  destruct (CacheSolver.StepToBeginning 10 c) as [l [c'| |]] eqn:E;
    try (vm_compute in E; discriminate).
  split.
  - vm_compute in E. injection E as _ <-. vm_compute. reflexivity.
  - exact (CacheSolver_StepToBeginning_appends 10 c c' l E).
Defined.

(** ** Stepping the cache forward by a given amount *)

(** X29: [StepForward(h)] on a cache just built over a fixed-step method
    whose update function keeps time and dimension.  When it succeeds the
    value returned is that of a point at the initial time plus [h], of the
    dimension of the initial value, whatever the step of the method is; the
    point is stored after the initial one when [h > 0] and is not stored
    otherwise.  When it fails the cache still holds the initial point alone.
    No backward point appears. *)
Theorem CacheSolver_StepForward_fresh
    (m : FixedStepMethod.t) (ivp : IVP) (interp0 : Interpolator) (evs : list Event)
    (fuel : nat) (h : float) (l : list call)
    (x : option (list float)) (ok : bool) (c' : CacheSolver.t) :
  (forall ivp h ivp' ok,
      result (FixedStepMethod.Method m ivp h) = Ret (ivp', ok) -> sameProblem ivp ivp') ->
  CacheSolver_StepForward fuel (CacheSolve (FixedStepMethod_toMethod m) ivp interp0 evs) h
  = (l, Ret (x, ok, c')) ->
  CacheSolver.backward c' = []
  /\ if ok then
       exists p,
         x = Some (Value p)
         /\ Time p = Time (Start ivp) + h
         /\ length (Value p) = length (Value (Start ivp))
         /\ CacheSolver.forward c' = (if 0 <? h then [Start ivp; p] else [Start ivp])
     else x = None /\ CacheSolver.forward c' = [Start ivp].
Proof.
  intros Hm. unfold CacheSolver_StepForward, CacheSolve, FixedStepMethod_toMethod.
  cbn [CacheSolver.forStep Forward FixedStepMethod.Forward fixedStepper.toStepper
       NextStep stepperNextStep stepperState CacheSolver.forward CacheSolver.backward].
  unfold fixedStepper.NextStep, IVP_Clone. cbn [fixedStepper.state fixedStepper.method
                                                fixedStepper.step].
  rewrite !Point_Clone_same.
  intros H.
  apply bind_inv in H. destruct H as (l1 & [point cs] & l2 & H1 & H & ->).
  apply bind_inv in H1. destruct H1 as (l3 & [point1 st1] & l4 & H1 & H2 & ->).
  apply ret_inv in H2. destruct H2 as [H2 _]. injection H2 as <- <-.
  apply bind_inv in H1. destruct H1 as (l5 & [st okm] & l6 & Hmeth & H1 & ->).
  destruct (Hm (mkIVP (Derivative ivp) (Start ivp)) h st okm) as (_ & Ht & Hl).
  { unfold result. rewrite Hmeth. reflexivity. }
  cbn [Start] in Ht, Hl.
  destruct okm; cbn [negb] in H1.
  - apply ret_inv in H1. destruct H1 as [H1 _]. injection H1 as <- <-.
    apply ret_inv in H. destruct H as [H _]. injection H as <- <- <-.
    cbn [CacheSolver.backward CacheSolver.withForward CacheSolver.forward]. split; [reflexivity|].
    exists (mkPoint (Time (Start st) + h) (Value (Start st))).
    split; [reflexivity|]. cbn [Start setStart setTime Time Value].
    rewrite Ht. split; [reflexivity|]. split; [exact Hl|].
    rewrite !Point_Clone_same. destruct (0 <? h); reflexivity.
  - apply ret_inv in H1. destruct H1 as [H1 _]. injection H1 as <- <-.
    apply ret_inv in H. destruct H as [H _]. injection H as <- <- <-.
    cbn. rewrite ?Point_Clone_same. auto.
Qed.

Lemma CacheSolver_StepForward_fresh_witness :
  match CacheSolver_StepForward 10 (CacheSolve (Euler 0.25) decay LinearInterpolator [])
                                0.5 with
  | (l, Ret (x, ok, c')) =>
      (ok = true /\ x = Some [1 + 0.5 * -1])
      /\ CacheSolver.backward c' = []
      /\ (if ok then
            exists p,
              x = Some (Value p)
              /\ Time p = 0 + 0.5
              /\ length (Value p) = 1%nat
              /\ CacheSolver.forward c' = [Start decay; p]
          else x = None /\ CacheSolver.forward c' = [Start decay])
  | _ => False
  end.
Proof.
  destruct (CacheSolver_StepForward 10
              (CacheSolve (Euler 0.25) decay LinearInterpolator []) 0.5)
    as [l [[[x ok] c']| |]] eqn:E; try (vm_compute in E; discriminate).
  split.
  - vm_compute in E. injection E as _ <- <- _. split; reflexivity.
  - exact (CacheSolver_StepForward_fresh (FixedStepMethod.mk 0.25 eulerStep) decay
             LinearInterpolator [] 10 0.5 l x ok c'
             (fun ivp h ivp' ok => eulerStep_contract ivp ivp' h ok) E).
Defined.

(** ** Coordinates for plotting *)

Lemma forRangeFrom_invariant {T : Type} (Inv : nat -> T -> Prop)
    (body : nat -> T -> outcome T) :
  forall n from s,
    (forall i s, (from <= i < from + n)%nat -> Inv i s ->
                 exists s', body i s = Ret s' /\ Inv (S i) s') ->
    Inv from s ->
    exists s', forRangeFrom from n body s = Ret s' /\ Inv (from + n)%nat s'.
Proof.
  induction n as [|n IH]; intros from s Hbody Hs; cbn [forRangeFrom].
  - exists s. rewrite Nat.add_0_r. auto.
  - destruct (Hbody from s) as (s1 & -> & Hs1); [lia|exact Hs|]. cbn [obind].
    destruct (IH (S from) s1) as (s2 & E & Hs2); [|exact Hs1|].
    + intros i s2 Hi. apply Hbody. lia.
    + exists s2. split; [exact E|]. replace (from + S n)%nat with (S from + n)%nat by lia.
      exact Hs2.
Qed.

(** The row of coordinate values once the first [i] points are written. *)
Lemma store_fill (f : Point -> float) :
  forall (pts : list Point) (i : nat) (p : Point),
    nth_error pts i = Some p ->
    store (map f (firstn i pts) ++ repeat 0 (length pts - i)) i (f p)
    = Ret (map f (firstn (S i) pts) ++ repeat 0 (length pts - S i)).
Proof.
  induction pts as [|q pts IH]; intros i p H.
  - destruct i; discriminate.
  - destruct i as [|i].
    + cbn in H. injection H as ->. cbn. rewrite Nat.sub_0_r. reflexivity.
    + cbn [nth_error] in H. cbn [firstn map app length Nat.sub store].
      rewrite (IH i p H). reflexivity.
Qed.

Lemma fill_skip (f : Point -> float) :
  forall (pts : list Point) (i : nat) (p : Point),
    nth_error pts i = Some p -> f p = 0 ->
    map f (firstn i pts) ++ repeat 0 (length pts - i)
    = map f (firstn (S i) pts) ++ repeat 0 (length pts - S i).
Proof.
  induction pts as [|q pts IH]; intros i p H Hz.
  - destruct i; discriminate.
  - destruct i as [|i].
    + cbn in H. injection H as ->. cbn. rewrite Nat.sub_0_r, Hz. reflexivity.
    + cbn [nth_error] in H. cbn [firstn map app length Nat.sub].
      rewrite (IH i p H Hz). reflexivity.
Qed.

Lemma store2_fill (pts : list Point) (i : nat) (p : Point) (a : nat)
    (m : list (list float)) :
  nth_error pts i = Some p ->
  nth_error m a = Some (map (coord a) (firstn i pts) ++ repeat 0 (length pts - i)) ->
  exists m',
    store2 m a i (coord a p) = Ret m'
    /\ length m' = length m
    /\ forall b, nth_error m' b
                 = if (b =? a)%nat
                   then Some (map (coord a) (firstn (S i) pts)
                              ++ repeat 0 (length pts - S i))
                   else nth_error m b.
Proof.
  intros Hp Ha. unfold store2, load. rewrite Ha. cbn [obind].
  rewrite (store_fill (coord a) pts i p Hp). cbn [obind].
  destruct (store_in_range m a (map (coord a) (firstn (S i) pts)
                                ++ repeat 0 (length pts - S i))) as (m' & E).
  { apply nth_error_Some. congruence. }
  exists m'. split; [exact E|]. split; [exact (store_length _ _ _ _ E)|].
  exact (nth_error_store _ _ _ _ E).
Qed.

(** X30: on a solution whose points are no longer than the first one,
    [PointCoords] never panics and transposes the points: the result has one
    row for the time and one for each component of the first value, row [a]
    holding coordinate [a] of every point in order. *)
Theorem DenseSolution_PointCoords_transposes
    (d : DenseSolution) (first : Point) (rest : list Point) :
  points d = first :: rest ->
  Forall (fun p => (length (Value p) <= length (Value first))%nat) rest ->
  exists m,
    DenseSolution_PointCoords d = Ret m
    /\ length m = S (length (Value first))
    /\ forall a, (a <= length (Value first))%nat ->
                 nth_error m a = Some (map (coord a) (points d)).
Proof.
  intros Ep Hrest. unfold DenseSolution_PointCoords. rewrite Ep.
  cbn [load nth_error obind]. rewrite <- Ep.
  set (size := length (Value first)). set (pts := points d).
  assert (Hall : Forall (fun p => (length (Value p) <= size)%nat) pts).
  { unfold pts. rewrite Ep. constructor; [unfold size; lia|exact Hrest]. }
  rewrite repeat_length. unfold forRange.
  (* the rows are allocated *)
  destruct (forRangeFrom_invariant
              (fun i r => length r = (size + 1)%nat
                          /\ forall a, (a < i)%nat ->
                                       nth_error r a = Some (make (length pts)))
              (fun i result => store result i (make (length pts)))
              (size + 1) 0 (repeat [] (size + 1))) as (m0 & -> & L0 & R0).
  { intros i r Hi (Lr & Hr).
    destruct (store_in_range r i (make (length pts))) as (r' & E); [lia|].
    exists r'. split; [exact E|]. split; [rewrite (store_length _ _ _ _ E); exact Lr|].
    intros a Ha. rewrite (nth_error_store _ _ _ _ E).
    destruct (Nat.eqb_spec a i); [reflexivity|]. apply Hr. lia. }
  { split; [apply repeat_length|]. intros a Ha. lia. }
  cbn [obind].
  (* the points are written one by one *)
  destruct (forRangeFrom_invariant
              (fun i r => length r = (size + 1)%nat
                          /\ forall a, (a <= size)%nat ->
                                       nth_error r a
                                       = Some (map (coord a) (firstn i pts)
                                               ++ repeat 0 (length pts - i)))
              (fun i result =>
                 p <~ load pts i ;;
                 result <~ store2 result 0 i (Time p) ;;
                 forRange (length (Value p))
                   (fun j result => v <~ load (Value p) j ;; store2 result (j + 1) i v)
                   result)
              (length pts) 0 m0) as (m & E & Lm & Rm).
  - intros i r Hi (Lr & Hr).
    destruct (load_in_range pts i) as (p & -> & Hp); [lia|]. cbn [obind].
    assert (Hlen : (length (Value p) <= size)%nat).
    { rewrite Forall_forall in Hall. apply Hall. eapply nth_error_In. exact Hp. }
    destruct (store2_fill pts i p 0 r Hp (Hr 0%nat (Nat.le_0_l _)))
      as (r0 & E0 & L0' & N0).
    cbn [coord] in E0. rewrite E0. cbn [obind]. unfold forRange.
    destruct (forRangeFrom_invariant
                (fun j r' => length r' = (size + 1)%nat
                             /\ forall a, (a <= size)%nat ->
                                  nth_error r' a
                                  = Some (if (a <=? j)%nat
                                          then map (coord a) (firstn (S i) pts)
                                               ++ repeat 0 (length pts - S i)
                                          else map (coord a) (firstn i pts)
                                               ++ repeat 0 (length pts - i)))
                (fun j result => v <~ load (Value p) j ;; store2 result (j + 1) i v)
                (length (Value p)) 0 r0) as (r1 & E1 & L1 & R1).
    + intros j r' Hj (Lr' & Hr').
      destruct (load_in_range (Value p) j) as (v & -> & Hv); [lia|]. cbn [obind].
      assert (Ev : v = coord (j + 1) p).
      { replace (j + 1)%nat with (S j) by lia. cbn [coord].
        symmetry. apply nth_error_nth. exact Hv. }
      rewrite Ev.
      destruct (store2_fill pts i p (j + 1) r' Hp) as (r2 & E2 & L2 & N2).
      { rewrite Hr' by lia. destruct (Nat.leb_spec (j + 1) j); [lia|reflexivity]. }
      exists r2. split; [exact E2|]. split; [congruence|].
      intros a Ha. rewrite N2. destruct (Nat.eqb_spec a (j + 1)) as [->|Hne].
      * destruct (Nat.leb_spec (j + 1) (S j)); [reflexivity|lia].
      * rewrite Hr' by exact Ha.
        destruct (Nat.leb_spec a j), (Nat.leb_spec a (S j)); try reflexivity; lia.
    + split; [congruence|]. intros a Ha. rewrite N0.
      destruct (Nat.eqb_spec a 0) as [->|Hne]; [reflexivity|].
      rewrite Hr by exact Ha. destruct (Nat.leb_spec a 0); [lia|reflexivity].
    + exists r1. split; [exact E1|]. split; [exact L1|].
      intros a Ha. rewrite R1 by exact Ha. cbn [Nat.add].
      destruct (Nat.leb_spec a (length (Value p))); [reflexivity|].
      f_equal. apply (fill_skip (coord a) pts i p Hp).
      destruct a as [|a]; [lia|]. cbn [coord]. apply nth_overflow. lia.
  - split; [exact L0|]. intros a Ha. cbn [firstn map app]. rewrite Nat.sub_0_r.
    apply R0. lia.
  - exists m. split; [exact E|]. split; [rewrite Lm; lia|].
    intros a Ha. rewrite Rm by exact Ha. cbn [Nat.add].
    rewrite firstn_all, Nat.sub_diag. cbn [repeat]. rewrite app_nil_r. reflexivity.
Qed.

Lemma DenseSolution_PointCoords_transposes_witness :
  let d := mkDenseSolution [mkPoint 0 [1; 2]; mkPoint 0.5 [3]; mkPoint 1 [4; 5]]
                           LinearInterpolator in
  DenseSolution_PointCoords d = Ret [[0; 0.5; 1]; [1; 3; 4]; [2; 0; 5]]
  /\ exists m,
       DenseSolution_PointCoords d = Ret m
       /\ length m = 3%nat
       /\ forall a, (a <= 2)%nat -> nth_error m a = Some (map (coord a) (points d)).
Proof.
  intros d. split; [vm_compute; reflexivity|].
  apply (DenseSolution_PointCoords_transposes d (mkPoint 0 [1; 2])
           [mkPoint 0.5 [3]; mkPoint 1 [4; 5]]).
  - reflexivity.
  - repeat constructor.
Defined.

(** ** Asking the cache between its first backward point and its initial point *)

Lemma decreasing_below_head (b0 : Point) (bs : list Point) :
  decreasing (b0 :: bs) -> Forall (fun p => (Time p <? Time b0) = true) bs.
Proof.
  unfold decreasing. revert b0. induction bs as [|b bs IH]; intros b0 H; [constructor|].
  apply Sorted_inv in H. destruct H as [Hs Hh]. apply HdRel_inv in Hh.
  constructor; [exact Hh|].
  eapply Forall_impl; [|exact (IH b Hs)].
  intros q Hq. exact (ltb_trans _ _ _ Hq Hh).
Qed.

(** C7: the claim fails where the lookup of [Get] fails.  On a cache whose
    backward points are at decreasing times and whose forward points are at
    increasing times, a time [t] strictly between the first backward point
    and the initial point lies in the stored range, and [Get(t)] makes no
    call and panics: the scan [for t > c.backward[i].Time] runs off the end
    of the backward list.  No value is returned, the first time or the
    second. *)
Theorem CacheSolver_Get_covered_panics
    (c : CacheSolver.t) (t : float) (b0 f0 : Point) (bs fs : list Point) :
  CacheSolver.backward c = b0 :: bs -> decreasing (CacheSolver.backward c) ->
  CacheSolver.forward c = f0 :: fs -> increasing (CacheSolver.forward c) ->
  (Time b0 <? t) = true -> (t <? Time f0) = true ->
  covered c t /\ forall fuel, CacheSolver.Get fuel c t = ([], Panic).
Proof.
  intros Hb Hdec Hf Hinc Hlo Hhi.
  (* every backward point is before [t] *)
  assert (Hall : Forall (fun p => (Time p <? t) = true) (CacheSolver.backward c)).
  { rewrite Hb in *. constructor; [exact Hlo|].
    eapply Forall_impl; [|exact (decreasing_below_head b0 bs Hdec)].
    intros q Hq. exact (ltb_trans _ _ _ Hq Hlo). }
  (* the stored range *)
  destruct (exists_last (l := CacheSolver.backward c)) as (b1 & bl & Ebl);
    [rewrite Hb; discriminate|].
  assert (HS : CacheSolver.Start c = Ret (Time bl)).
  { unfold CacheSolver.Start. rewrite Ebl.
    replace (0 <? len (b1 ++ [bl]))%Z with true.
    - rewrite at_last. reflexivity.
    - symmetry. apply Z.ltb_lt. unfold len. rewrite length_app. cbn [length]. lia. }
  assert (Hbl : (Time bl <? t) = true).
  { rewrite Ebl in Hall. apply Forall_app in Hall. destruct Hall as [_ Hall].
    exact (Forall_inv Hall). }
  destruct (exists_last (l := CacheSolver.forward c)) as (f1 & fl & Efl);
    [rewrite Hf; discriminate|].
  assert (HE : CacheSolver.End c = Ret (Time fl)).
  { unfold CacheSolver.End. rewrite Efl, at_last. reflexivity. }
  assert (Hfl : (t <? Time fl) = true).
  { rewrite Efl in Hinc. pose proof (increasing_below_last _ _ Hinc) as Hbelow.
    destruct f1 as [|g f1].
    - rewrite Hf in Efl. cbn in Efl. injection Efl as <- _. exact Hhi.
    - rewrite Hf in Efl. cbn in Efl. injection Efl as -> _.
      exact (ltb_trans _ _ _ Hhi (Forall_inv Hbelow)). }
  split.
  - exists (Time bl), (Time fl). repeat split; auto using ltb_leb.
  - intros fuel. unfold CacheSolver.Get.
    rewrite HS, bind_lift_Ret, (ltb_not_gt _ _ Hbl), bind_ret. cbn [negb].
    rewrite HE, bind_lift_Ret, (ltb_not_gt _ _ Hfl), bind_ret. cbn [negb].
    unfold CacheSolver.lookup. rewrite Hf. cbn [load nth_error obind].
    rewrite (ltb_not_ge _ _ Hhi).
    rewrite (scan_all_below t _ 0 Hall). reflexivity.
Qed.

(** After [Get(-1)] the cache over [x' = 1] holds the points at times -1 and
    0; asked at -0.5, inside its range, it panics. *)
Lemma CacheSolver_Get_covered_panics_witness :
  map Time (CacheSolver.backward cacheBack1) = [0 + -1]
  /\ map Time (CacheSolver.forward cacheBack1) = [0]
  /\ covered cacheBack1 (-0.5)
  /\ forall fuel, CacheSolver.Get fuel cacheBack1 (-0.5) = ([], Panic).
Proof.
  split; [vm_compute; reflexivity|]. split; [vm_compute; reflexivity|].
  apply (CacheSolver_Get_covered_panics cacheBack1 (-0.5)
           (mkPoint (0 + -1) [-1]) (mkPoint 0 [0]) [] []).
  - vm_compute. reflexivity.
  - unfold decreasing. vm_compute. repeat constructor.
  - vm_compute. reflexivity.
  - unfold increasing. vm_compute. repeat constructor.
  - vm_compute. reflexivity.
  - vm_compute. reflexivity.
Defined.
